(** * Great-circle geometry of [geo.py]

    A shallow embedding of the vector and spherical-trigonometry library
    [geo.py] and the properties its specification states about it.

    Three readings of Python's [float] are given.  In the first a float is a
    real number ([R] of the Standard Library) and every operation is the
    exact one.  In the second, module [Binary64], a float is an IEEE 754
    binary64 number and every operation rounds as the machine does; it
    covers the vector algebra and [angle_vectors], and it computes.  In the
    third, module [Rounded], a float is a real number with a significand of
    53 bits and every operation rounds to the nearest such number: binary64
    as long as nothing overflows or underflows, with the trigonometry.
    Tuples of floats are lists.  A Python exception is a value of type
    [exn]; a function that may raise returns a [result]. *)

From Stdlib Require Import String.
From Stdlib Require Import Reals Lra Lia ZArith List Bool Psatz.
From Stdlib Require Import Zfloor Machin Rtrigo_alt RNsatz.
From Stdlib Require Floats.
Import ListNotations.

Open Scope R_scope.

(** ** Exceptions and fallible computations *)

Inductive exn : Type :=
| ValueError (msg : string)
| IndexError (msg : string)
| ZeroDivisionError (msg : string)
| OverflowError (msg : string).

Inductive result (A : Type) : Type :=
| Ok (a : A)
| Raise (e : exn).

Arguments Ok {A} a.
Arguments Raise {A} e.

Definition bind {A B : Type} (m : result A) (k : A -> result B) : result B :=
  match m with
  | Ok a => k a
  | Raise e => Raise e
  end.

Notation "x <- m ;; k" := (bind m (fun x => k))
  (at level 61, m at next level, right associativity).

Definition raises {A : Type} (m : result A) : Prop :=
  exists e, m = Raise e.

Definition returns {A : Type} (m : result A) : Prop :=
  exists a, m = Ok a.

(** ** The Python primitives the module uses, over the reals *)

Definition tuple : Type := list R.

(** [sum(l)]: a left fold from the integer [0]. *)
Definition sum (l : list R) : R := fold_left Rplus l 0.

(** [math.sqrt]: a domain error on a negative argument. *)
Definition math_sqrt (x : R) : result R :=
  if Rlt_dec x 0 then Raise (ValueError "math domain error") else Ok (sqrt x).

(** [math.acos]: a domain error outside [[-1, 1]]. *)
Definition math_acos (x : R) : result R :=
  if Rlt_dec x (-1) then Raise (ValueError "math domain error")
  else if Rlt_dec 1 x then Raise (ValueError "math domain error")
  else Ok (acos x).

Definition math_radians (x : R) : R := x * (PI / 180).

Definition math_degrees (x : R) : R := x * (180 / PI).

(** [a / b] on floats. *)
Definition truediv (a b : R) : result R :=
  if Req_dec_T b 0 then Raise (ZeroDivisionError "float division by zero")
  else Ok (a / b).

(** [round(x)]: the nearest integer, a tie going to the even one. *)
Definition round_half_even (x : R) : Z :=
  let f := Zfloor x in
  let d := x - IZR f in
  if Rlt_dec d (1 / 2) then f
  else if Rlt_dec (1 / 2) d then (f + 1)%Z
  else if Z.even f then f else (f + 1)%Z.

(** [round(x, ndigits)]: the nearest multiple of [10 ** -ndigits]. *)
Definition round_ndigits (x : R) (ndigits : nat) : R :=
  IZR (round_half_even (x * 10 ^ ndigits)) / 10 ^ ndigits.

(** [l[i]] on a list: a negative index counts from the end. *)
Definition getitem {A : Type} (l : list A) (i : Z) : result A :=
  let n := Z.of_nat (length l) in
  let j := if (i <? 0)%Z then (i + n)%Z else i in
  if ((j <? 0)%Z || (n <=? j)%Z)%bool
  then Raise (IndexError "list index out of range")
  else match nth_error l (Z.to_nat j) with
       | Some a => Ok a
       | None => Raise (IndexError "list index out of range")
       end.

(** ** [geo.py], over the reals *)

(** Radius of the Earth in Km (the module's constant [R]). *)
Definition R_km : R := 6371.

(** [magnitude] (geo.py, line 7): [math.sqrt(sum([a ** 2 for a in v]))]. *)
Definition magnitude (v : tuple) : result R :=
  math_sqrt (sum (map (fun a => a ^ 2) v)).

(** [dot_product] (line 16): the sum over [zip(v, w)]. *)
Definition dot_product (v w : tuple) : result R :=
  if negb (length v =? length w)%nat
  then Raise (ValueError "Vectors must have the same length")
  else Ok (sum (map (fun ab => fst ab * snd ab) (combine v w))).

(** [cross_product] (line 29); [nth i v 0] is [v[i]], in range after the
    length check. *)
Definition cross_product (v w : tuple) : result tuple :=
  if (negb (length v =? 3)%nat || negb (length w =? 3)%nat)%bool
  then Raise (ValueError "Vectors must have a length of 3")
  else
    let x := nth 1 v 0 * nth 2 w 0 - nth 2 v 0 * nth 1 w 0 in
    let y := nth 2 v 0 * nth 0 w 0 - nth 0 v 0 * nth 2 w 0 in
    let z := nth 0 v 0 * nth 1 w 0 - nth 1 v 0 * nth 0 w 0 in
    Ok [x; y; z].

(** [to_vector] (line 45). *)
Definition to_vector (lat long : R) : result tuple :=
  if Rlt_dec lat (-90) then Raise (ValueError "Latitude must be between -90 and 90")
  else if Rlt_dec 90 lat then Raise (ValueError "Latitude must be between -90 and 90")
  else if Rlt_dec long (-180) then Raise (ValueError "Longitude must be between -180 and 180")
  else if Rlt_dec 180 long then Raise (ValueError "Longitude must be between -180 and 180")
  else
    let x := R_km * cos (math_radians lat) * cos (math_radians long) in
    let y := R_km * cos (math_radians lat) * sin (math_radians long) in
    let z := R_km * sin (math_radians lat) in
    Ok [x; y; z].

(** [angle_vectors] (line 63).  [or] evaluates [magnitude(w)] only when
    [magnitude(v)] is not 0; the last line computes the dot product and both
    magnitudes again, then divides, rounds and takes the inverse cosine. *)
Definition angle_vectors (v w : tuple) : result R :=
  if negb (length v =? length w)%nat
  then Raise (ValueError "Vectors must have the same length")
  else
    mv <- magnitude v ;;
    if Req_dec_T mv 0 then Ok 0
    else
      mw <- magnitude w ;;
      if Req_dec_T mw 0 then Ok 0
      else
        d <- dot_product v w ;;
        mv' <- magnitude v ;;
        mw' <- magnitude w ;;
        q <- truediv d (mv' * mw') ;;
        math_acos (round_ndigits q 5).

(** [angle_between_coordinates] (line 78). *)
Definition angle_between_coordinates (lat1 long1 lat2 long2 : R) : result R :=
  u <- to_vector lat1 long1 ;;
  v <- to_vector lat2 long2 ;;
  angle_vectors u v.

(** [distance_between_coordinates] (line 93). *)
Definition distance_between_coordinates (lat1 long1 lat2 long2 : R) : result R :=
  angle <- angle_between_coordinates lat1 long1 lat2 long2 ;;
  Ok (angle * R_km).

(** [direction_between_coordinates] (line 107). *)
Definition direction_between_coordinates (lat1 long1 lat2 long2 : R) : result tuple :=
  v <- to_vector lat1 long1 ;;
  w <- to_vector lat2 long2 ;;
  c <- cross_product v w ;;
  result <- cross_product c v ;;
  m <- magnitude result ;;
  if Rlt_dec m 1
  then (n <- cross_product v [0; 0; 1] ;; cross_product n v)
  else Ok result.

(** [bearing_between_coordinates] (line 127). *)
Definition bearing_between_coordinates (lat1 long1 lat2 long2 : R) : result R :=
  v <- to_vector lat1 long1 ;;
  n <- cross_product v [0; 0; 1] ;;
  north_vector <- cross_product n v ;;
  w <- direction_between_coordinates lat1 long1 lat2 long2 ;;
  a <- angle_vectors w north_vector ;;
  let bearing := math_degrees a in
  if Rlt_dec long2 long1 then Ok (360 - bearing) else Ok bearing.

(** [cardinal_from_angle] (line 145) and its table. *)
Definition cardinals : list string :=
  ["N"; "NE"; "E"; "SE"; "S"; "SW"; "W"; "NW"; "N"]%string.

Definition cardinal_from_angle (angle : R) : result string :=
  getitem cardinals (round_half_even (angle / 45)).

(** ** [iss.py], over the reals *)

(** [math.asin]: a domain error outside [[-1, 1]]. *)
Definition math_asin (x : R) : result R :=
  if Rlt_dec x (-1) then Raise (ValueError "math domain error")
  else if Rlt_dec 1 x then Raise (ValueError "math domain error")
  else Ok (asin x).

(** [elevation] (iss.py, line 9): the law of cosines gives the distance to
    the station, the law of sines the angle [gamma] at the station. *)
Definition elevation (alpha : R) : result R :=
  let r := 6371 in
  let h := 408 in
  distance <- math_sqrt (r ^ 2 + (r + h) ^ 2 - 2 * r * (r + h) * cos alpha) ;;
  q <- truediv (sin alpha * r) distance ;;
  gamma <- math_asin q ;;
  Ok (math_degrees (PI / 2 - alpha - gamma)).

(** ** Section 4.5 of the specification

    The bearing as the specification words it, to be compared with
    [bearing_between_coordinates]. *)

(** The unsigned bearing is [degrees(angle_vectors(w, north_vector))]. *)
Definition unsigned_bearing (lat1 long1 lat2 long2 : R) : result R :=
  v <- to_vector lat1 long1 ;;
  n <- cross_product v [0; 0; 1] ;;
  north_vector <- cross_product n v ;;
  w <- direction_between_coordinates lat1 long1 lat2 long2 ;;
  a <- angle_vectors w north_vector ;;
  Ok (math_degrees a).

(** If [long2 < long1] the bearing is mirrored: [bearing = 360 - bearing]. *)
Definition bearing_section_4_5 (lat1 long1 lat2 long2 : R) : result R :=
  u <- unsigned_bearing lat1 long1 lat2 long2 ;;
  Ok (if Rlt_dec long2 long1 then 360 - u else u).

(** ** Notions the statements use *)

Definition squares (v : tuple) : list R := map (fun a => a ^ 2) v.

Definition products (v w : tuple) : list R :=
  map (fun ab => fst ab * snd ab) (combine v w).

Definition valid_latitude (lat : R) : Prop := -90 <= lat <= 90.

Definition valid_longitude (long : R) : Prop := -180 <= long <= 180.

Definition out_of_range_error (e : exn) : Prop :=
  e = ValueError "Latitude must be between -90 and 90" \/
  e = ValueError "Longitude must be between -180 and 180".

(** The point of the sphere that [to_vector] computes for a valid coordinate. *)
Definition sphere_point (lat long : R) : tuple :=
  [R_km * cos (math_radians lat) * cos (math_radians long);
   R_km * cos (math_radians lat) * sin (math_radians long);
   R_km * sin (math_radians lat)].

(** The components [cross_product] computes, on tuples of length 3. *)
Definition cross (v w : tuple) : tuple :=
  [nth 1 v 0 * nth 2 w 0 - nth 2 v 0 * nth 1 w 0;
   nth 2 v 0 * nth 0 w 0 - nth 0 v 0 * nth 2 w 0;
   nth 0 v 0 * nth 1 w 0 - nth 1 v 0 * nth 0 w 0].

(** [cross(cross(v, w), v)]: the part of [w] tangent to the sphere at [v]. *)
Definition tangent (v w : tuple) : tuple := cross (cross v w) v.

(** The vector [direction_between_coordinates] returns on valid coordinates. *)
Definition direction_vector (lat1 long1 lat2 long2 : R) : tuple :=
  let v := sphere_point lat1 long1 in
  let t := tangent v (sphere_point lat2 long2) in
  if Rlt_dec (sqrt (sum (squares t))) 1 then tangent v [0; 0; 1] else t.

(** [R * cos 45 = R * sin 45], the length the sample vectors of the tests
    are made of. *)
Definition k45 : R := R_km * (1 / sqrt 2).

(** [k * v] and [- v], component by component. *)
Definition scale (k : R) (v : tuple) : tuple := map (Rmult k) v.

Definition negate (v : tuple) : tuple := map Ropp v.

(** The cosine of the central angle between two coordinates, by the
    spherical law of cosines. *)
Definition central_cosine (lat1 long1 lat2 long2 : R) : R :=
  sin (math_radians lat1) * sin (math_radians lat2) +
  cos (math_radians lat1) * cos (math_radians lat2) *
  cos (math_radians long1 - math_radians long2).

(** The eight labels of the compass. *)
Definition compass_labels : list string :=
  ["N"; "NE"; "E"; "SE"; "S"; "SW"; "W"; "NW"]%string.

(** A result that is the out-of-range [ValueError] of [to_vector]. *)
Definition out_of_range {A : Type} (m : result A) : Prop :=
  exists e, m = Raise e /\ out_of_range_error e.

(** The unit vector that points north in the plane tangent to the sphere at
    a coordinate. *)
Definition north_unit (lat long : R) : tuple :=
  [- sin (math_radians lat) * cos (math_radians long);
   - sin (math_radians lat) * sin (math_radians long);
   cos (math_radians lat)].

(** The squared distance to the station, by the law of cosines. *)
Definition station_distance_sq (alpha : R) : R :=
  6371 ^ 2 + (6371 + 408) ^ 2 - 2 * 6371 * (6371 + 408) * cos alpha.

(** The sine of the angle at the station, by the law of sines. *)
Definition station_sine (alpha : R) : R :=
  sin alpha * 6371 / sqrt (station_distance_sq alpha).

(** The unit vector that points east at a point of the equator. *)
Definition east_unit (long : R) : tuple :=
  [- sin (math_radians long); cos (math_radians long); 0].

(** The angle at the station, [gamma] in [elevation]. *)
Definition station_angle (alpha : R) : R := asin (station_sine alpha).

(** ** The vector algebra and [angle_vectors] over binary64

    CPython's [float] is the IEEE 754 binary64 format, rounding to nearest,
    ties to even: the kernel's primitive floats.  [a ** 2] is read as the
    correctly rounded square [a * a], with the [OverflowError] CPython raises
    when a finite base overflows; [sum] adds from left to right, starting
    from 0.  The value [math.acos] returns inside its domain is the C
    library's, a parameter here. *)

Module Binary64.
Import Floats.
Local Open Scope float_scope.

Definition tuple : Type := list float.

Definition sum (l : list float) : float := fold_left PrimFloat.add l 0.

Definition math_sqrt (x : float) : result float :=
  if x <? 0 then Raise (ValueError "math domain error")
  else Ok (PrimFloat.sqrt x).

(** [a ** 2]. *)
Definition float_square (a : float) : result float :=
  let r := a * a in
  if is_infinity r && negb (is_infinity a)
  then Raise (OverflowError "(34, 'Numerical result out of range')")
  else Ok r.

(** [[a ** 2 for a in v]]: the first square that overflows raises. *)
Fixpoint squares (v : tuple) : result (list float) :=
  match v with
  | [] => Ok []
  | a :: v' => s <- float_square a ;; l <- squares v' ;; Ok (s :: l)
  end.

Definition truediv (a b : float) : result float :=
  if b =? 0 then Raise (ZeroDivisionError "float division by zero")
  else Ok (a / b).

(** The integer nearest to [a / b] for [b > 0], a tie going to the even one. *)
Definition div_half_even (a b : Z) : Z :=
  let q := (a / b)%Z in
  let r := (a mod b)%Z in
  if (2 * r <? b)%Z then q
  else if (b <? 2 * r)%Z then (q + 1)%Z
  else if Z.even q then q else (q + 1)%Z.

(** [round(x, ndigits)] for [ndigits >= 0]: the exact value [m * 2 ** e] of
    [x] is rounded to [n / 10 ** ndigits], ties to even, and that decimal is
    rounded to the nearest float. *)
Definition round_ndigits (x : float) (ndigits : Z) : float :=
  match Prim2SF x with
  | S754_finite s m e =>
      let num := (Z.pos m * 10 ^ ndigits)%Z in
      let n := if (0 <=? e)%Z then (num * 2 ^ e)%Z
               else div_half_even num (2 ^ (- e)) in
      match n with
      | Z.pos p =>
          SF2Prim (SF64div (S754_finite s p 0)
                           (S754_finite false (Z.to_pos (10 ^ ndigits)) 0))
      | _ => if s then neg_zero else zero
      end
  | _ => x
  end.

Definition magnitude (v : tuple) : result float :=
  l <- squares v ;; math_sqrt (sum l).

Definition dot_product (v w : tuple) : result float :=
  if negb (length v =? length w)%nat
  then Raise (ValueError "Vectors must have the same length")
  else Ok (sum (map (fun ab => fst ab * snd ab) (combine v w))).

Definition cross_product (v w : tuple) : result tuple :=
  if (negb (length v =? 3)%nat || negb (length w =? 3)%nat)%bool
  then Raise (ValueError "Vectors must have a length of 3")
  else
    let x := nth 1 v 0 * nth 2 w 0 - nth 2 v 0 * nth 1 w 0 in
    let y := nth 2 v 0 * nth 0 w 0 - nth 0 v 0 * nth 2 w 0 in
    let z := nth 0 v 0 * nth 1 w 0 - nth 1 v 0 * nth 0 w 0 in
    Ok [x; y; z].

Section Libm.

(** The C library's [acos] on [[-1, 1]]. *)
Variable libm_acos : float -> float.

(** [math.acos]: a domain error outside [[-1, 1]]; a NaN goes through. *)
Definition math_acos (x : float) : result float :=
  if (x <? -1) || (1 <? x) then Raise (ValueError "math domain error")
  else Ok (libm_acos x).

Definition angle_vectors (v w : tuple) : result float :=
  if negb (length v =? length w)%nat
  then Raise (ValueError "Vectors must have the same length")
  else
    mv <- magnitude v ;;
    if mv =? 0 then Ok 0
    else
      mw <- magnitude w ;;
      if mw =? 0 then Ok 0
      else
        d <- dot_product v w ;;
        mv' <- magnitude v ;;
        mw' <- magnitude w ;;
        q <- truediv d (mv' * mw') ;;
        math_acos (round_ndigits q 5).

End Libm.

(** Two parallel vectors of one component, [(9 * 2 ** -540,)] and
    [(23 * 2 ** -541,)], about [2.5e-162] and [3.2e-162]: their squares and
    their product are subnormal. *)
Definition tiny_v : tuple := [Z.ldexp 9 (-540)].

Definition tiny_w : tuple := [Z.ldexp 23 (-541)].

(** [2.0 ** 600] and [2.0 ** -600]: the square of the first overflows, the
    square of the second underflows to 0. *)
Definition huge : float := Z.ldexp 1 600.

Definition tiny : float := Z.ldexp 1 (-600).

End Binary64.

(** ** [geo.py] over rounded reals

    A third reading of Python's [float]: a real number with a significand of
    53 bits, every operation giving the exact result rounded to the nearest
    such number, a tie going to the even significand.  This is binary64
    with an exponent that has no bounds: it agrees with the machine as long
    as no operation overflows or underflows.  [a ** 2] is the rounded
    square, [sum] adds from left to right, starting from 0, and the
    functions of the C library ([cos], [sin], [acos]) are read as correctly
    rounded; [math.radians] and [math.degrees] multiply by CPython's
    constants [pi / 180.0] and [180.0 / pi], [pi] being the float nearest to
    the number. *)

(** The binade of [x]: the integer [e] with [2 ** e <= |x| < 2 ** (e + 1)]. *)
Definition binade (x : R) : Z := Zfloor (ln (Rabs x) / ln 2).

(** The nearest number with a 53-bit significand, a tie going to the even
    significand. *)
Definition round53 (x : R) : R :=
  let e := binade x in
  IZR (round_half_even (x * powerRZ 2 (52 - e))) * powerRZ 2 (e - 52).

(** The unit roundoff of binary64. *)
Definition u53 : R := / 2 ^ 53.

Module Rounded.
(** [sum(l)]: each addition rounds. *)
Definition sum (l : list R) : R := fold_left (fun a x => round53 (a + x)) l 0.

Definition math_sqrt (x : R) : result R :=
  if Rlt_dec x 0 then Raise (ValueError "math domain error")
  else Ok (round53 (sqrt x)).

Definition math_acos (x : R) : result R :=
  if Rlt_dec x (-1) then Raise (ValueError "math domain error")
  else if Rlt_dec 1 x then Raise (ValueError "math domain error")
  else Ok (round53 (acos x)).

Definition math_cos (x : R) : R := round53 (cos x).

Definition math_sin (x : R) : R := round53 (sin x).

(** [math.pi]. *)
Definition math_pi : R := round53 PI.

Definition math_radians (x : R) : R := round53 (x * round53 (math_pi / 180)).

Definition math_degrees (x : R) : R := round53 (x * round53 (180 / math_pi)).

Definition truediv (a b : R) : result R :=
  if Req_dec_T b 0 then Raise (ZeroDivisionError "float division by zero")
  else Ok (round53 (a / b)).

(** [round(x, ndigits)]: the nearest multiple of [10 ** -ndigits] of the
    exact value of [x], then the float nearest to that decimal. *)
Definition round_ndigits (x : R) (ndigits : nat) : R :=
  round53 (IZR (round_half_even (x * 10 ^ ndigits)) / 10 ^ ndigits).

Definition magnitude (v : tuple) : result R :=
  math_sqrt (sum (map (fun a => round53 (a * a)) v)).

Definition dot_product (v w : tuple) : result R :=
  if negb (length v =? length w)%nat
  then Raise (ValueError "Vectors must have the same length")
  else Ok (sum (map (fun ab => round53 (fst ab * snd ab)) (combine v w))).

Definition cross_product (v w : tuple) : result tuple :=
  if (negb (length v =? 3)%nat || negb (length w =? 3)%nat)%bool
  then Raise (ValueError "Vectors must have a length of 3")
  else
    let x := round53 (round53 (nth 1 v 0 * nth 2 w 0) - round53 (nth 2 v 0 * nth 1 w 0)) in
    let y := round53 (round53 (nth 2 v 0 * nth 0 w 0) - round53 (nth 0 v 0 * nth 2 w 0)) in
    let z := round53 (round53 (nth 0 v 0 * nth 1 w 0) - round53 (nth 1 v 0 * nth 0 w 0)) in
    Ok [x; y; z].

Definition to_vector (lat long : R) : result tuple :=
  if Rlt_dec lat (-90) then Raise (ValueError "Latitude must be between -90 and 90")
  else if Rlt_dec 90 lat then Raise (ValueError "Latitude must be between -90 and 90")
  else if Rlt_dec long (-180) then Raise (ValueError "Longitude must be between -180 and 180")
  else if Rlt_dec 180 long then Raise (ValueError "Longitude must be between -180 and 180")
  else
    let x := round53 (round53 (R_km * math_cos (math_radians lat)) *
                      math_cos (math_radians long)) in
    let y := round53 (round53 (R_km * math_cos (math_radians lat)) *
                      math_sin (math_radians long)) in
    let z := round53 (R_km * math_sin (math_radians lat)) in
    Ok [x; y; z].

Definition angle_vectors (v w : tuple) : result R :=
  if negb (length v =? length w)%nat
  then Raise (ValueError "Vectors must have the same length")
  else
    mv <- magnitude v ;;
    if Req_dec_T mv 0 then Ok 0
    else
      mw <- magnitude w ;;
      if Req_dec_T mw 0 then Ok 0
      else
        d <- dot_product v w ;;
        mv' <- magnitude v ;;
        mw' <- magnitude w ;;
        q <- truediv d (round53 (mv' * mw')) ;;
        math_acos (round_ndigits q 5).

Definition direction_between_coordinates (lat1 long1 lat2 long2 : R) : result tuple :=
  v <- to_vector lat1 long1 ;;
  w <- to_vector lat2 long2 ;;
  c <- cross_product v w ;;
  result <- cross_product c v ;;
  m <- magnitude result ;;
  if Rlt_dec m 1
  then (n <- cross_product v [0; 0; 1] ;; cross_product n v)
  else Ok result.

Definition bearing_between_coordinates (lat1 long1 lat2 long2 : R) : result R :=
  v <- to_vector lat1 long1 ;;
  n <- cross_product v [0; 0; 1] ;;
  north_vector <- cross_product n v ;;
  w <- direction_between_coordinates lat1 long1 lat2 long2 ;;
  a <- angle_vectors w north_vector ;;
  let bearing := math_degrees a in
  if Rlt_dec long2 long1 then Ok (round53 (360 - bearing)) else Ok bearing.

End Rounded.

(** The squares and the products that [magnitude] and [dot_product] add. *)
Definition rounded_squares (v : tuple) : list R :=
  map (fun a => round53 (a * a)) v.

Definition rounded_products (v w : tuple) : list R :=
  map (fun ab => round53 (fst ab * snd ab)) (combine v w).

(** * Properties *)

(** ** The error monad *)

Lemma bind_Ok {A B : Type} (a : A) (k : A -> result B) : bind (Ok a) k = k a.
Proof. reflexivity. Qed.

Lemma bind_Raise {A B : Type} (e : exn) (k : A -> result B) :
  bind (Raise e) k = Raise e.
Proof. reflexivity. Qed.

Lemma returns_Ok {A : Type} (a : A) : returns (Ok a).
Proof. now exists a. Qed.

Lemma raises_Raise {A : Type} (e : exn) : raises (@Raise A e).
Proof. now exists e. Qed.

Lemma returns_not_raises {A : Type} (m : result A) : returns m -> ~ raises m.
Proof. intros [a Ha] [e He]. congruence. Qed.

(** ** Sums, squares and the Cauchy-Schwarz inequality *)

Lemma fold_left_Rplus_acc (l : list R) (a : R) :
  fold_left Rplus l a = a + fold_left Rplus l 0.
Proof.
  revert a. induction l as [|x l IH]; intros a; simpl.
  - ring.
  - rewrite (IH (a + x)), (IH (0 + x)). ring.
Qed.

Lemma sum_nil : sum [] = 0.
Proof. reflexivity. Qed.

Lemma sum_cons (a : R) (l : list R) : sum (a :: l) = a + sum l.
Proof.
  unfold sum. simpl. rewrite fold_left_Rplus_acc. ring.
Qed.

Lemma sum_squares_nonneg (v : tuple) : 0 <= sum (squares v).
Proof.
  induction v as [|a v IH]; simpl.
  - rewrite sum_nil. lra.
  - rewrite sum_cons. nra.
Qed.

Lemma sum_squares_zero (v : tuple) :
  sum (squares v) = 0 -> Forall (fun a => a = 0) v.
Proof.
  induction v as [|a v IH]; simpl; intros H.
  - constructor.
  - rewrite sum_cons in H. pose proof (sum_squares_nonneg v) as Hv.
    constructor; [nra|]. apply IH. nra.
Qed.

Lemma square_le_le (x y : R) : 0 <= y -> x * x <= y * y -> x <= y.
Proof. intros Hy H. nra. Qed.

Lemma cauchy_schwarz_step (a b d A B : R) :
  0 <= A -> 0 <= B -> d * d <= A * B ->
  (a * b + d) * (a * b + d) <= (a ^ 2 + A) * (b ^ 2 + B).
Proof.
  intros HA HB Hd.
  assert (Hx : 2 * (a * b * d) <= a ^ 2 * B + A * b ^ 2).
  { apply square_le_le; [nra|].
    assert (H1 : (a * b) * (a * b) * (d * d) <= (a * b) * (a * b) * (A * B))
      by (apply Rmult_le_compat_l; nra).
    pose proof (Rle_0_sqr (a ^ 2 * B - A * b ^ 2)) as H2. unfold Rsqr in H2.
    nra. }
  nra.
Qed.

Lemma cauchy_schwarz (v w : tuple) :
  sum (products v w) * sum (products v w) <= sum (squares v) * sum (squares w).
Proof.
  revert w. induction v as [|a v IH]; intros [|b w]; unfold products; simpl;
    rewrite ?sum_nil, ?sum_cons.
  - lra.
  - lra.
  - pose proof (sum_squares_nonneg (a :: v)) as H. simpl in H.
    rewrite sum_cons in H. lra.
  - apply cauchy_schwarz_step.
    + apply sum_squares_nonneg.
    + apply sum_squares_nonneg.
    + apply IH.
Qed.

(** ** [magnitude], [dot_product], [cross_product] *)

Lemma magnitude_eq (v : tuple) : magnitude v = Ok (sqrt (sum (squares v))).
Proof.
  unfold magnitude, math_sqrt. fold (squares v).
  destruct (Rlt_dec _ 0) as [H|H]; [|reflexivity].
  pose proof (sum_squares_nonneg v). lra.
Qed.

Lemma magnitude_nonneg (v : tuple) (m : R) : magnitude v = Ok m -> 0 <= m.
Proof.
  rewrite magnitude_eq. intros [= <-]. apply sqrt_pos.
Qed.

Lemma magnitude_zero_iff (v : tuple) :
  magnitude v = Ok 0 <-> sum (squares v) = 0.
Proof.
  rewrite magnitude_eq. split.
  - intros [= H]. apply sqrt_eq_0; [apply sum_squares_nonneg | exact H].
  - intros ->. now rewrite sqrt_0.
Qed.

Lemma dot_product_eq (v w : tuple) :
  length v = length w -> dot_product v w = Ok (sum (products v w)).
Proof.
  intros H. unfold dot_product. rewrite H, Nat.eqb_refl. reflexivity.
Qed.

Lemma cross_product_eq (v0 v1 v2 w0 w1 w2 : R) :
  cross_product [v0; v1; v2] [w0; w1; w2] =
  Ok [v1 * w2 - v2 * w1; v2 * w0 - v0 * w2; v0 * w1 - v1 * w0].
Proof. reflexivity. Qed.

(** ** Rounding *)

(** [round_half_even x] is within one half of [x], and even at a tie. *)
Lemma round_half_even_spec (x : R) :
  IZR (round_half_even x) - 1 / 2 <= x <= IZR (round_half_even x) + 1 / 2 /\
  (x = IZR (round_half_even x) - 1 / 2 \/ x = IZR (round_half_even x) + 1 / 2 ->
   Z.even (round_half_even x) = true).
Proof.
  unfold round_half_even. pose proof (Zfloor_bound x) as Hf.
  destruct (Rlt_dec (x - IZR (Zfloor x)) (1 / 2)) as [Hlo|Hlo].
  - split; lra.
  - destruct (Rlt_dec (1 / 2) (x - IZR (Zfloor x))) as [Hhi|Hhi].
    + rewrite plus_IZR. split; lra.
    + destruct (Z.even (Zfloor x)) eqn:He.
      * split; [lra | intros _; exact He].
      * rewrite plus_IZR. split; [lra|]. intros _.
        rewrite Z.even_add, He. reflexivity.
Qed.

(** The integer [round_half_even] picks is the only one with that property. *)
Lemma round_half_even_unique (x : R) (n : Z) :
  IZR n - 1 / 2 <= x <= IZR n + 1 / 2 ->
  (x = IZR n - 1 / 2 \/ x = IZR n + 1 / 2 -> Z.even n = true) ->
  round_half_even x = n.
Proof.
  intros Hn He. destruct (round_half_even_spec x) as [Hr Hre].
  set (r := round_half_even x) in *.
  assert (Hd : (r = n - 1 \/ r = n \/ r = n + 1)%Z).
  { assert (H1 : IZR r - IZR n < 2) by lra.
    assert (H2 : IZR n - IZR r < 2) by lra.
    rewrite <- minus_IZR in H1, H2. apply lt_IZR in H1, H2. lia. }
  destruct Hd as [Hd|[Hd|Hd]]; [|exact Hd|]; exfalso.
  - assert (Hx : x = IZR n - 1 / 2) by (rewrite Hd, minus_IZR in Hr; lra).
    assert (E1 : Z.even n = true) by (apply He; left; exact Hx).
    assert (E2 : Z.even r = true).
    { apply Hre. right. rewrite Hd, minus_IZR. lra. }
    rewrite Hd, Z.even_sub, E1 in E2. discriminate.
  - assert (Hx : x = IZR n + 1 / 2) by (rewrite Hd, plus_IZR in Hr; lra).
    assert (E1 : Z.even n = true) by (apply He; right; exact Hx).
    assert (E2 : Z.even r = true).
    { apply Hre. left. rewrite Hd, plus_IZR. lra. }
    rewrite Hd, Z.even_add, E1 in E2. discriminate.
Qed.

Lemma round_half_even_near (x : R) (n : Z) :
  IZR n - 1 / 2 < x < IZR n + 1 / 2 -> round_half_even x = n.
Proof.
  intros H. apply round_half_even_unique; [lra|]. intros [E|E]; lra.
Qed.

Lemma round_half_even_IZR (n : Z) : round_half_even (IZR n) = n.
Proof. apply round_half_even_near. lra. Qed.

Lemma round_half_even_lower (x : R) (n : Z) :
  IZR n <= x -> (n <= round_half_even x)%Z.
Proof.
  intros H. destruct (round_half_even_spec x) as [Hr _].
  assert (H1 : IZR n - IZR (round_half_even x) < 1) by lra.
  rewrite <- minus_IZR in H1. apply lt_IZR in H1. lia.
Qed.

Lemma round_half_even_upper (x : R) (n : Z) :
  x <= IZR n -> (round_half_even x <= n)%Z.
Proof.
  intros H. destruct (round_half_even_spec x) as [Hr _].
  assert (H1 : IZR (round_half_even x) - IZR n < 1) by lra.
  rewrite <- minus_IZR in H1. apply lt_IZR in H1. lia.
Qed.

Lemma pow10_pos (n : nat) : 0 < 10 ^ n.
Proof. apply pow_lt. lra. Qed.

Lemma pow10_IZR (n : nat) : 10 ^ n = IZR (10 ^ Z.of_nat n).
Proof.
  rewrite <- pow_IZR. reflexivity.
Qed.

(** Rounding to [ndigits] decimals keeps a value inside an interval whose
    ends are integers. *)
Lemma round_ndigits_between (x : R) (ndigits : nat) (lo hi : Z) :
  IZR lo <= x <= IZR hi ->
  IZR lo <= round_ndigits x ndigits <= IZR hi.
Proof.
  intros [Hlo Hhi]. unfold round_ndigits.
  pose proof (pow10_pos ndigits) as Hp.
  assert (L : (lo * 10 ^ Z.of_nat ndigits <= round_half_even (x * 10 ^ ndigits))%Z).
  { apply round_half_even_lower. rewrite mult_IZR, <- pow10_IZR. nra. }
  assert (U : (round_half_even (x * 10 ^ ndigits) <= hi * 10 ^ Z.of_nat ndigits)%Z).
  { apply round_half_even_upper. rewrite mult_IZR, <- pow10_IZR. nra. }
  apply IZR_le in L, U. rewrite mult_IZR, <- pow10_IZR in L, U.
  split.
  - apply Rmult_le_reg_r with (10 ^ ndigits); [exact Hp|].
    unfold Rdiv. rewrite Rmult_assoc, Rinv_l by lra. lra.
  - apply Rmult_le_reg_r with (10 ^ ndigits); [exact Hp|].
    unfold Rdiv. rewrite Rmult_assoc, Rinv_l by lra. lra.
Qed.

(** ** [angle_vectors] *)

Lemma result_eq_dec_zero (m : result R) : {m = Ok 0} + {m <> Ok 0}.
Proof.
  destruct m as [a|e].
  - destruct (Req_dec_T a 0) as [->|H]; [now left|right; congruence].
  - right. discriminate.
Qed.

Lemma cosine_in_range (v w : tuple) :
  sum (squares v) <> 0 -> sum (squares w) <> 0 ->
  sqrt (sum (squares v)) * sqrt (sum (squares w)) <> 0 /\
  -1 <= sum (products v w) / (sqrt (sum (squares v)) * sqrt (sum (squares w))) <= 1.
Proof.
  intros Hv Hw.
  pose proof (sum_squares_nonneg v) as Av. pose proof (sum_squares_nonneg w) as Aw.
  assert (Pv : 0 < sqrt (sum (squares v))) by (apply sqrt_lt_R0; lra).
  assert (Pw : 0 < sqrt (sum (squares w))) by (apply sqrt_lt_R0; lra).
  set (m := sqrt (sum (squares v)) * sqrt (sum (squares w))).
  assert (Pm : 0 < m) by (unfold m; nra).
  assert (Hm : m * m = sum (squares v) * sum (squares w)).
  { unfold m.
    replace (sqrt (sum (squares v)) * sqrt (sum (squares w)) *
             (sqrt (sum (squares v)) * sqrt (sum (squares w))))
      with ((sqrt (sum (squares v)) * sqrt (sum (squares v))) *
            (sqrt (sum (squares w)) * sqrt (sum (squares w)))) by ring.
    rewrite !sqrt_sqrt by assumption. reflexivity. }
  pose proof (cauchy_schwarz v w) as CS. rewrite <- Hm in CS.
  split; [lra|].
  assert (Hd : - m <= sum (products v w) <= m) by (split; nra).
  split.
  - apply Rmult_le_reg_r with m; [exact Pm|].
    unfold Rdiv. rewrite Rmult_assoc, Rinv_l by lra. lra.
  - apply Rmult_le_reg_r with m; [exact Pm|].
    unfold Rdiv. rewrite Rmult_assoc, Rinv_l by lra. lra.
Qed.

Lemma math_acos_in_range (x : R) : -1 <= x <= 1 -> math_acos x = Ok (acos x).
Proof.
  intros H. unfold math_acos.
  destruct (Rlt_dec x (-1)); [lra|]. destruct (Rlt_dec 1 x); [lra|]. reflexivity.
Qed.

Lemma math_acos_out_of_range (x : R) :
  x < -1 \/ 1 < x -> math_acos x = Raise (ValueError "math domain error").
Proof.
  intros H. unfold math_acos.
  destruct (Rlt_dec x (-1)); [reflexivity|].
  destruct (Rlt_dec 1 x); [reflexivity|]. lra.
Qed.

Lemma angle_vectors_length_mismatch (v w : tuple) :
  length v <> length w ->
  angle_vectors v w = Raise (ValueError "Vectors must have the same length").
Proof.
  intros H. unfold angle_vectors.
  apply Nat.eqb_neq in H. rewrite H. reflexivity.
Qed.

Lemma angle_vectors_zero_magnitude (v w : tuple) :
  length v = length w ->
  magnitude v = Ok 0 \/ magnitude w = Ok 0 ->
  angle_vectors v w = Ok 0.
Proof.
  intros Hl H. unfold angle_vectors. rewrite Hl, Nat.eqb_refl. simpl.
  rewrite (magnitude_eq v), (magnitude_eq w) in *. rewrite !bind_Ok.
  destruct (Req_dec_T (sqrt (sum (squares v))) 0) as [E|E]; [reflexivity|].
  destruct (Req_dec_T (sqrt (sum (squares w))) 0) as [E'|E']; [reflexivity|].
  destruct H as [[= H]|[= H]]; contradiction.
Qed.

Lemma angle_vectors_nonzero_magnitude (v w : tuple) :
  length v = length w ->
  magnitude v <> Ok 0 -> magnitude w <> Ok 0 ->
  angle_vectors v w =
  math_acos (round_ndigits
               (sum (products v w) /
                (sqrt (sum (squares v)) * sqrt (sum (squares w)))) 5).
Proof.
  intros Hl Hv Hw. unfold angle_vectors. rewrite Hl, Nat.eqb_refl. simpl.
  rewrite dot_product_eq by exact Hl.
  rewrite (magnitude_eq v), (magnitude_eq w) in *. rewrite !bind_Ok.
  destruct (Req_dec_T (sqrt (sum (squares v))) 0) as [E|E];
    [rewrite E in Hv; contradiction|].
  destruct (Req_dec_T (sqrt (sum (squares w))) 0) as [E'|E'];
    [rewrite E' in Hw; contradiction|].
  unfold truediv.
  destruct (Req_dec_T _ 0) as [Z|Z]; [|reflexivity].
  apply Rmult_integral in Z. tauto.
Qed.

Lemma magnitude_nonzero_squares (v : tuple) :
  magnitude v <> Ok 0 -> sum (squares v) <> 0.
Proof.
  intros H E. apply H. now apply magnitude_zero_iff.
Qed.

Lemma acos_argument_in_range (v w : tuple) :
  magnitude v <> Ok 0 -> magnitude w <> Ok 0 ->
  -1 <= round_ndigits
          (sum (products v w) /
           (sqrt (sum (squares v)) * sqrt (sum (squares w)))) 5 <= 1.
Proof.
  intros Hv Hw.
  apply (round_ndigits_between _ 5 (-1) 1).
  apply cosine_in_range; apply magnitude_nonzero_squares; assumption.
Qed.

(** On vectors of one length [angle_vectors] returns an angle of [[0, PI]]. *)
Lemma angle_vectors_bound (v w : tuple) :
  length v = length w ->
  exists a, angle_vectors v w = Ok a /\ 0 <= a <= PI.
Proof.
  intros Hl.
  destruct (result_eq_dec_zero (magnitude v)) as [Hv|Hv].
  - exists 0. split; [apply angle_vectors_zero_magnitude; auto|].
    pose proof PI_RGT_0. lra.
  - destruct (result_eq_dec_zero (magnitude w)) as [Hw|Hw].
    + exists 0. split; [apply angle_vectors_zero_magnitude; auto|].
      pose proof PI_RGT_0. lra.
    + rewrite angle_vectors_nonzero_magnitude by assumption.
      rewrite math_acos_in_range by (apply acos_argument_in_range; assumption).
      eexists. split; [reflexivity|]. apply acos_bound.
Qed.

(** ** [to_vector] *)

Lemma to_vector_valid (lat long : R) :
  valid_latitude lat -> valid_longitude long ->
  to_vector lat long = Ok (sphere_point lat long).
Proof.
  unfold valid_latitude, valid_longitude, to_vector. intros Hlat Hlong.
  destruct (Rlt_dec lat (-90)); [lra|]. destruct (Rlt_dec 90 lat); [lra|].
  destruct (Rlt_dec long (-180)); [lra|]. destruct (Rlt_dec 180 long); [lra|].
  reflexivity.
Qed.

Lemma to_vector_invalid (lat long : R) :
  ~ (valid_latitude lat /\ valid_longitude long) ->
  exists e, to_vector lat long = Raise e /\ out_of_range_error e.
Proof.
  unfold valid_latitude, valid_longitude, to_vector, out_of_range_error. intros H.
  destruct (Rlt_dec lat (-90)); [eauto|]. destruct (Rlt_dec 90 lat); [eauto|].
  destruct (Rlt_dec long (-180)); [eauto|]. destruct (Rlt_dec 180 long); [eauto|].
  exfalso. apply H. lra.
Qed.

Lemma R_km_pos : 0 < R_km.
Proof. unfold R_km. lra. Qed.

Lemma sum3 (x y z : R) : sum [x; y; z] = x + y + z.
Proof. rewrite !sum_cons, sum_nil. ring. Qed.

Lemma magnitude3 (x y z : R) :
  magnitude [x; y; z] = Ok (sqrt (x ^ 2 + y ^ 2 + z ^ 2)).
Proof. rewrite magnitude_eq. unfold squares. simpl map. now rewrite sum3. Qed.

Lemma sin2_cos2_pow (x : R) : sin x ^ 2 + cos x ^ 2 = 1.
Proof. pose proof (sin2_cos2 x) as H. unfold Rsqr in H. lra. Qed.

Lemma magnitude_sphere_point (lat long : R) :
  magnitude (sphere_point lat long) = Ok R_km.
Proof.
  unfold sphere_point. rewrite magnitude3. f_equal.
  set (a := math_radians lat). set (b := math_radians long).
  replace ((R_km * cos a * cos b) ^ 2 + (R_km * cos a * sin b) ^ 2 +
           (R_km * sin a) ^ 2)
    with (R_km ^ 2 * (cos a ^ 2 * (sin b ^ 2 + cos b ^ 2) + sin a ^ 2)) by ring.
  rewrite sin2_cos2_pow, Rmult_1_r, (Rplus_comm (cos a ^ 2)), sin2_cos2_pow, Rmult_1_r.
  replace (R_km ^ 2) with (R_km * R_km) by ring.
  apply sqrt_square. pose proof R_km_pos. lra.
Qed.

(** ** [cardinal_from_angle] *)

Lemma getitem_cardinals (i : Z) :
  (0 <= i <= 8)%Z ->
  getitem cardinals i = Ok (nth (Z.to_nat i) cardinals ""%string).
Proof.
  intros H.
  assert (C : (i = 0 \/ i = 1 \/ i = 2 \/ i = 3 \/ i = 4 \/ i = 5 \/ i = 6 \/
               i = 7 \/ i = 8)%Z) by lia.
  repeat (destruct C as [->|C]; [reflexivity|]). subst i. reflexivity.
Qed.

Lemma getitem_cardinals_negative (i : Z) :
  (-9 <= i < 0)%Z ->
  getitem cardinals i = Ok (nth (Z.to_nat (i + 9)) cardinals ""%string).
Proof.
  intros H.
  assert (C : (i = -9 \/ i = -8 \/ i = -7 \/ i = -6 \/ i = -5 \/ i = -4 \/
               i = -3 \/ i = -2 \/ i = -1)%Z) by lia.
  repeat (destruct C as [->|C]; [reflexivity|]). subst i. reflexivity.
Qed.

Lemma getitem_cardinals_out (i : Z) :
  (i < -9 \/ 8 < i)%Z ->
  getitem cardinals i = Raise (IndexError "list index out of range").
Proof.
  intros H. unfold getitem. simpl length.
  destruct (i <? 0)%Z eqn:Hneg.
  - apply Z.ltb_lt in Hneg.
    assert (E : (i + Z.of_nat 9 <? 0)%Z = true) by (apply Z.ltb_lt; lia).
    rewrite E. reflexivity.
  - apply Z.ltb_ge in Hneg.
    assert (E : (Z.of_nat 9 <=? i)%Z = true) by (apply Z.leb_le; lia).
    rewrite E, orb_true_r. reflexivity.
Qed.

Lemma getitem_cardinals_returns (i : Z) :
  returns (getitem cardinals i) <-> (-9 <= i <= 8)%Z.
Proof.
  split.
  - intros [s Hs].
    destruct (Z_lt_dec i (-9)) as [L|L];
      [rewrite getitem_cardinals_out in Hs by lia; discriminate|].
    destruct (Z_lt_dec 8 i) as [U|U];
      [rewrite getitem_cardinals_out in Hs by lia; discriminate|].
    lia.
  - intros H. destruct (Z_lt_dec i 0).
    + rewrite getitem_cardinals_negative by lia. apply returns_Ok.
    + rewrite getitem_cardinals by lia. apply returns_Ok.
Qed.

(** The index [round(angle / 45)] for an angle of [[0, 360]]. *)
Lemma cardinal_index_in_range (angle : R) :
  0 <= angle <= 360 -> (0 <= round_half_even (angle / 45) <= 8)%Z.
Proof.
  intros H. split.
  - apply round_half_even_lower. lra.
  - apply round_half_even_upper. lra.
Qed.

Lemma cardinal_index_cases (angle : R) :
  let i := round_half_even (angle / 45) in
  (angle <= -427.5 -> (i < -9)%Z) /\
  (382.5 < angle -> (8 < i)%Z) /\
  (-427.5 < angle <= 382.5 -> (-9 <= i <= 8)%Z).
Proof.
  intros i. destruct (round_half_even_spec (angle / 45)) as [Hr He].
  fold i in Hr, He.
  repeat split.
  - intros H.
    assert (L : IZR i < IZR (-8)) by lra. apply lt_IZR in L.
    destruct (Z.eq_dec i (-9)) as [E|E]; [|lia].
    exfalso. rewrite E in *. assert (T : Z.even (-9) = true) by (apply He; lra).
    discriminate.
  - intros H.
    assert (L : IZR 8 < IZR i) by lra. apply lt_IZR in L. lia.
  - assert (L : IZR (-10) < IZR i) by lra. apply lt_IZR in L. lia.
  - destruct H as [H1 H2].
    assert (L : IZR i < IZR 10) by lra. apply lt_IZR in L.
    destruct (Z.eq_dec i 9) as [E|E]; [|lia].
    exfalso. rewrite E in *. assert (T : Z.even 9 = true) by (apply He; lra).
    discriminate.
Qed.

(** C8.  For every angle of [[0, 360]], [cardinal_from_angle] is the element
    at index [round(angle / 45)] of the sequence N, NE, E, SE, S, SW, W, NW, N,
    an index between 0 and 8; and 0, 90, 270 and 315 degrees are N, E, W
    and NW. *)
Theorem cardinal_from_angle_table :
  (forall angle : R, 0 <= angle <= 360 ->
     (0 <= round_half_even (angle / 45) <= 8)%Z /\
     cardinal_from_angle angle =
     Ok (nth (Z.to_nat (round_half_even (angle / 45)))
             ["N"; "NE"; "E"; "SE"; "S"; "SW"; "W"; "NW"; "N"]%string
             ""%string)) /\
  cardinal_from_angle 0 = Ok "N"%string /\
  cardinal_from_angle 90 = Ok "E"%string /\
  cardinal_from_angle 270 = Ok "W"%string /\
  cardinal_from_angle 315 = Ok "NW"%string.
Proof.
  assert (G : forall angle : R, 0 <= angle <= 360 ->
     (0 <= round_half_even (angle / 45) <= 8)%Z /\
     cardinal_from_angle angle =
     Ok (nth (Z.to_nat (round_half_even (angle / 45))) cardinals ""%string)).
  { intros angle H. pose proof (cardinal_index_in_range angle H) as Hi.
    split; [exact Hi|]. unfold cardinal_from_angle.
    now apply getitem_cardinals. }
  split; [exact G|].
  assert (V : forall (angle : R) (i : Z), 0 <= angle <= 360 ->
            angle / 45 = IZR i ->
            cardinal_from_angle angle = Ok (nth (Z.to_nat i) cardinals ""%string)).
  { intros angle i H E. destruct (G angle H) as [_ ->].
    rewrite E, round_half_even_IZR. reflexivity. }
  repeat split.
  - apply (V 0 0%Z); lra.
  - apply (V 90 2%Z); lra.
  - apply (V 270 6%Z); lra.
  - apply (V 315 7%Z); lra.
Qed.

Lemma cardinal_from_angle_table_witness :
  0 <= 135 <= 360 /\ cardinal_from_angle 135 = Ok "SE"%string.
Proof.
  split; [lra|].
  destruct (proj1 cardinal_from_angle_table 135 ltac:(lra)) as [_ ->].
  replace (135 / 45) with (IZR 3) by lra.
  rewrite round_half_even_IZR. reflexivity.
Defined.

(** C10.  For every angle strictly between -22.5 and 0 the index
    [round(angle / 45)] is 0 and [cardinal_from_angle] returns N: an input
    outside [[0, 360]] that gets a label and no error. *)
Theorem cardinal_from_angle_small_negative (angle : R) :
  -22.5 < angle < 0 ->
  round_half_even (angle / 45) = 0%Z /\
  cardinal_from_angle angle = Ok "N"%string.
Proof.
  intros H.
  assert (E : round_half_even (angle / 45) = 0%Z)
    by (apply round_half_even_near; lra).
  split; [exact E|]. unfold cardinal_from_angle. rewrite E. reflexivity.
Qed.

Lemma cardinal_from_angle_small_negative_witness :
  -22.5 < -10 < 0 /\ cardinal_from_angle (-10) = Ok "N"%string.
Proof.
  split; [lra|]. apply (cardinal_from_angle_small_negative (-10)). lra.
Defined.

(** C2 fails as stated: 370 degrees is outside [[0, 360]], and
    [round(370 / 45)] is 8, the index of the closing N of the table. *)
Lemma cardinal_from_angle_370 :
  (370 < 0 \/ 360 < 370) /\ cardinal_from_angle 370 = Ok "N"%string.
Proof.
  split; [lra|]. unfold cardinal_from_angle.
  replace (round_half_even (370 / 45)) with 8%Z; [reflexivity|].
  symmetry. apply round_half_even_near. lra.
Qed.

(** C2, amended.  [cardinal_from_angle] raises [IndexError] exactly when
    [angle <= -427.5] or [angle > 382.5], that is when [round(angle / 45)]
    is below -9 or above 8; for every other angle it returns a label
    (a negative index counts from the end of the table). *)
Theorem cardinal_from_angle_fails_iff (angle : R) :
  (cardinal_from_angle angle = Raise (IndexError "list index out of range") <->
   angle <= -427.5 \/ 382.5 < angle) /\
  (returns (cardinal_from_angle angle) <-> -427.5 < angle <= 382.5).
Proof.
  destruct (cardinal_index_cases angle) as (Hlo & Hhi & Hmid).
  unfold cardinal_from_angle.
  assert (D : angle <= -427.5 \/ 382.5 < angle \/ -427.5 < angle <= 382.5) by lra.
  destruct D as [D|[D|D]].
  - specialize (Hlo D). rewrite getitem_cardinals_out by lia.
    split; [split; [lra|reflexivity]|].
    split; [intros [s Hs]; discriminate | lra].
  - specialize (Hhi D). rewrite getitem_cardinals_out by lia.
    split; [split; [lra|reflexivity]|].
    split; [intros [s Hs]; discriminate | lra].
  - specialize (Hmid D).
    pose proof (proj2 (getitem_cardinals_returns _) Hmid) as [s Hs].
    rewrite Hs. split.
    + split; [discriminate | lra].
    + split; [lra | intros _; apply returns_Ok].
Qed.

(** C5.  [to_vector] raises an out-of-range [ValueError] if and only if the
    latitude is outside [[-90, 90]] or the longitude outside [[-180, 180]];
    inside both ranges, ends included, it returns a vector. *)
Theorem to_vector_raises_iff (lat long : R) :
  ((exists e, to_vector lat long = Raise e /\ out_of_range_error e) <->
   (lat < -90 \/ 90 < lat) \/ (long < -180 \/ 180 < long)) /\
  (raises (to_vector lat long) <->
   (lat < -90 \/ 90 < lat) \/ (long < -180 \/ 180 < long)) /\
  (-90 <= lat <= 90 -> -180 <= long <= 180 ->
   exists x y z, to_vector lat long = Ok [x; y; z]).
Proof.
  assert (D : (valid_latitude lat /\ valid_longitude long) \/
              ~ (valid_latitude lat /\ valid_longitude long)).
  { unfold valid_latitude, valid_longitude.
    destruct (Rlt_dec lat (-90)); [right; lra|].
    destruct (Rlt_dec 90 lat); [right; lra|].
    destruct (Rlt_dec long (-180)); [right; lra|].
    destruct (Rlt_dec 180 long); [right; lra|]. left. lra. }
  destruct D as [[Hlat Hlong]|H].
  - rewrite (to_vector_valid lat long Hlat Hlong).
    unfold valid_latitude, valid_longitude in *.
    split; [|split].
    + split; [intros (e & He & _); discriminate | lra].
    + split; [intros (e & He); discriminate | lra].
    + intros _ _. unfold sphere_point. eauto.
  - destruct (to_vector_invalid lat long H) as (e & He & Hr).
    unfold valid_latitude, valid_longitude in H.
    split; [|split].
    + split; [intros _; lra | intros _; eauto].
    + split; [intros _; lra | intros _; rewrite He; apply raises_Raise].
    + intros H1 H2. exfalso. apply H. lra.
Qed.

Lemma to_vector_raises_iff_witness :
  exists x y z, to_vector 90 (-180) = Ok [x; y; z].
Proof.
  apply (proj2 (proj2 (to_vector_raises_iff 90 (-180)))); lra.
Defined.

(** C6.  For every valid coordinate the vector [to_vector] returns has
    magnitude exactly [R = 6371] (over the reals). *)
Theorem magnitude_to_vector (lat long : R) :
  -90 <= lat <= 90 -> -180 <= long <= 180 ->
  exists v, to_vector lat long = Ok v /\ magnitude v = Ok 6371.
Proof.
  intros Hlat Hlong. exists (sphere_point lat long). split.
  - now apply to_vector_valid.
  - apply magnitude_sphere_point.
Qed.

Lemma magnitude_to_vector_witness :
  exists v, to_vector 15 (-28) = Ok v /\ magnitude v = Ok 6371.
Proof.
  apply (magnitude_to_vector 15 (-28)); lra.
Defined.

(** ** Directions and bearings *)

Lemma cross_product_cross (v w : tuple) :
  length v = 3%nat -> length w = 3%nat -> cross_product v w = Ok (cross v w).
Proof.
  intros Hv Hw. unfold cross_product. rewrite Hv, Hw. reflexivity.
Qed.

Lemma cross_product_raises (v w : tuple) :
  length v <> 3%nat \/ length w <> 3%nat ->
  cross_product v w = Raise (ValueError "Vectors must have a length of 3").
Proof.
  intros H. unfold cross_product.
  destruct (Nat.eqb_spec (length v) 3) as [Ev|Ev]; simpl; [|reflexivity].
  destruct (Nat.eqb_spec (length w) 3) as [Ew|Ew]; simpl; [|reflexivity].
  tauto.
Qed.

Lemma length_cross (v w : tuple) : length (cross v w) = 3%nat.
Proof. reflexivity. Qed.

Lemma length_sphere_point (lat long : R) : length (sphere_point lat long) = 3%nat.
Proof. reflexivity. Qed.

Lemma length_direction_vector (lat1 long1 lat2 long2 : R) :
  length (direction_vector lat1 long1 lat2 long2) = 3%nat.
Proof.
  unfold direction_vector. destruct (Rlt_dec _ 1); reflexivity.
Qed.

(** Runs the calls that cannot fail on tuples of length 3. *)
Ltac run_cross :=
  repeat first
    [ rewrite bind_Ok
    | rewrite (cross_product_cross (sphere_point _ _) (sphere_point _ _))
        by reflexivity
    | rewrite (cross_product_cross (sphere_point _ _) [0; 0; 1]) by reflexivity
    | rewrite (cross_product_cross (cross _ _) (sphere_point _ _)) by reflexivity ].

Section ValidCoordinates.

Variables lat1 long1 lat2 long2 : R.
Hypothesis Hlat1 : valid_latitude lat1.
Hypothesis Hlong1 : valid_longitude long1.
Hypothesis Hlat2 : valid_latitude lat2.
Hypothesis Hlong2 : valid_longitude long2.

Lemma direction_between_coordinates_valid :
  direction_between_coordinates lat1 long1 lat2 long2 =
  Ok (direction_vector lat1 long1 lat2 long2).
Proof.
  unfold direction_between_coordinates, direction_vector.
  rewrite (to_vector_valid lat1 long1 Hlat1 Hlong1).
  rewrite (to_vector_valid lat2 long2 Hlat2 Hlong2).
  run_cross. rewrite magnitude_eq, bind_Ok.
  fold (tangent (sphere_point lat1 long1) (sphere_point lat2 long2)).
  destruct (Rlt_dec _ 1); [|reflexivity].
  run_cross. reflexivity.
Qed.

Lemma unsigned_bearing_valid :
  unsigned_bearing lat1 long1 lat2 long2 =
  a <- angle_vectors (direction_vector lat1 long1 lat2 long2)
                     (tangent (sphere_point lat1 long1) [0; 0; 1]) ;;
  Ok (math_degrees a).
Proof.
  unfold unsigned_bearing.
  rewrite (to_vector_valid lat1 long1 Hlat1 Hlong1). run_cross.
  rewrite direction_between_coordinates_valid, bind_Ok. reflexivity.
Qed.

Lemma bearing_between_coordinates_valid :
  bearing_between_coordinates lat1 long1 lat2 long2 =
  a <- angle_vectors (direction_vector lat1 long1 lat2 long2)
                     (tangent (sphere_point lat1 long1) [0; 0; 1]) ;;
  if Rlt_dec long2 long1 then Ok (360 - math_degrees a) else Ok (math_degrees a).
Proof.
  unfold bearing_between_coordinates.
  rewrite (to_vector_valid lat1 long1 Hlat1 Hlong1). run_cross.
  rewrite direction_between_coordinates_valid, bind_Ok. reflexivity.
Qed.

End ValidCoordinates.

Lemma math_degrees_bound (a : R) : 0 <= a <= PI -> 0 <= math_degrees a <= 180.
Proof.
  intros [H0 H1]. unfold math_degrees. pose proof PI_RGT_0 as Hpi.
  assert (Hk : 0 < 180 / PI) by (apply Rdiv_lt_0_compat; lra).
  split; [nra|].
  replace 180 with (PI * (180 / PI)) at 2 by (field; lra).
  apply Rmult_le_compat_r; lra.
Qed.

(** On valid coordinates the angle between the direction and the local
    north is defined and lies in [[0, PI]]. *)
Lemma bearing_angle_bound (lat1 long1 lat2 long2 : R) :
  exists a,
    angle_vectors (direction_vector lat1 long1 lat2 long2)
                  (tangent (sphere_point lat1 long1) [0; 0; 1]) = Ok a /\
    0 <= a <= PI.
Proof.
  apply angle_vectors_bound. now rewrite length_direction_vector.
Qed.

(** ** Coordinates with known sines and cosines *)

Lemma math_radians_0 : math_radians 0 = 0.
Proof. unfold math_radians. ring. Qed.

Lemma math_radians_90 : math_radians 90 = PI / 2.
Proof. unfold math_radians. field. Qed.

Lemma math_radians_neg90 : math_radians (-90) = - (PI / 2).
Proof. unfold math_radians. field. Qed.

Lemma math_radians_45 : math_radians 45 = PI / 4.
Proof. unfold math_radians. field. Qed.

Lemma math_degrees_0 : math_degrees 0 = 0.
Proof. unfold math_degrees. ring. Qed.

Ltac vec_ring :=
  unfold tangent, cross; cbn [nth];
  repeat (apply f_equal2; [ring|]); reflexivity.

Lemma sphere_point_north_pole (long : R) : sphere_point 90 long = [0; 0; R_km].
Proof.
  unfold sphere_point. rewrite math_radians_90, cos_PI2, sin_PI2. vec_ring.
Qed.

Lemma sphere_point_south_pole (long : R) : sphere_point (-90) long = [0; 0; - R_km].
Proof.
  unfold sphere_point.
  rewrite math_radians_neg90, cos_neg, sin_neg, cos_PI2, sin_PI2. vec_ring.
Qed.

Lemma sphere_point_0_90 : sphere_point 0 90 = [0; R_km; 0].
Proof.
  unfold sphere_point.
  rewrite math_radians_0, math_radians_90, cos_0, sin_0, cos_PI2, sin_PI2. vec_ring.
Qed.

Lemma sphere_point_0_0 : sphere_point 0 0 = [R_km; 0; 0].
Proof.
  unfold sphere_point. rewrite math_radians_0, cos_0, sin_0. vec_ring.
Qed.

Lemma tangent_axis_pole (z : R) : tangent [0; 0; z] [0; 0; 1] = [0; 0; 0].
Proof. vec_ring. Qed.

Lemma magnitude_zero_vector : magnitude [0; 0; 0] = Ok 0.
Proof.
  rewrite magnitude3. f_equal.
  replace (0 ^ 2 + 0 ^ 2 + 0 ^ 2) with 0 by ring. apply sqrt_0.
Qed.

Lemma round_ndigits_IZR (n : Z) (ndigits : nat) :
  round_ndigits (IZR n) ndigits = IZR n.
Proof.
  unfold round_ndigits. pose proof (pow10_pos ndigits).
  rewrite pow10_IZR, <- mult_IZR, round_half_even_IZR, mult_IZR.
  field. rewrite <- pow10_IZR. lra.
Qed.

(** Two vectors along the positive z axis make the angle 0. *)
Lemma angle_vectors_z_axis (a b : R) :
  0 < a -> 0 < b -> angle_vectors [0; 0; a] [0; 0; b] = Ok 0.
Proof.
  intros Ha Hb.
  assert (Sa : sum (squares [0; 0; a]) = a * a)
    by (unfold squares; simpl map; rewrite sum3; ring).
  assert (Sb : sum (squares [0; 0; b]) = b * b)
    by (unfold squares; simpl map; rewrite sum3; ring).
  assert (Ma : magnitude [0; 0; a] <> Ok 0).
  { rewrite magnitude_eq, Sa, sqrt_square by lra. intros [= E]. lra. }
  assert (Mb : magnitude [0; 0; b] <> Ok 0).
  { rewrite magnitude_eq, Sb, sqrt_square by lra. intros [= E]. lra. }
  rewrite angle_vectors_nonzero_magnitude by (reflexivity || assumption).
  rewrite Sa, Sb, !sqrt_square by lra.
  replace (sum (products [0; 0; a] [0; 0; b])) with (a * b)
    by (unfold products; simpl map; rewrite sum3; simpl; ring).
  replace (a * b / (a * b)) with (IZR 1) by (field; lra).
  rewrite round_ndigits_IZR, math_acos_in_range by lra.
  now rewrite acos_1.
Qed.

(** Over the reals [cos (PI / 2)] is 0: from a pole the north tangent
    [cross(cross(v, (0,0,1)), v)] is the zero vector, the unsigned bearing is
    0 by the zero-magnitude convention of [angle_vectors], and the bearing to
    every valid target is 0 when [long2 >= long1] and 360 when
    [long2 < long1].  The floats differ: see the section on the poles below. *)
Lemma bearing_from_pole_exact (lat1 long1 lat2 long2 : R) :
  lat1 = 90 \/ lat1 = -90 ->
  -180 <= long1 <= 180 -> -90 <= lat2 <= 90 -> -180 <= long2 <= 180 ->
  (exists v n, to_vector lat1 long1 = Ok v /\
               cross_product v [0; 0; 1] = Ok n /\
               cross_product n v = Ok [0; 0; 0]) /\
  unsigned_bearing lat1 long1 lat2 long2 = Ok 0 /\
  (long1 <= long2 -> bearing_between_coordinates lat1 long1 lat2 long2 = Ok 0) /\
  (long2 < long1 -> bearing_between_coordinates lat1 long1 lat2 long2 = Ok 360).
Proof.
  intros Hpole Hlong1 Hlat2 Hlong2.
  assert (Hlat1 : valid_latitude lat1) by (unfold valid_latitude; lra).
  assert (Hv : exists z, sphere_point lat1 long1 = [0; 0; z]).
  { destruct Hpole as [-> | ->].
    - exists R_km. apply sphere_point_north_pole.
    - exists (- R_km). apply sphere_point_south_pole. }
  destruct Hv as [z Hz].
  assert (Hn : tangent (sphere_point lat1 long1) [0; 0; 1] = [0; 0; 0])
    by (rewrite Hz; apply tangent_axis_pole).
  assert (Ha : angle_vectors (direction_vector lat1 long1 lat2 long2)
                             (tangent (sphere_point lat1 long1) [0; 0; 1]) = Ok 0).
  { rewrite Hn. apply angle_vectors_zero_magnitude.
    - now rewrite length_direction_vector.
    - right. apply magnitude_zero_vector. }
  split; [|split; [|split]].
  - exists (sphere_point lat1 long1), (cross (sphere_point lat1 long1) [0; 0; 1]).
    split; [now apply to_vector_valid|].
    split; [now apply cross_product_cross|].
    rewrite cross_product_cross by reflexivity. f_equal. exact Hn.
  - rewrite unsigned_bearing_valid by assumption.
    rewrite Ha, bind_Ok, math_degrees_0. reflexivity.
  - intros Hle. rewrite bearing_between_coordinates_valid by assumption.
    rewrite Ha, bind_Ok, math_degrees_0.
    destruct (Rlt_dec long2 long1); [lra|reflexivity].
  - intros Hlt. rewrite bearing_between_coordinates_valid by assumption.
    rewrite Ha, bind_Ok, math_degrees_0.
    destruct (Rlt_dec long2 long1); [|lra]. f_equal. ring.
Qed.

Lemma direction_vector_0_90_90_0 :
  direction_vector 0 90 90 0 = [0; 0; R_km * R_km * R_km].
Proof.
  unfold direction_vector.
  rewrite sphere_point_0_90, sphere_point_north_pole.
  assert (T : tangent [0; R_km; 0] [0; 0; R_km] = [0; 0; R_km * R_km * R_km])
    by vec_ring.
  rewrite T. pose proof R_km_pos as Hr.
  assert (S : sum (squares [0; 0; R_km * R_km * R_km]) =
              (R_km * R_km * R_km) * (R_km * R_km * R_km))
    by (unfold squares; simpl map; rewrite sum3; ring).
  rewrite S, sqrt_square by nra.
  destruct (Rlt_dec (R_km * R_km * R_km) 1) as [H|H]; [|reflexivity].
  exfalso. unfold R_km in H. lra.
Qed.

(** C1 fails as stated: from (0, 90) to the north pole (90, 0) the direction
    is due north, the unsigned bearing is 0, and since [long2 < long1] the
    function returns [360 - 0 = 360], outside [[0, 360)]. *)
Lemma bearing_0_90_90_0 :
  (-90 <= 0 <= 90 /\ -180 <= 90 <= 180 /\ -90 <= 90 <= 90 /\ -180 <= 0 <= 180) /\
  bearing_between_coordinates 0 90 90 0 = Ok 360 /\
  ~ (0 <= 360 < 360).
Proof.
  split; [lra|]. split; [|intros [_ H]; lra].
  rewrite bearing_between_coordinates_valid
    by (unfold valid_latitude, valid_longitude; lra).
  rewrite direction_vector_0_90_90_0, sphere_point_0_90.
  assert (N : tangent [0; R_km; 0] [0; 0; 1] = [0; 0; R_km * R_km]) by vec_ring.
  rewrite N. pose proof R_km_pos as Hr.
  rewrite angle_vectors_z_axis by (repeat apply Rmult_lt_0_compat; exact Hr).
  rewrite bind_Ok, math_degrees_0.
  destruct (Rlt_dec 0 90); [|lra]. f_equal. ring.
Qed.

(** C1, amended.  For every valid input [bearing_between_coordinates] returns
    a value of the closed interval [[0, 360]]: the end 360 is reached. *)
Theorem bearing_in_closed_range (lat1 long1 lat2 long2 : R) :
  -90 <= lat1 <= 90 -> -180 <= long1 <= 180 ->
  -90 <= lat2 <= 90 -> -180 <= long2 <= 180 ->
  exists b, bearing_between_coordinates lat1 long1 lat2 long2 = Ok b /\
            0 <= b <= 360.
Proof.
  intros H1 H2 H3 H4.
  rewrite bearing_between_coordinates_valid by assumption.
  destruct (bearing_angle_bound lat1 long1 lat2 long2) as (a & -> & Ha).
  rewrite bind_Ok. pose proof (math_degrees_bound a Ha) as Hd.
  destruct (Rlt_dec long2 long1); eexists; (split; [reflexivity|lra]).
Qed.

Lemma bearing_in_closed_range_witness :
  exists b, bearing_between_coordinates 45 0 45 90 = Ok b /\ 0 <= b <= 360.
Proof.
  apply (bearing_in_closed_range 45 0 45 90); lra.
Defined.

(** ** The bearing as section 4.5 of the specification words it *)

Lemma bearing_refines_section_4_5 (lat1 long1 lat2 long2 : R) :
  bearing_between_coordinates lat1 long1 lat2 long2 =
  bearing_section_4_5 lat1 long1 lat2 long2.
Proof.
  unfold bearing_between_coordinates, bearing_section_4_5, unsigned_bearing.
  destruct (to_vector lat1 long1) as [v|e]; [|reflexivity]. rewrite !bind_Ok.
  destruct (cross_product v [0; 0; 1]) as [n|e]; [|reflexivity]. rewrite !bind_Ok.
  destruct (cross_product n v) as [north|e]; [|reflexivity]. rewrite !bind_Ok.
  destruct (direction_between_coordinates lat1 long1 lat2 long2) as [w|e];
    [|reflexivity].
  rewrite !bind_Ok.
  destruct (angle_vectors w north) as [a|e]; [|reflexivity]. rewrite !bind_Ok.
  destruct (Rlt_dec long2 long1); reflexivity.
Qed.

(** *** Numerical bounds *)

Lemma PI_bounds : 3.14159265 < PI < 3.14159266.
Proof.
  pose proof (PI_2_3_7_ineq 4) as [L U].
  unfold PI_2_3_7_tg, tg_alt, Ratan_seq in L, U.
  simpl sum_f_R0 in L, U. simpl in L, U.
  split; lra.
Qed.

Lemma INR_fact_S (n : nat) : INR (fact (S n)) = INR (S n) * INR (fact n).
Proof. rewrite fact_simpl, mult_INR. reflexivity. Qed.

Lemma cos_upper_8 (a : R) :
  -2 <= a <= 2 ->
  cos a <= 1 - a ^ 2 / 2 + a ^ 4 / 24 - a ^ 6 / 720 + a ^ 8 / 40320.
Proof.
  intros H. pose proof (pre_cos_bound a 1 ltac:(lra) ltac:(lra)) as [_ U].
  unfold cos_approx in U. cbn [Nat.mul Nat.add sum_f_R0] in U.
  unfold cos_term in U. cbn [Nat.mul Nat.add] in U.
  rewrite !INR_fact_S in U. cbn [fact] in U. rewrite !S_INR in U.
  cbn [INR pow] in U. lra.
Qed.

Lemma cos_lower_10 (a : R) :
  -2 <= a <= 2 ->
  1 - a ^ 2 / 2 + a ^ 4 / 24 - a ^ 6 / 720 + a ^ 8 / 40320 - a ^ 10 / 3628800
  <= cos a.
Proof.
  intros H. pose proof (pre_cos_bound a 2 ltac:(lra) ltac:(lra)) as [L _].
  unfold cos_approx in L. cbn [Nat.mul Nat.add sum_f_R0] in L.
  unfold cos_term in L. cbn [Nat.mul Nat.add] in L.
  rewrite !INR_fact_S in L. cbn [fact] in L. rewrite !S_INR in L.
  cbn [INR pow] in L. lra.
Qed.

Lemma acos_57735_bounds : 0.955307 < acos 0.57735 < 0.9554.
Proof.
  pose proof PI_bounds as [Pl Pu].
  pose proof (acos_bound 0.57735) as Hb.
  assert (Hc : cos (acos 0.57735) = 0.57735) by (apply cos_acos; lra).
  split.
  - apply cos_decreasing_0; try lra.
    rewrite Hc. pose proof (cos_lower_10 0.955307 ltac:(lra)) as L. lra.
  - apply cos_decreasing_0; try lra.
    rewrite Hc. pose proof (cos_upper_8 0.9554 ltac:(lra)) as U. lra.
Qed.

Lemma degrees_acos_57735 :
  54.735 <= math_degrees (acos 0.57735) <= 54.745.
Proof.
  pose proof PI_bounds as [Pl Pu]. pose proof acos_57735_bounds as [Al Au].
  unfold math_degrees.
  assert (Hk : 0 < 180 / PI) by (apply Rdiv_lt_0_compat; lra).
  split.
  - replace 54.735 with ((54.735 * PI / 180) * (180 / PI)) by (field; lra).
    apply Rmult_le_compat_r; lra.
  - replace 54.745 with ((54.745 * PI / 180) * (180 / PI)) by (field; lra).
    apply Rmult_le_compat_r; lra.
Qed.

Lemma square_lt_lt (x y : R) : 0 <= x -> 0 < y -> x * x < y * y -> x < y.
Proof. intros Hx Hy H. nra. Qed.

(** Bounds on a cosine [D / (sqrt A * sqrt B)] from bounds on its square. *)
Lemma quotient_between (D A B lo hi : R) :
  0 < D -> 0 < A -> 0 < B -> 0 <= lo -> 0 < hi ->
  lo * lo * (A * B) < D * D -> D * D < hi * hi * (A * B) ->
  lo < D / (sqrt A * sqrt B) < hi.
Proof.
  intros HD HA HB Hlo Hhi Hl Hu.
  assert (Pa : 0 < sqrt A) by (apply sqrt_lt_R0; lra).
  assert (Pb : 0 < sqrt B) by (apply sqrt_lt_R0; lra).
  set (m := sqrt A * sqrt B).
  assert (Pm : 0 < m) by (unfold m; nra).
  assert (Hm : m * m = A * B).
  { unfold m. replace (sqrt A * sqrt B * (sqrt A * sqrt B))
      with ((sqrt A * sqrt A) * (sqrt B * sqrt B)) by ring.
    rewrite !sqrt_sqrt by lra. reflexivity. }
  assert (L : lo * m < D).
  { apply square_lt_lt; [nra|lra|].
    replace (lo * m * (lo * m)) with (lo * lo * (m * m)) by ring.
    rewrite Hm. exact Hl. }
  assert (U : D < hi * m).
  { apply square_lt_lt; [lra|nra|].
    replace (hi * m * (hi * m)) with (hi * hi * (m * m)) by ring.
    rewrite Hm. exact Hu. }
  split.
  - apply Rmult_lt_reg_r with m; [exact Pm|].
    unfold Rdiv. rewrite Rmult_assoc, Rinv_l by lra. lra.
  - apply Rmult_lt_reg_r with m; [exact Pm|].
    unfold Rdiv. rewrite Rmult_assoc, Rinv_l by lra. lra.
Qed.

(** *** The two sample bearings from latitude 45 *)

Lemma inv_sqrt2_pos : 0 < 1 / sqrt 2.
Proof.
  apply Rdiv_lt_0_compat; [lra|]. apply sqrt_lt_R0. lra.
Qed.

Lemma inv_sqrt2_sq : (1 / sqrt 2) * (1 / sqrt 2) = 1 / 2.
Proof.
  assert (H : sqrt 2 * sqrt 2 = 2) by (apply sqrt_sqrt; lra).
  assert (P : 0 < sqrt 2) by (apply sqrt_lt_R0; lra).
  field_simplify; [|lra]. replace (sqrt 2 ^ 2) with (sqrt 2 * sqrt 2) by ring.
  rewrite H. reflexivity.
Qed.

Lemma k45_pos : 0 < k45.
Proof.
  unfold k45. apply Rmult_lt_0_compat; [apply R_km_pos | apply inv_sqrt2_pos].
Qed.

Lemma k45_sq : 1 <= k45 * k45.
Proof.
  unfold k45.
  replace (R_km * (1 / sqrt 2) * (R_km * (1 / sqrt 2)))
    with (R_km * R_km * ((1 / sqrt 2) * (1 / sqrt 2))) by ring.
  rewrite inv_sqrt2_sq. unfold R_km. lra.
Qed.

Lemma sphere_point_45_0 : sphere_point 45 0 = [k45; 0; k45].
Proof.
  unfold sphere_point, k45.
  rewrite math_radians_45, math_radians_0, cos_PI4, sin_PI4, cos_0, sin_0. vec_ring.
Qed.

Lemma sphere_point_45_90 : sphere_point 45 90 = [0; k45; k45].
Proof.
  unfold sphere_point, k45.
  rewrite math_radians_45, math_radians_90, cos_PI4, sin_PI4, cos_PI2, sin_PI2.
  vec_ring.
Qed.

Lemma sphere_point_45_neg90 : sphere_point 45 (-90) = [0; - k45; k45].
Proof.
  unfold sphere_point, k45.
  rewrite math_radians_45, math_radians_neg90, cos_PI4, sin_PI4.
  rewrite cos_neg, sin_neg, cos_PI2, sin_PI2. vec_ring.
Qed.

Lemma pow6_ge_1 (k : R) : 0 < k -> 1 <= k * k -> 1 <= k * k * k * k * k * k.
Proof.
  intros Hk H.
  assert (H2 : 1 <= (k * k) * (k * k)) by nra.
  assert (H3 : 1 <= (k * k) * ((k * k) * (k * k))) by nra.
  lra.
Qed.

(** The cosine of the angle between the tangent toward a point 90 degrees
    east or west ([s = 1] or [s = -1]) and the local north is [1 / sqrt 3],
    which rounds to [0.57735]. *)
Lemma angle_vectors_45 (k s : R) :
  0 < k -> s * s = 1 ->
  angle_vectors [- (k * k * k); s * (2 * (k * k * k)); k * k * k]
                [- (k * k); 0; k * k] = Ok (acos 0.57735).
Proof.
  intros Hk Hs.
  set (t := [- (k * k * k); s * (2 * (k * k * k)); k * k * k]).
  set (n := [- (k * k); 0; k * k]).
  assert (P2 : 0 < k * k) by nra.
  assert (P3 : 0 < k * k * k) by nra.
  assert (St : sum (squares t) = (4 * (s * s) + 2) * ((k * k * k) * (k * k * k)))
    by (unfold t, squares; simpl map; rewrite sum3; ring).
  rewrite Hs in St.
  assert (Sn : sum (squares n) = 2 * ((k * k) * (k * k)))
    by (unfold n, squares; simpl map; rewrite sum3; ring).
  assert (D : sum (products t n) = 2 * ((k * k * k) * (k * k)))
    by (unfold t, n, products; simpl map; rewrite sum3; simpl; ring).
  assert (At : 0 < sum (squares t)) by (rewrite St; nra).
  assert (An : 0 < sum (squares n)) by (rewrite Sn; nra).
  assert (Mt : magnitude t <> Ok 0).
  { intros E. apply magnitude_zero_iff in E. lra. }
  assert (Mn : magnitude n <> Ok 0).
  { intros E. apply magnitude_zero_iff in E. lra. }
  rewrite angle_vectors_nonzero_magnitude by (reflexivity || assumption).
  assert (Pd : 0 < sum (products t n)) by (rewrite D; nra).
  assert (Q : 0.577345 < sum (products t n) /
                         (sqrt (sum (squares t)) * sqrt (sum (squares n)))
              < 0.577355).
  { apply quotient_between; try lra.
    - rewrite St, Sn, D.
      assert (X : 0 < (k * k * k) * (k * k) * ((k * k * k) * (k * k))) by nra.
      nra.
    - rewrite St, Sn, D.
      assert (X : 0 < (k * k * k) * (k * k) * ((k * k * k) * (k * k))) by nra.
      nra. }
  set (q := sum (products t n) /
            (sqrt (sum (squares t)) * sqrt (sum (squares n)))) in *.
  assert (Rq : round_ndigits q 5 = 0.57735).
  { unfold round_ndigits.
    rewrite (round_half_even_near (q * 10 ^ 5) 57735) by lra. lra. }
  rewrite Rq. apply math_acos_in_range. lra.
Qed.

Lemma direction_vector_45_0_45_90 :
  direction_vector 45 0 45 90 =
  [- (k45 * k45 * k45); 1 * (2 * (k45 * k45 * k45)); k45 * k45 * k45].
Proof.
  unfold direction_vector. rewrite sphere_point_45_0, sphere_point_45_90.
  assert (T : tangent [k45; 0; k45] [0; k45; k45] =
              [- (k45 * k45 * k45); 1 * (2 * (k45 * k45 * k45)); k45 * k45 * k45])
    by vec_ring.
  rewrite T. destruct (Rlt_dec _ 1) as [H|H]; [|reflexivity]. exfalso.
  assert (S : 1 <= sum (squares [- (k45 * k45 * k45);
                                 1 * (2 * (k45 * k45 * k45)); k45 * k45 * k45])).
  { unfold squares. simpl map. rewrite sum3.
    pose proof (pow6_ge_1 k45 k45_pos k45_sq). nra. }
  apply sqrt_le_1_alt in S. rewrite sqrt_1 in S. lra.
Qed.

Lemma direction_vector_45_0_45_neg90 :
  direction_vector 45 0 45 (-90) =
  [- (k45 * k45 * k45); -1 * (2 * (k45 * k45 * k45)); k45 * k45 * k45].
Proof.
  unfold direction_vector. rewrite sphere_point_45_0, sphere_point_45_neg90.
  assert (T : tangent [k45; 0; k45] [0; - k45; k45] =
              [- (k45 * k45 * k45); -1 * (2 * (k45 * k45 * k45)); k45 * k45 * k45])
    by vec_ring.
  rewrite T. destruct (Rlt_dec _ 1) as [H|H]; [|reflexivity]. exfalso.
  assert (S : 1 <= sum (squares [- (k45 * k45 * k45);
                                 -1 * (2 * (k45 * k45 * k45)); k45 * k45 * k45])).
  { unfold squares. simpl map. rewrite sum3.
    pose proof (pow6_ge_1 k45 k45_pos k45_sq). nra. }
  apply sqrt_le_1_alt in S. rewrite sqrt_1 in S. lra.
Qed.

Lemma north_tangent_45_0 :
  tangent (sphere_point 45 0) [0; 0; 1] = [- (k45 * k45); 0; k45 * k45].
Proof. rewrite sphere_point_45_0. vec_ring. Qed.

Lemma bearing_45_0_45_90 :
  bearing_between_coordinates 45 0 45 90 = Ok (math_degrees (acos 0.57735)).
Proof.
  rewrite bearing_between_coordinates_valid
    by (unfold valid_latitude, valid_longitude; lra).
  rewrite direction_vector_45_0_45_90, north_tangent_45_0.
  rewrite angle_vectors_45 by (apply k45_pos || ring).
  rewrite bind_Ok. destruct (Rlt_dec 90 0); [lra|reflexivity].
Qed.

Lemma bearing_45_0_45_neg90 :
  bearing_between_coordinates 45 0 45 (-90) =
  Ok (360 - math_degrees (acos 0.57735)).
Proof.
  rewrite bearing_between_coordinates_valid
    by (unfold valid_latitude, valid_longitude; lra).
  rewrite direction_vector_45_0_45_neg90, north_tangent_45_0.
  rewrite angle_vectors_45 by (apply k45_pos || ring).
  rewrite bind_Ok. destruct (Rlt_dec (-90) 0); [reflexivity|lra].
Qed.

(** C3.  On valid coordinates [bearing_between_coordinates] is the algorithm
    of section 4.5: the unsigned bearing [degrees(angle_vectors(w,
    north_vector))] is defined and lies in [[0, 180]], and the result is
    [360] minus it when [long2 < long1] and the unsigned bearing itself
    otherwise.  The bearing from (45, 0) to (45, 90) is 54.74 and the one to
    (45, -90) is 305.26, each to two decimals. *)
Theorem bearing_is_section_4_5 :
  (forall lat1 long1 lat2 long2 : R,
     -90 <= lat1 <= 90 -> -180 <= long1 <= 180 ->
     -90 <= lat2 <= 90 -> -180 <= long2 <= 180 ->
     exists u,
       unsigned_bearing lat1 long1 lat2 long2 = Ok u /\ 0 <= u <= 180 /\
       bearing_between_coordinates lat1 long1 lat2 long2 =
       bearing_section_4_5 lat1 long1 lat2 long2 /\
       (long2 < long1 ->
        bearing_between_coordinates lat1 long1 lat2 long2 = Ok (360 - u)) /\
       (~ long2 < long1 ->
        bearing_between_coordinates lat1 long1 lat2 long2 = Ok u)) /\
  (exists b, bearing_between_coordinates 45 0 45 90 = Ok b /\
             Rabs (b - 54.74) <= 0.005) /\
  (exists b, bearing_between_coordinates 45 0 45 (-90) = Ok b /\
             Rabs (b - 305.26) <= 0.005).
Proof.
  split; [|split].
  - intros lat1 long1 lat2 long2 H1 H2 H3 H4.
    destruct (bearing_angle_bound lat1 long1 lat2 long2) as (a & Ha & Hb).
    exists (math_degrees a).
    assert (U : unsigned_bearing lat1 long1 lat2 long2 = Ok (math_degrees a)).
    { rewrite unsigned_bearing_valid by assumption. rewrite Ha. reflexivity. }
    split; [exact U|]. split; [now apply math_degrees_bound|].
    split; [apply bearing_refines_section_4_5|].
    rewrite bearing_refines_section_4_5. unfold bearing_section_4_5.
    rewrite U, bind_Ok.
    split; intros Hl; destruct (Rlt_dec long2 long1); (reflexivity || contradiction).
  - exists (math_degrees (acos 0.57735)). split; [apply bearing_45_0_45_90|].
    pose proof degrees_acos_57735. apply Rabs_le. lra.
  - exists (360 - math_degrees (acos 0.57735)).
    split; [apply bearing_45_0_45_neg90|].
    pose proof degrees_acos_57735. apply Rabs_le. lra.
Qed.

Lemma bearing_is_section_4_5_witness :
  exists u,
    unsigned_bearing 0 0 0 90 = Ok u /\ 0 <= u <= 180 /\
    bearing_between_coordinates 0 0 0 90 = bearing_section_4_5 0 0 0 90 /\
    (90 < 0 -> bearing_between_coordinates 0 0 0 90 = Ok (360 - u)) /\
    (~ 90 < 0 -> bearing_between_coordinates 0 0 0 90 = Ok u).
Proof.
  apply (proj1 bearing_is_section_4_5 0 0 0 90); lra.
Defined.

(** ** Test vectors of [test.py], over the reals *)

Example magnitude_tests : magnitude [3; 4] = Ok 5 /\ magnitude [0; 0] = Ok 0.
Proof.
  rewrite !magnitude_eq. unfold squares. cbn [map]. rewrite !sum_cons, sum_nil.
  split; f_equal.
  - replace (3 ^ 2 + (4 ^ 2 + 0)) with (5 * 5) by ring. apply sqrt_square. lra.
  - replace (0 ^ 2 + (0 ^ 2 + 0)) with 0 by ring. apply sqrt_0.
Qed.

Example dot_product_tests :
  dot_product [1; 2] [3; 4] = Ok 11 /\ dot_product [1; 1; 1] [1; 1; 1] = Ok 3.
Proof.
  rewrite !dot_product_eq by reflexivity. unfold products. cbn [map combine fst snd].
  rewrite !sum_cons, sum_nil. split; f_equal; ring.
Qed.

Example cross_product_tests :
  cross_product [1; 0; 0] [0; 1; 0] = Ok [0; 0; 1] /\
  cross_product [1; 1; 1] [1; 1; 1] = Ok [0; 0; 0].
Proof.
  rewrite !cross_product_cross by reflexivity. split; f_equal; vec_ring.
Qed.

Example to_vector_tests :
  to_vector 0 0 = Ok [6371; 0; 0] /\ to_vector 0 90 = Ok [0; 6371; 0] /\
  to_vector 90 0 = Ok [0; 0; 6371] /\ to_vector 90 90 = Ok [0; 0; 6371].
Proof.
  rewrite !to_vector_valid by (unfold valid_latitude, valid_longitude; lra).
  rewrite sphere_point_0_0, sphere_point_0_90, !sphere_point_north_pole.
  repeat split.
Qed.

(** ** The argument of the inverse cosine *)

(** Over the reals the quotient itself lies in [[-1, 1]], by the
    Cauchy-Schwarz inequality, and so does its rounding to 5 decimals:
    [angle_vectors] returns the inverse cosine.  For the floats see the
    section on the margin of the guard below. *)
Lemma angle_vectors_acos_argument_exact (v w : tuple) :
  length v = length w ->
  magnitude v <> Ok 0 -> magnitude w <> Ok 0 ->
  exists d mv mw,
    dot_product v w = Ok d /\ magnitude v = Ok mv /\ magnitude w = Ok mw /\
    truediv d (mv * mw) = Ok (d / (mv * mw)) /\
    -1 <= round_ndigits (d / (mv * mw)) 5 <= 1 /\
    math_acos (round_ndigits (d / (mv * mw)) 5) =
    Ok (acos (round_ndigits (d / (mv * mw)) 5)) /\
    angle_vectors v w = Ok (acos (round_ndigits (d / (mv * mw)) 5)).
Proof.
  intros Hl Hv Hw.
  exists (sum (products v w)), (sqrt (sum (squares v))), (sqrt (sum (squares w))).
  pose proof (acos_argument_in_range v w Hv Hw) as Hq.
  pose proof (cosine_in_range v w (magnitude_nonzero_squares v Hv)
                (magnitude_nonzero_squares w Hw)) as [Hm _].
  split; [now apply dot_product_eq|].
  split; [apply magnitude_eq|]. split; [apply magnitude_eq|].
  split.
  { unfold truediv. destruct (Req_dec_T _ 0); [contradiction|reflexivity]. }
  split; [exact Hq|].
  split; [now apply math_acos_in_range|].
  rewrite angle_vectors_nonzero_magnitude by assumption.
  now apply math_acos_in_range.
Qed.

(** ** Defaults on degenerate inputs *)

Lemma tangent_self (x y z : R) : tangent [x; y; z] [x; y; z] = [0; 0; 0].
Proof. vec_ring. Qed.

Lemma direction_vector_same_point (lat long : R) :
  direction_vector lat long lat long = tangent (sphere_point lat long) [0; 0; 1].
Proof.
  unfold direction_vector.
  assert (T : tangent (sphere_point lat long) (sphere_point lat long) = [0; 0; 0])
    by (unfold sphere_point; apply tangent_self).
  rewrite T.
  assert (S : sum (squares [0; 0; 0]) = 0)
    by (unfold squares; simpl map; rewrite sum3; ring).
  rewrite S, sqrt_0. destruct (Rlt_dec 0 1); [reflexivity|lra].
Qed.

(** C7 fails as stated: the direction from the point (0, 0) to itself is
    undefined (the tangent [cross(cross(v, v), v)] is the zero vector), and
    [direction_between_coordinates] returns the north tangent
    [(0, 0, R * R)] as a default, and no error. *)
Lemma direction_0_0_0_0_default :
  (exists v c, to_vector 0 0 = Ok v /\ cross_product v v = Ok c /\
               cross_product c v = Ok [0; 0; 0]) /\
  direction_between_coordinates 0 0 0 0 = Ok [0; 0; R_km * R_km].
Proof.
  assert (V : valid_latitude 0 /\ valid_longitude 0)
    by (unfold valid_latitude, valid_longitude; lra).
  destruct V as [V1 V2]. split.
  - exists (sphere_point 0 0), (cross (sphere_point 0 0) (sphere_point 0 0)).
    split; [now apply to_vector_valid|].
    split; [now apply cross_product_cross|].
    rewrite cross_product_cross by reflexivity. f_equal.
    unfold sphere_point. apply tangent_self.
  - rewrite direction_between_coordinates_valid by assumption.
    rewrite direction_vector_same_point, sphere_point_0_0. f_equal. vec_ring.
Qed.

(** ** Binary64: the test vectors, and the rounding before [math.acos] *)

Module Binary64Facts.
Import Floats.
Import Binary64.
Local Open Scope float_scope.
#[local] Set Warnings "-inexact-float".

Example binary64_magnitude_tests :
  magnitude [3; 4] = Ok 5 /\ magnitude [0; 0] = Ok 0.
Proof. split; vm_compute; reflexivity. Qed.

Example binary64_dot_product_tests :
  dot_product [1; 2] [3; 4] = Ok 11 /\
  dot_product [1; 1; 1] [1; 1; 1] = Ok 3.
Proof. split; vm_compute; reflexivity. Qed.

Example binary64_cross_product_tests :
  cross_product [1; 0; 0] [0; 1; 0] = Ok [0; 0; 1] /\
  cross_product [1; 1; 1] [1; 1; 1] = Ok [0; 0; 0].
Proof. split; vm_compute; reflexivity. Qed.

Example binary64_round_ndigits_samples :
  round_ndigits 0.125 2 = 0.12 /\
  round_ndigits 0.375 2 = 0.38 /\
  round_ndigits 2 5 = 2.
Proof. repeat split; vm_compute; reflexivity. Qed.

Example binary64_angle_vectors_opposite (libm_acos : float -> float) :
  angle_vectors libm_acos [1; 0; 0] [-1; 0; 0] = Ok (libm_acos (-1)).
Proof. vm_compute. reflexivity. Qed.

(** Without the rounding the inverse cosine would fail on ordinary vectors:
    for [v = w = (1, 1, 1)] the quotient is [1.0000000000000002], which
    [round(q, 5)] takes back to [1.0]. *)
Example binary64_quotient_above_one (libm_acos : float -> float) :
  (exists d m q,
     dot_product [1; 1; 1] [1; 1; 1] = Ok d /\ magnitude [1; 1; 1] = Ok m /\
     truediv d (m * m) = Ok q /\ (1 <? q) = true /\ round_ndigits q 5 = 1) /\
  angle_vectors libm_acos [1; 1; 1] [1; 1; 1] = Ok (libm_acos 1).
Proof.
  split; [|vm_compute; reflexivity].
  eexists _, _, _. repeat split; vm_compute; reflexivity.
Qed.

(** C4 fails as stated on the machine's floats.  The vectors
    [(9 * 2 ** -540,)] and [(23 * 2 ** -541,)] have one length and nonzero
    magnitudes, [2 ** -537] and about [1.41 * 2 ** -537].  Their dot product
    rounds to 2 units of [2 ** -1074] and the product of their magnitudes to
    1 unit, so the quotient is [2.0]; [round(2.0, 5)] is [2.0], and
    [math.acos] raises its domain error, whatever the C library's [acos].
    Each vector has one component, so the order in which [sum] adds plays no
    part. *)
Lemma binary64_angle_vectors_domain_error :
  length tiny_v = length tiny_w /\
  (exists mv mw d,
     magnitude tiny_v = Ok mv /\ (mv =? 0) = false /\
     magnitude tiny_w = Ok mw /\ (mw =? 0) = false /\
     dot_product tiny_v tiny_w = Ok d /\
     d = Z.ldexp 2 (-1074) /\ mv * mw = Z.ldexp 1 (-1074) /\
     truediv d (mv * mw) = Ok 2) /\
  round_ndigits 2 5 = 2 /\
  (1 <? 2) = true /\
  forall libm_acos : float -> float,
    angle_vectors libm_acos tiny_v tiny_w = Raise (ValueError "math domain error").
Proof.
  split; [reflexivity|]. split.
  { eexists _, _, _. repeat split; vm_compute; reflexivity. }
  split; [vm_compute; reflexivity|]. split; [vm_compute; reflexivity|].
  intros libm_acos. vm_compute. reflexivity.
Qed.

End Binary64Facts.

(** ** Lists of squares and of products *)

Lemma length3_inv (v : tuple) :
  length v = 3%nat -> exists x y z, v = [x; y; z].
Proof.
  destruct v as [|x [|y [|z [|t v]]]]; try discriminate. intros _. eauto.
Qed.

Lemma sum_squares_all_zero (v : tuple) :
  Forall (fun a => a = 0) v -> sum (squares v) = 0.
Proof.
  induction 1 as [|a v Ha _ IH]; simpl.
  - apply sum_nil.
  - rewrite sum_cons, IH, Ha. ring.
Qed.

Lemma sum_squares_scale (k : R) (v : tuple) :
  sum (squares (scale k v)) = k * k * sum (squares v).
Proof.
  induction v as [|a v IH].
  - unfold scale, squares. cbn [map]. rewrite sum_nil. ring.
  - change (scale k (a :: v)) with (k * a :: scale k v).
    change (squares (k * a :: scale k v))
      with ((k * a) ^ 2 :: squares (scale k v)).
    change (squares (a :: v)) with (a ^ 2 :: squares v).
    rewrite !sum_cons, IH. ring.
Qed.

Lemma products_cons (a b : R) (v w : tuple) :
  products (a :: v) (b :: w) = a * b :: products v w.
Proof. reflexivity. Qed.

Lemma squares_cons (a : R) (v : tuple) : squares (a :: v) = a ^ 2 :: squares v.
Proof. reflexivity. Qed.

Lemma scale_cons (k a : R) (v : tuple) : scale k (a :: v) = k * a :: scale k v.
Proof. reflexivity. Qed.

Lemma sum_products_comm (v w : tuple) :
  sum (products v w) = sum (products w v).
Proof.
  revert w. induction v as [|a v IH]; intros [|b w]; try reflexivity.
  rewrite !products_cons, !sum_cons, IH. ring.
Qed.

Lemma sum_products_self (v : tuple) : sum (products v v) = sum (squares v).
Proof.
  induction v as [|a v IH]; [reflexivity|].
  rewrite products_cons, squares_cons, !sum_cons, IH. ring.
Qed.

Lemma sum_products_scale_l (k : R) (v w : tuple) :
  sum (products (scale k v) w) = k * sum (products v w).
Proof.
  revert w. induction v as [|a v IH]; intros [|b w];
    try (unfold scale, products; cbn [map combine]; rewrite ?sum_nil; ring).
  rewrite scale_cons, !products_cons, !sum_cons, IH. ring.
Qed.

Lemma length_scale (k : R) (v : tuple) : length (scale k v) = length v.
Proof. apply length_map. Qed.

Lemma negate_scale (v : tuple) : negate v = scale (-1) v.
Proof.
  unfold negate, scale. apply map_ext. intros a. ring.
Qed.

(** * The floats: rounding, overflow and the poles *)

(** ** One rounding *)

Lemma ln2_pos : 0 < ln 2.
Proof. rewrite <- ln_1. apply ln_increasing; lra. Qed.

Lemma powerRZ2_pos (z : Z) : 0 < powerRZ 2 z.
Proof. apply powerRZ_lt. lra. Qed.

Lemma powerRZ2_exp (z : Z) : powerRZ 2 z = exp (IZR z * ln 2).
Proof. rewrite powerRZ_Rpower by lra. reflexivity. Qed.

Lemma powerRZ2_le (a b : Z) : (a <= b)%Z -> powerRZ 2 a <= powerRZ 2 b.
Proof.
  intros H. rewrite !powerRZ2_exp.
  destruct (Z.eq_dec a b) as [->|N]; [lra|].
  left. apply exp_increasing. apply Rmult_lt_compat_r; [apply ln2_pos|].
  apply IZR_lt. lia.
Qed.

Lemma powerRZ2_lt_inv (a b : Z) : powerRZ 2 a < powerRZ 2 b -> (a < b)%Z.
Proof.
  intros H. destruct (Z_lt_le_dec a b) as [L|L]; [exact L|].
  apply powerRZ2_le in L. lra.
Qed.

Lemma powerRZ2_split (a b : Z) : powerRZ 2 (a + b) = powerRZ 2 a * powerRZ 2 b.
Proof. apply powerRZ_add. lra. Qed.

Lemma powerRZ2_opp (a : Z) : powerRZ 2 (- a) = / powerRZ 2 a.
Proof.
  pose proof (powerRZ2_pos a) as H.
  assert (E : powerRZ 2 (- a) * powerRZ 2 a = 1).
  { rewrite <- powerRZ2_split. replace (- a + a)%Z with 0%Z by lia. reflexivity. }
  apply Rmult_eq_reg_r with (powerRZ 2 a); [|lra].
  rewrite E. field. lra.
Qed.

Lemma powerRZ2_cancel (e : Z) : powerRZ 2 (52 - e) * powerRZ 2 (e - 52) = 1.
Proof.
  rewrite <- powerRZ2_split. replace (52 - e + (e - 52))%Z with 0%Z by lia.
  reflexivity.
Qed.

(** The binade is the one integer [e] with [2 ** e <= |x| < 2 ** (e + 1)]. *)
Lemma binade_bound (x : R) :
  x <> 0 -> powerRZ 2 (binade x) <= Rabs x < powerRZ 2 (binade x + 1).
Proof.
  intros Hx. assert (Ha : 0 < Rabs x) by now apply Rabs_pos_lt.
  pose proof ln2_pos as L2. unfold binade.
  pose proof (Zfloor_bound (ln (Rabs x) / ln 2)) as [H1 H2].
  set (e := Zfloor (ln (Rabs x) / ln 2)) in *.
  assert (E1 : IZR e * ln 2 <= ln (Rabs x)).
  { apply Rmult_le_compat_r with (r := ln 2) in H1; [|lra].
    replace (ln (Rabs x) / ln 2 * ln 2) with (ln (Rabs x)) in H1 by (field; lra).
    exact H1. }
  assert (E2 : ln (Rabs x) < IZR (e + 1) * ln 2).
  { rewrite plus_IZR. apply Rmult_lt_compat_r with (r := ln 2) in H2; [|lra].
    replace (ln (Rabs x) / ln 2 * ln 2) with (ln (Rabs x)) in H2 by (field; lra).
    exact H2. }
  rewrite !powerRZ2_exp. pose proof (exp_ln (Rabs x) Ha) as Hx'.
  split.
  - rewrite <- Hx'.
    destruct E1 as [E1|E1]; [left; now apply exp_increasing | rewrite E1; lra].
  - rewrite <- Hx' at 1. now apply exp_increasing.
Qed.

Lemma binade_unique (x : R) (e : Z) :
  powerRZ 2 e <= Rabs x < powerRZ 2 (e + 1) -> binade x = e.
Proof.
  intros [H1 H2]. pose proof (powerRZ2_pos e) as He.
  assert (Ha : 0 < Rabs x) by lra.
  pose proof ln2_pos as L2. unfold binade. apply Zfloor_eq.
  rewrite !powerRZ2_exp in *.
  assert (E1 : IZR e * ln 2 <= ln (Rabs x)).
  { destruct H1 as [H1|H1].
    - left. apply exp_lt_inv. now rewrite exp_ln.
    - right. rewrite <- H1. now rewrite ln_exp. }
  assert (E2 : ln (Rabs x) < IZR (e + 1) * ln 2).
  { apply exp_lt_inv. now rewrite exp_ln. }
  rewrite plus_IZR in E2. split.
  - apply Rmult_le_reg_r with (ln 2); [lra|].
    replace (ln (Rabs x) / ln 2 * ln 2) with (ln (Rabs x)) by (field; lra).
    exact E1.
  - apply Rmult_lt_reg_r with (ln 2); [lra|].
    replace (ln (Rabs x) / ln 2 * ln 2) with (ln (Rabs x)) by (field; lra).
    lra.
Qed.

Lemma binade_opp (x : R) : binade (- x) = binade x.
Proof. unfold binade. now rewrite Rabs_Ropp. Qed.

Lemma round_half_even_opp (x : R) :
  round_half_even (- x) = (- round_half_even x)%Z.
Proof.
  destruct (round_half_even_spec x) as [Hb He].
  apply round_half_even_unique.
  - rewrite opp_IZR. lra.
  - rewrite opp_IZR, Z.even_opp. intros [E|E]; apply He; lra.
Qed.

Lemma round53_0 : round53 0 = 0.
Proof.
  unfold round53. rewrite Rmult_0_l.
  change 0 with (IZR 0) at 1. rewrite round_half_even_IZR. lra.
Qed.

Lemma round53_opp (x : R) : round53 (- x) = - round53 x.
Proof.
  unfold round53. rewrite binade_opp.
  replace (- x * powerRZ 2 (52 - binade x)) with (- (x * powerRZ 2 (52 - binade x)))
    by ring.
  rewrite round_half_even_opp, opp_IZR. ring.
Qed.

(** The relative error of one rounding is at most [2 ** -53]. *)
Lemma round53_error (x : R) : Rabs (round53 x - x) <= u53 * Rabs x.
Proof.
  destruct (Req_dec x 0) as [->|Hx].
  { rewrite round53_0. replace (0 - 0) with 0 by ring. rewrite Rabs_R0. lra. }
  pose proof (binade_bound x Hx) as [Hlo _].
  unfold round53. set (e := binade x) in *.
  pose proof (powerRZ2_pos (e - 52)) as Hp.
  pose proof (powerRZ2_cancel e) as Hc.
  set (m := x * powerRZ 2 (52 - e)).
  destruct (round_half_even_spec m) as [Hr _].
  replace (IZR (round_half_even m) * powerRZ 2 (e - 52) - x)
    with ((IZR (round_half_even m) - m) * powerRZ 2 (e - 52))
    by (unfold m; rewrite Rmult_minus_distr_r, Rmult_assoc, Hc; ring).
  rewrite Rabs_mult, (Rabs_pos_eq (powerRZ 2 (e - 52))) by lra.
  assert (Hd : Rabs (IZR (round_half_even m) - m) <= 1 / 2)
    by (apply Rabs_le; lra).
  assert (Hs : powerRZ 2 (e - 52) = powerRZ 2 e * / 2 ^ 52).
  { replace (e - 52)%Z with (e + Z.opp 52)%Z by lia.
    rewrite powerRZ2_split, (powerRZ2_opp 52).
    change 52%Z with (Z.of_nat 52). now rewrite <- pow_powerRZ. }
  rewrite Hs. unfold u53.
  pose proof (powerRZ2_pos e) as He.
  assert (H52 : 0 < / 2 ^ 52) by (apply Rinv_0_lt_compat; lra).
  replace (/ 2 ^ 53) with (1 / 2 * / 2 ^ 52) by (simpl; field).
  apply Rle_trans with (1 / 2 * (powerRZ 2 e * / 2 ^ 52)).
  - apply Rmult_le_compat_r; [nra | exact Hd].
  - nra.
Qed.

Lemma u53_bounds : 0 < u53 < 1 / 10 ^ 15.
Proof. unfold u53. split; [apply Rinv_0_lt_compat; lra|]. lra. Qed.

Lemma round53_bounds (x : R) :
  Rabs x * (1 - u53) <= Rabs (round53 x) <= Rabs x * (1 + u53).
Proof.
  pose proof (round53_error x) as H.
  pose proof (Rabs_triang_inv (round53 x) x) as H1.
  pose proof (Rabs_triang_inv x (round53 x)) as H2.
  rewrite (Rabs_minus_sym x (round53 x)) in H2. lra.
Qed.

Lemma Rabs_le_between (x a : R) : Rabs x <= a -> - a <= x <= a.
Proof. unfold Rabs. destruct (Rcase_abs x); lra. Qed.

Lemma round53_nonneg (x : R) :
  0 <= x -> x * (1 - u53) <= round53 x <= x * (1 + u53).
Proof.
  intros Hx. pose proof (round53_error x) as H.
  rewrite (Rabs_pos_eq x Hx) in H.
  apply Rabs_le_between in H. lra.
Qed.

Lemma round53_pos (x : R) : 0 < x -> 0 < round53 x.
Proof.
  intros Hx. pose proof (round53_nonneg x (Rlt_le _ _ Hx)) as [H _].
  pose proof u53_bounds. nra.
Qed.

Lemma round53_neg (x : R) : x < 0 -> round53 x < 0.
Proof.
  intros Hx. replace x with (- - x) by ring. rewrite round53_opp.
  assert (0 < round53 (- x)) by (apply round53_pos; lra). lra.
Qed.

Lemma round53_eq_0 (x : R) : round53 x = 0 <-> x = 0.
Proof.
  split.
  - intros H. destruct (Rtotal_order x 0) as [L|[E|G]]; [|exact E|].
    + apply round53_neg in L. lra.
    + apply round53_pos in G. lra.
  - intros ->. apply round53_0.
Qed.

(** The value of one rounding, from the binade and the significand. *)
Lemma round53_eq (x : R) (e n : Z) :
  powerRZ 2 e <= Rabs x < powerRZ 2 (e + 1) ->
  IZR n - 1 / 2 < x * powerRZ 2 (52 - e) < IZR n + 1 / 2 ->
  round53 x = IZR n * powerRZ 2 (e - 52).
Proof.
  intros He Hn. unfold round53. rewrite (binade_unique x e He).
  now rewrite (round_half_even_near _ n Hn).
Qed.

Lemma powerRZ2_IZR (k : Z) : (0 <= k)%Z -> powerRZ 2 k = IZR (2 ^ k).
Proof.
  intros Hk. rewrite <- (Z2Nat.id k Hk) at 1.
  rewrite <- pow_powerRZ, pow_IZR, Z2Nat.id by exact Hk. reflexivity.
Qed.

(** An integer below [2 ** 53] is a float. *)
Lemma round53_IZR (n : Z) : (Z.abs n < 2 ^ 53)%Z -> round53 (IZR n) = IZR n.
Proof.
  intros Hn. destruct (Z.eq_dec n 0) as [->|N0]; [apply round53_0|].
  assert (Hx : IZR n <> 0) by (apply not_0_IZR; exact N0).
  pose proof (binade_bound (IZR n) Hx) as [Hlo Hhi].
  unfold round53. set (e := binade (IZR n)) in *.
  rewrite <- abs_IZR in Hlo, Hhi.
  assert (He0 : (0 <= e)%Z).
  { assert (H1 : powerRZ 2 0 < powerRZ 2 (e + 1)).
    { apply Rle_lt_trans with (IZR (Z.abs n)); [|exact Hhi].
      change (powerRZ 2 0) with (IZR 1). apply IZR_le. lia. }
    apply powerRZ2_lt_inv in H1. lia. }
  assert (He52 : (e <= 52)%Z).
  { assert (H1 : powerRZ 2 e < powerRZ 2 53).
    { apply Rle_lt_trans with (IZR (Z.abs n)); [exact Hlo|].
      rewrite (powerRZ2_IZR 53) by lia. apply IZR_lt. exact Hn. }
    apply powerRZ2_lt_inv in H1. lia. }
  rewrite (powerRZ2_IZR (52 - e)) by lia.
  rewrite <- mult_IZR, round_half_even_IZR, mult_IZR.
  rewrite <- (powerRZ2_IZR (52 - e)) by lia.
  rewrite Rmult_assoc, powerRZ2_cancel. ring.
Qed.

(** ** The number pi to 17 digits *)

Lemma PI_bounds_17 : 3.1415926535897932 < PI < 3.1415926535897933.
Proof.
  pose proof (PI_2_3_7_ineq 8) as [L U].
  unfold PI_2_3_7_tg, tg_alt, Ratan_seq in L, U.
  simpl sum_f_R0 in L, U. simpl in L, U.
  split; lra.
Qed.

(** ** Rounded sums *)

Lemma u53_pos : 0 < u53.
Proof. apply u53_bounds. Qed.

Lemma u53_lt_1 : u53 < 1.
Proof. pose proof u53_bounds. lra. Qed.

Lemma pow_1mu_pos (n : nat) : 0 < (1 - u53) ^ n.
Proof. apply pow_lt. pose proof u53_lt_1. lra. Qed.

Lemma pow_1mu_le_1 (n : nat) : (1 - u53) ^ n <= 1.
Proof.
  pose proof u53_bounds as U. induction n as [|n IH]; simpl; [lra|].
  pose proof (pow_1mu_pos n). nra.
Qed.

Lemma pow_1pu_ge_1 (n : nat) : 1 <= (1 + u53) ^ n.
Proof. apply pow_R1_Rle. pose proof u53_pos. lra. Qed.

Lemma sum_nonneg (l : list R) : Forall (fun x => 0 <= x) l -> 0 <= sum l.
Proof.
  induction 1 as [|x l Hx _ IH]; [rewrite sum_nil; lra|].
  rewrite sum_cons. lra.
Qed.

(** A rounded sum of terms that are not negative loses at most the factor
    [1 - u] at each addition. *)
Lemma rounded_fold_lower (l : list R) (a : R) :
  Forall (fun x => 0 <= x) l -> 0 <= a ->
  (1 - u53) ^ length l * (a + sum l) <=
  fold_left (fun a x => round53 (a + x)) l a.
Proof.
  intros Hl. revert a. induction Hl as [|x l Hx Hl IH]; intros a Ha.
  - simpl. rewrite sum_nil. lra.
  - cbn [fold_left length]. rewrite sum_cons.
    pose proof (round53_nonneg (a + x) ltac:(lra)) as [Hr _].
    pose proof u53_bounds as U.
    assert (Ha' : 0 <= round53 (a + x)) by nra.
    specialize (IH _ Ha'). pose proof (sum_nonneg l Hl) as Hs.
    pose proof (pow_1mu_pos (length l)) as Hp.
    apply Rle_trans with ((1 - u53) ^ length l * (round53 (a + x) + sum l));
      [|exact IH].
    rewrite <- tech_pow_Rmult, (Rmult_comm (1 - u53)), Rmult_assoc.
    apply Rmult_le_compat_l; [lra|]. nra.
Qed.

Lemma rounded_sum_lower (l : list R) :
  Forall (fun x => 0 <= x) l ->
  (1 - u53) ^ length l * sum l <= Rounded.sum l.
Proof.
  intros Hl. pose proof (rounded_fold_lower l 0 Hl ltac:(lra)) as H.
  rewrite Rplus_0_l in H. exact H.
Qed.

(** In absolute value a rounded sum gains at most the factor [1 + u] at each
    addition. *)
Lemma rounded_fold_upper (l : list R) (a : R) :
  Rabs (fold_left (fun a x => round53 (a + x)) l a) <=
  (1 + u53) ^ length l * (Rabs a + sum (map Rabs l)).
Proof.
  revert a. induction l as [|x l IH]; intros a.
  - simpl. rewrite sum_nil. lra.
  - cbn [fold_left length map]. rewrite sum_cons.
    pose proof (round53_bounds (a + x)) as [_ Hr].
    pose proof (Rabs_triang a x) as Ht.
    pose proof u53_bounds as U.
    pose proof (Rabs_pos (a + x)) as P0.
    assert (Hs : 0 <= sum (map Rabs l)).
    { apply sum_nonneg. apply Forall_forall. intros y Hy.
      apply in_map_iff in Hy. destruct Hy as (z & <- & _). apply Rabs_pos. }
    pose proof (pow_1pu_ge_1 (length l)) as Hp.
    apply Rle_trans with
      ((1 + u53) ^ length l * (Rabs (round53 (a + x)) + sum (map Rabs l)));
      [apply IH|].
    rewrite <- tech_pow_Rmult, (Rmult_comm (1 + u53)), Rmult_assoc.
    apply Rmult_le_compat_l; [lra|]. nra.
Qed.

Lemma rounded_sum_upper (l : list R) :
  Rabs (Rounded.sum l) <= (1 + u53) ^ length l * sum (map Rabs l).
Proof.
  pose proof (rounded_fold_upper l 0) as H.
  rewrite Rabs_R0, Rplus_0_l in H. exact H.
Qed.

(** ** Rounded magnitudes and dot products *)

Lemma rounded_squares_nonneg (v : tuple) :
  Forall (fun x => 0 <= x) (rounded_squares v).
Proof.
  apply Forall_forall. intros y Hy. apply in_map_iff in Hy.
  destruct Hy as (a & <- & _).
  pose proof (round53_nonneg (a * a) ltac:(nra)) as [H _].
  pose proof u53_bounds. nra.
Qed.

Lemma sum_rounded_squares_lower (v : tuple) :
  (1 - u53) * sum (squares v) <= sum (rounded_squares v).
Proof.
  induction v as [|a v IH].
  - unfold squares, rounded_squares. simpl. rewrite sum_nil. lra.
  - change (squares (a :: v)) with (a ^ 2 :: squares v).
    change (rounded_squares (a :: v)) with (round53 (a * a) :: rounded_squares v).
    rewrite !sum_cons.
    pose proof (round53_nonneg (a * a) ltac:(nra)) as [H _]. lra.
Qed.

Lemma rounded_sum_squares_nonneg (v : tuple) :
  0 <= Rounded.sum (rounded_squares v).
Proof.
  pose proof (rounded_sum_lower _ (rounded_squares_nonneg v)) as H.
  pose proof (sum_nonneg _ (rounded_squares_nonneg v)) as Hs.
  pose proof (pow_1mu_pos (length (rounded_squares v))) as Hp. nra.
Qed.

Lemma rounded_magnitude_eq (v : tuple) :
  Rounded.magnitude v = Ok (round53 (sqrt (Rounded.sum (rounded_squares v)))).
Proof.
  unfold Rounded.magnitude, Rounded.math_sqrt. fold (rounded_squares v).
  destruct (Rlt_dec _ 0) as [H|H]; [|reflexivity].
  pose proof (rounded_sum_squares_nonneg v). lra.
Qed.

Lemma length_rounded_squares (v : tuple) : length (rounded_squares v) = length v.
Proof. apply length_map. Qed.

Lemma sqrt_scale_lower (k s : R) : 0 <= k <= 1 -> 0 <= s -> k * sqrt s <= sqrt (k * s).
Proof.
  intros Hk Hs. rewrite sqrt_mult by lra.
  apply Rmult_le_compat_r; [apply sqrt_pos|].
  rewrite <- (sqrt_square k) at 1 by lra. apply sqrt_le_1_alt. nra.
Qed.

(** The computed magnitude is at least [(1 - u) ** (n + 2)] times the exact
    one, [n] being the number of components. *)
Lemma rounded_magnitude_lower (v : tuple) :
  (1 - u53) ^ (length v + 2) * sqrt (sum (squares v)) <=
  round53 (sqrt (Rounded.sum (rounded_squares v))).
Proof.
  pose proof u53_bounds as U.
  pose proof (rounded_sum_lower _ (rounded_squares_nonneg v)) as H1.
  rewrite length_rounded_squares in H1.
  pose proof (sum_rounded_squares_lower v) as H2.
  pose proof (sum_squares_nonneg v) as H0.
  pose proof (pow_1mu_pos (length v)) as Hp.
  pose proof (pow_1mu_le_1 (length v)) as Hp1.
  set (k := (1 - u53) ^ length v * (1 - u53)).
  assert (Hk : 0 <= k <= 1) by (unfold k; split; nra).
  assert (H3 : k * sum (squares v) <= Rounded.sum (rounded_squares v)).
  { unfold k. apply Rle_trans with ((1 - u53) ^ length v * sum (rounded_squares v));
      [|exact H1]. rewrite Rmult_assoc. apply Rmult_le_compat_l; lra. }
  pose proof (sqrt_scale_lower k _ Hk H0) as H4.
  assert (H5 : sqrt (k * sum (squares v)) <= sqrt (Rounded.sum (rounded_squares v)))
    by (apply sqrt_le_1_alt; exact H3).
  pose proof (sqrt_pos (Rounded.sum (rounded_squares v))) as H6.
  pose proof (round53_nonneg _ H6) as [H7 _].
  pose proof (sqrt_pos (sum (squares v))) as H8.
  replace ((1 - u53) ^ (length v + 2)) with (k * (1 - u53))
    by (unfold k; rewrite pow_add; simpl; ring).
  apply Rle_trans with (sqrt (Rounded.sum (rounded_squares v)) * (1 - u53));
    [|exact H7].
  rewrite Rmult_assoc, (Rmult_comm (1 - u53)), <- Rmult_assoc.
  apply Rmult_le_compat_r; lra.
Qed.

Lemma rounded_magnitude_nonneg (v : tuple) :
  0 <= round53 (sqrt (Rounded.sum (rounded_squares v))).
Proof.
  pose proof (round53_nonneg _ (sqrt_pos (Rounded.sum (rounded_squares v)))) as [H _].
  pose proof (sqrt_pos (Rounded.sum (rounded_squares v))).
  pose proof u53_bounds. nra.
Qed.

Lemma sum_abs_products (v w : tuple) :
  sum (map Rabs (products v w)) = sum (products (map Rabs v) (map Rabs w)).
Proof.
  revert w. induction v as [|a v IH]; intros [|b w]; try reflexivity.
  rewrite products_cons. cbn [map]. rewrite products_cons, !sum_cons, IH, Rabs_mult.
  reflexivity.
Qed.

Lemma sum_squares_abs (v : tuple) : sum (squares (map Rabs v)) = sum (squares v).
Proof.
  induction v as [|a v IH]; [reflexivity|].
  cbn [map]. rewrite !squares_cons, !sum_cons, IH.
  replace (Rabs a ^ 2) with (a ^ 2); [reflexivity|].
  rewrite <- !Rsqr_pow2. now rewrite <- Rsqr_abs.
Qed.

Lemma sum_abs_products_bound (v w : tuple) :
  sum (map Rabs (products v w)) <= sqrt (sum (squares v)) * sqrt (sum (squares w)).
Proof.
  rewrite sum_abs_products.
  pose proof (cauchy_schwarz (map Rabs v) (map Rabs w)) as CS.
  rewrite !sum_squares_abs in CS.
  pose proof (sum_squares_nonneg v) as Av. pose proof (sum_squares_nonneg w) as Aw.
  rewrite <- sqrt_mult by assumption.
  apply Rsqr_incr_0_var; [|apply sqrt_pos].
  unfold Rsqr. rewrite sqrt_sqrt by nra. exact CS.
Qed.

Lemma length_products (v w : tuple) :
  length v = length w -> length (products v w) = length v.
Proof.
  intros H. unfold products. rewrite length_map, length_combine, H.
  apply Nat.min_id.
Qed.

Lemma rounded_products_map (v w : tuple) :
  rounded_products v w = map round53 (products v w).
Proof. unfold rounded_products, products. now rewrite map_map. Qed.

Lemma sum_abs_round53 (l : list R) :
  sum (map Rabs (map round53 l)) <= (1 + u53) * sum (map Rabs l).
Proof.
  induction l as [|x l IH]; cbn [map]; rewrite ?sum_nil, ?sum_cons; [lra|].
  pose proof (round53_bounds x) as [_ H]. lra.
Qed.

(** The computed dot product is at most [(1 + u) ** (n + 1)] times the
    product of the exact magnitudes. *)
Lemma rounded_dot_upper (v w : tuple) :
  length v = length w ->
  Rabs (Rounded.sum (rounded_products v w)) <=
  (1 + u53) ^ (length v + 1) * (sqrt (sum (squares v)) * sqrt (sum (squares w))).
Proof.
  intros Hl. pose proof u53_bounds as U.
  pose proof (rounded_sum_upper (rounded_products v w)) as H1.
  rewrite rounded_products_map in *. rewrite length_map, length_products in H1 by exact Hl.
  pose proof (sum_abs_round53 (products v w)) as H2.
  pose proof (sum_abs_products_bound v w) as H3.
  pose proof (pow_1pu_ge_1 (length v)) as Hp.
  apply Rle_trans with ((1 + u53) ^ length v * sum (map Rabs (map round53 (products v w))));
    [exact H1|].
  rewrite pow_add, Rmult_assoc. apply Rmult_le_compat_l; [lra|].
  simpl. rewrite Rmult_1_r.
  apply Rle_trans with ((1 + u53) * sum (map Rabs (products v w))); [exact H2|].
  apply Rmult_le_compat_l; lra.
Qed.

(** ** The margin of the guard *)

Lemma bernoulli (x : R) (n : nat) : 0 <= x <= 1 -> 1 - INR n * x <= (1 - x) ^ n.
Proof.
  intros Hx. induction n as [|n IH]; [simpl; lra|].
  rewrite S_INR. simpl.
  assert (Hp : 0 <= (1 - x) ^ n) by (apply pow_le; lra).
  pose proof (pos_INR n) as Hn. nra.
Qed.

Lemma pow_1pu_1mu (n : nat) : (1 + u53) ^ n * (1 - u53) ^ n <= 1.
Proof.
  rewrite <- Rpow_mult_distr. pose proof u53_bounds as U.
  assert (H : 0 <= (1 + u53) * (1 - u53) <= 1) by nra.
  induction n as [|n IH]; simpl; [lra|].
  assert (0 <= ((1 + u53) * (1 - u53)) ^ n) by (apply pow_le; lra). nra.
Qed.

(** With at most [10 ** 9] components the rounding errors of the quotient
    stay below one part in a million. *)
Lemma guard_margin (n : nat) :
  (Z.of_nat n <= 10 ^ 9)%Z ->
  (1 + u53) ^ (n + 2) <= (1 + 1 / 10 ^ 6) * (1 - u53) ^ (2 * n + 5).
Proof.
  intros Hn. pose proof u53_bounds as U.
  set (a := (1 - u53) ^ (n + 2)). set (b := (1 - u53) ^ (2 * n + 5)).
  set (c := (1 + u53) ^ (n + 2)).
  assert (Ha : 0 < a) by apply pow_1mu_pos.
  assert (Hca : c * a <= 1) by apply pow_1pu_1mu.
  assert (Hab : 1 - 4 / 10 ^ 7 <= a * b).
  { unfold a, b. rewrite <- pow_add.
    apply Rle_trans with (1 - INR (n + 2 + (2 * n + 5)) * u53);
      [|apply bernoulli; lra].
    assert (Hi : INR (n + 2 + (2 * n + 5)) <= 3 * 10 ^ 9 + 7).
    { rewrite INR_IZR_INZ.
      apply Rle_trans with (IZR 3000000007); [apply IZR_le; lia | lra]. }
    assert (Hu : u53 <= 12 / 10 ^ 17) by (unfold u53; lra).
    assert (H0 : 0 <= INR (n + 2 + (2 * n + 5))) by apply pos_INR.
    nra. }
  apply Rmult_le_reg_r with a; [exact Ha|].
  apply Rle_trans with 1; [exact Hca|].
  rewrite Rmult_assoc, (Rmult_comm b a). nra.
Qed.

(** The quotient that [angle_vectors] computes is at most one part in a
    million beyond [[-1, 1]]. *)
Lemma rounded_quotient_bound (v w : tuple) :
  length v = length w -> (Z.of_nat (length v) <= 10 ^ 9)%Z ->
  let d := Rounded.sum (rounded_products v w) in
  let mv := round53 (sqrt (Rounded.sum (rounded_squares v))) in
  let mw := round53 (sqrt (Rounded.sum (rounded_squares w))) in
  mv <> 0 -> mw <> 0 ->
  round53 (mv * mw) <> 0 /\
  Rabs (round53 (d / round53 (mv * mw))) <= 1 + 1 / 10 ^ 6.
Proof.
  intros Hl Hn d mv mw Hv Hw. pose proof u53_bounds as U.
  pose proof (rounded_magnitude_nonneg v) as Nv. fold mv in Nv.
  pose proof (rounded_magnitude_nonneg w) as Nw. fold mw in Nw.
  assert (Pv : 0 < mv) by lra. assert (Pw : 0 < mw) by lra.
  assert (Pm : 0 < mv * mw) by nra.
  pose proof (round53_pos _ Pm) as Pp.
  split; [lra|].
  set (p := round53 (mv * mw)) in *.
  set (T := sqrt (sum (squares v)) * sqrt (sum (squares w))).
  assert (T0 : 0 <= T) by (unfold T; apply Rmult_le_pos; apply sqrt_pos).
  pose proof (rounded_magnitude_lower v) as Lv. fold mv in Lv.
  pose proof (rounded_magnitude_lower w) as Lw. fold mw in Lw.
  rewrite <- Hl in Lw.
  pose proof (rounded_dot_upper v w Hl) as Ud. fold d T in Ud.
  pose proof (round53_nonneg (mv * mw) (Rlt_le _ _ Pm)) as [Lp _]. fold p in Lp.
  pose proof (guard_margin (length v) Hn) as G.
  set (n := length v) in *.
  pose proof (pow_1mu_pos (n + 2)) as Q1.
  pose proof (sqrt_pos (sum (squares v))) as Sv.
  pose proof (sqrt_pos (sum (squares w))) as Sw.
  (* the product of the magnitudes, from below *)
  assert (LP : (1 - u53) ^ (2 * n + 5) * T <= p).
  { apply Rle_trans with (mv * mw * (1 - u53)); [|exact Lp].
    assert (E : (1 - u53) ^ (2 * n + 5) =
                (1 - u53) ^ (n + 2) * (1 - u53) ^ (n + 2) * (1 - u53)).
    { replace (2 * n + 5)%nat with ((n + 2) + (n + 2) + 1)%nat by lia.
      rewrite !pow_add, pow_1. reflexivity. }
    rewrite E. unfold T.
    set (A := (1 - u53) ^ (n + 2)) in *.
    assert (H : (A * sqrt (sum (squares v))) * (A * sqrt (sum (squares w))) <= mv * mw).
    { apply Rmult_le_compat; try assumption; apply Rmult_le_pos; lra. }
    nra. }
  (* the quotient *)
  pose proof (round53_bounds (d / p)) as [_ Hq].
  assert (Hdp : Rabs (d / p) = Rabs d / p).
  { unfold Rdiv. rewrite Rabs_mult, Rabs_inv, (Rabs_pos_eq p) by lra. reflexivity. }
  rewrite Hdp in Hq.
  apply Rle_trans with (Rabs d / p * (1 + u53)); [exact Hq|].
  apply Rmult_le_reg_r with p; [exact Pp|].
  replace (Rabs d / p * (1 + u53) * p) with (Rabs d * (1 + u53)) by (field; lra).
  apply Rle_trans with ((1 + u53) ^ (n + 1) * T * (1 + u53)).
  { apply Rmult_le_compat_r; lra. }
  replace ((1 + u53) ^ (n + 1) * T * (1 + u53)) with ((1 + u53) ^ (n + 2) * T)
    by (replace (n + 2)%nat with (n + 1 + 1)%nat by lia; rewrite (pow_add _ (n + 1) 1), pow_1; ring).
  apply Rle_trans with ((1 + 1 / 10 ^ 6) * (1 - u53) ^ (2 * n + 5) * T).
  { apply Rmult_le_compat_r; assumption. }
  rewrite Rmult_assoc. apply Rmult_le_compat_l; lra.
Qed.

(** Rounding to 5 decimals takes a value at most one part in a million
    beyond [[-1, 1]] back into the interval. *)
Lemma rounded_round_ndigits_guard (q : R) :
  Rabs q <= 1 + 1 / 10 ^ 6 -> -1 <= Rounded.round_ndigits q 5 <= 1.
Proof.
  intros Hq. apply Rabs_le_between in Hq. unfold Rounded.round_ndigits.
  set (k := round_half_even (q * 10 ^ 5)).
  destruct (round_half_even_spec (q * 10 ^ 5)) as [Hk _]. fold k in Hk.
  assert (K : (-100000 <= k <= 100000)%Z).
  { assert (H1 : IZR k < IZR 100001) by lra.
    assert (H2 : IZR (-100001) < IZR k) by lra.
    apply lt_IZR in H1, H2. lia. }
  pose proof u53_bounds as U.
  destruct (Z.eq_dec k 100000) as [->|N1].
  { replace (IZR 100000 / 10 ^ 5) with (IZR 1) by lra.
    rewrite round53_IZR by lia. lra. }
  destruct (Z.eq_dec k (-100000)) as [->|N2].
  { replace (IZR (-100000) / 10 ^ 5) with (IZR (-1)) by lra.
    rewrite round53_IZR by lia. lra. }
  assert (K' : (-99999 <= k <= 99999)%Z) by lia.
  destruct K' as [K1 K2]. apply IZR_le in K1, K2.
  pose proof (round53_bounds (IZR k / 10 ^ 5)) as [_ Hr].
  assert (Ha : Rabs (IZR k / 10 ^ 5) <= 99999 / 100000) by (apply Rabs_le; lra).
  pose proof (Rabs_pos (IZR k / 10 ^ 5)) as P.
  assert (Hb : Rabs (round53 (IZR k / 10 ^ 5)) <= 1) by nra.
  apply Rabs_le_between in Hb. lra.
Qed.

Lemma rounded_math_acos_in_range (x : R) :
  -1 <= x <= 1 -> Rounded.math_acos x = Ok (round53 (acos x)).
Proof.
  intros H. unfold Rounded.math_acos.
  destruct (Rlt_dec x (-1)); [lra|]. destruct (Rlt_dec 1 x); [lra|]. reflexivity.
Qed.

Lemma rounded_dot_product_eq (v w : tuple) :
  length v = length w ->
  Rounded.dot_product v w = Ok (Rounded.sum (rounded_products v w)).
Proof.
  intros H. unfold Rounded.dot_product. rewrite H, Nat.eqb_refl. reflexivity.
Qed.

(** [angle_vectors] on vectors of one length whose computed magnitudes are
    not 0. *)
Lemma rounded_angle_vectors_nonzero (v w : tuple) :
  length v = length w ->
  let d := Rounded.sum (rounded_products v w) in
  let mv := round53 (sqrt (Rounded.sum (rounded_squares v))) in
  let mw := round53 (sqrt (Rounded.sum (rounded_squares w))) in
  mv <> 0 -> mw <> 0 -> round53 (mv * mw) <> 0 ->
  Rounded.angle_vectors v w =
  Rounded.math_acos (Rounded.round_ndigits (round53 (d / round53 (mv * mw))) 5).
Proof.
  intros Hl d mv mw Hv Hw Hp. unfold Rounded.angle_vectors.
  rewrite Hl, Nat.eqb_refl. simpl negb. cbv iota.
  rewrite rounded_dot_product_eq by exact Hl.
  rewrite !rounded_magnitude_eq, ?bind_Ok. fold mv mw d.
  destruct (Req_dec_T mv 0) as [E|_]; [contradiction|].
  rewrite ?bind_Ok.
  destruct (Req_dec_T mw 0) as [E|_]; [contradiction|].
  rewrite ?bind_Ok. unfold Rounded.truediv.
  destruct (Req_dec_T (round53 (mv * mw)) 0) as [E|_]; [contradiction|].
  rewrite ?bind_Ok. reflexivity.
Qed.

(** ** Rounded vectors *)

Lemma rounded_cross_product_eq (v0 v1 v2 w0 w1 w2 : R) :
  Rounded.cross_product [v0; v1; v2] [w0; w1; w2] =
  Ok [round53 (round53 (v1 * w2) - round53 (v2 * w1));
      round53 (round53 (v2 * w0) - round53 (v0 * w2));
      round53 (round53 (v0 * w1) - round53 (v1 * w0))].
Proof. reflexivity. Qed.

Lemma rounded_to_vector_valid (lat long : R) :
  valid_latitude lat -> valid_longitude long ->
  Rounded.to_vector lat long =
  Ok [round53 (round53 (R_km * Rounded.math_cos (Rounded.math_radians lat)) *
               Rounded.math_cos (Rounded.math_radians long));
      round53 (round53 (R_km * Rounded.math_cos (Rounded.math_radians lat)) *
               Rounded.math_sin (Rounded.math_radians long));
      round53 (R_km * Rounded.math_sin (Rounded.math_radians lat))].
Proof.
  unfold valid_latitude, valid_longitude, Rounded.to_vector. intros H1 H2.
  destruct (Rlt_dec lat (-90)); [lra|]. destruct (Rlt_dec 90 lat); [lra|].
  destruct (Rlt_dec long (-180)); [lra|]. destruct (Rlt_dec 180 long); [lra|].
  reflexivity.
Qed.

Lemma round53_neq_0 (x : R) : x <> 0 -> round53 x <> 0.
Proof. intros H E. apply H. now apply (proj1 (round53_eq_0 x)). Qed.

(** A vector with a component that is not 0 has a computed magnitude that is
    not 0: nothing underflows. *)
Lemma rounded_magnitude_pos (v : tuple) :
  sum (squares v) <> 0 ->
  exists m, Rounded.magnitude v = Ok m /\ 0 < m.
Proof.
  intros H. rewrite rounded_magnitude_eq. eexists. split; [reflexivity|].
  pose proof (rounded_magnitude_lower v) as L.
  pose proof (sum_squares_nonneg v) as N.
  assert (S : 0 < sqrt (sum (squares v))) by (apply sqrt_lt_R0; lra).
  pose proof (pow_1mu_pos (length v + 2)) as P.
  eapply Rlt_le_trans; [|exact L]. now apply Rmult_lt_0_compat.
Qed.

Lemma sum_squares3 (a b c : R) : sum (squares [a; b; c]) = a * a + b * b + c * c.
Proof. unfold squares. simpl map. rewrite sum3. ring. Qed.

Lemma rounded_sum_squares_all_zero (v : tuple) :
  Forall (fun a => a = 0) v -> Rounded.sum (rounded_squares v) = 0.
Proof.
  unfold Rounded.sum. induction 1 as [|a v Ha _ IH]; [reflexivity|].
  rewrite Ha. unfold rounded_squares. cbn [map fold_left].
  rewrite Rmult_0_l, round53_0, Rplus_0_l, round53_0. exact IH.
Qed.

Lemma rounded_cross_component (p q r s : R) :
  round53 (round53 (p * q) - round53 (r * s)) =
  - round53 (round53 (s * r) - round53 (q * p)).
Proof.
  rewrite <- round53_opp. f_equal.
  rewrite (Rmult_comm p q), (Rmult_comm r s). ring.
Qed.

Lemma rounded_cross_self (a b : R) :
  round53 (round53 (a * b) - round53 (b * a)) = 0.
Proof.
  rewrite (Rmult_comm b a). unfold Rminus. rewrite Rplus_opp_r. apply round53_0.
Qed.

(** ** The argument of the inverse cosine, on floats *)

(** C4, amended.  On floats, as long as no operation overflows or
    underflows: for vectors [v] and [w] of one length, of at most [10 ** 9]
    components and of nonzero magnitude, the dot product, the magnitudes and
    the division are defined, the quotient is at most one part in a million
    beyond [[-1, 1]], its rounding to 5 decimals lies in [[-1, 1]], and
    [angle_vectors] returns the inverse cosine: the domain error of
    [math.acos] is not reached. *)
Theorem angle_vectors_acos_argument (v w : tuple) :
  length v = length w -> (Z.of_nat (length v) <= 10 ^ 9)%Z ->
  Rounded.magnitude v <> Ok 0 -> Rounded.magnitude w <> Ok 0 ->
  exists d mv mw q,
    Rounded.dot_product v w = Ok d /\
    Rounded.magnitude v = Ok mv /\ Rounded.magnitude w = Ok mw /\
    Rounded.truediv d (round53 (mv * mw)) = Ok q /\
    Rabs q <= 1 + 1 / 10 ^ 6 /\
    -1 <= Rounded.round_ndigits q 5 <= 1 /\
    Rounded.math_acos (Rounded.round_ndigits q 5) =
    Ok (round53 (acos (Rounded.round_ndigits q 5))) /\
    Rounded.angle_vectors v w = Ok (round53 (acos (Rounded.round_ndigits q 5))).
Proof.
  intros Hl Hn Hv Hw.
  rewrite rounded_magnitude_eq in Hv, Hw.
  set (d := Rounded.sum (rounded_products v w)).
  set (mv := round53 (sqrt (Rounded.sum (rounded_squares v)))) in *.
  set (mw := round53 (sqrt (Rounded.sum (rounded_squares w)))) in *.
  assert (Hv' : mv <> 0) by congruence.
  assert (Hw' : mw <> 0) by congruence.
  destruct (rounded_quotient_bound v w Hl Hn Hv' Hw') as [Hp Hq].
  fold d mv mw in Hp, Hq.
  pose proof (rounded_round_ndigits_guard _ Hq) as Hr.
  exists d, mv, mw, (round53 (d / round53 (mv * mw))).
  split; [now apply rounded_dot_product_eq|].
  split; [apply rounded_magnitude_eq|]. split; [apply rounded_magnitude_eq|].
  split.
  { unfold Rounded.truediv. destruct (Req_dec_T _ 0); [contradiction|reflexivity]. }
  split; [exact Hq|]. split; [exact Hr|].
  split; [now apply rounded_math_acos_in_range|].
  rewrite (rounded_angle_vectors_nonzero v w Hl Hv' Hw' Hp).
  now apply rounded_math_acos_in_range.
Qed.

Lemma angle_vectors_acos_argument_witness :
  exists d mv mw q,
    Rounded.dot_product [1; 0; 0] [1; 1; 1] = Ok d /\
    Rounded.magnitude [1; 0; 0] = Ok mv /\ Rounded.magnitude [1; 1; 1] = Ok mw /\
    Rounded.truediv d (round53 (mv * mw)) = Ok q /\
    Rabs q <= 1 + 1 / 10 ^ 6 /\
    -1 <= Rounded.round_ndigits q 5 <= 1 /\
    Rounded.math_acos (Rounded.round_ndigits q 5) =
    Ok (round53 (acos (Rounded.round_ndigits q 5))) /\
    Rounded.angle_vectors [1; 0; 0] [1; 1; 1] =
    Ok (round53 (acos (Rounded.round_ndigits q 5))).
Proof.
  apply (angle_vectors_acos_argument [1; 0; 0] [1; 1; 1]).
  - reflexivity.
  - simpl. lia.
  - intros H. destruct (rounded_magnitude_pos [1; 0; 0]) as (m & Hm & Pm).
    + rewrite sum_squares3. lra.
    + rewrite Hm in H. injection H as H. lra.
  - intros H. destruct (rounded_magnitude_pos [1; 1; 1]) as (m & Hm & Pm).
    + rewrite sum_squares3. lra.
    + rewrite Hm in H. injection H as H. lra.
Defined.

(** ** The constants of [math] as floats *)

(** [math.pi] is [0x1.921fb54442d18p+1], below the number pi. *)
Lemma math_pi_eq : Rounded.math_pi = 884279719003555 / 281474976710656.
Proof.
  unfold Rounded.math_pi. pose proof PI_bounds_17 as P.
  rewrite (round53_eq PI 1 7074237752028440).
  - simpl. lra.
  - rewrite Rabs_pos_eq by lra. simpl. lra.
  - simpl. lra.
Qed.

Lemma math_pi_lt_PI :
  Rounded.math_pi < PI < Rounded.math_pi + 2 / 10 ^ 16.
Proof. rewrite math_pi_eq. pose proof PI_bounds_17. lra. Qed.

(** [pi / 180.0] is [0x1.1df46a2529d39p-6]. *)
Lemma deg_to_rad_eq :
  round53 (Rounded.math_pi / 180) = 5030569068109113 / 288230376151711744.
Proof.
  rewrite math_pi_eq.
  rewrite (round53_eq _ (-6) 5030569068109113).
  - simpl. lra.
  - rewrite Rabs_pos_eq by lra. simpl. lra.
  - simpl. lra.
Qed.

(** [180.0 / pi] is [0x1.ca5dc1a63c1f8p+5]. *)
Lemma rad_to_deg_eq :
  round53 (180 / Rounded.math_pi) = 1007958012753983 / 17592186044416.
Proof.
  rewrite math_pi_eq.
  rewrite (round53_eq _ 5 8063664102031864).
  - simpl. lra.
  - rewrite Rabs_pos_eq by lra. simpl. lra.
  - simpl. lra.
Qed.

(** [math.radians(90)] is [math.pi / 2], the float [0x1.921fb54442d18p+0]. *)
Lemma math_radians_90_eq : Rounded.math_radians 90 = Rounded.math_pi / 2.
Proof.
  unfold Rounded.math_radians. rewrite deg_to_rad_eq, math_pi_eq.
  rewrite (round53_eq _ 0 7074237752028440).
  - simpl. lra.
  - rewrite Rabs_pos_eq by lra. simpl. lra.
  - simpl. lra.
Qed.

Lemma math_radians_neg90_eq : Rounded.math_radians (-90) = - (Rounded.math_pi / 2).
Proof.
  rewrite <- math_radians_90_eq. unfold Rounded.math_radians.
  rewrite <- round53_opp. f_equal. ring.
Qed.

Lemma math_radians_0_eq : Rounded.math_radians 0 = 0.
Proof.
  unfold Rounded.math_radians. rewrite Rmult_0_l. apply round53_0.
Qed.

(** [math.acos(0.0)] is [math.pi / 2] too. *)
Lemma round53_half_PI : round53 (PI / 2) = Rounded.math_pi / 2.
Proof.
  rewrite math_pi_eq. pose proof PI_bounds_17 as P.
  rewrite (round53_eq _ 0 7074237752028440).
  - simpl. lra.
  - rewrite Rabs_pos_eq by lra. simpl. lra.
  - simpl. lra.
Qed.

(** [math.degrees(math.pi / 2)] is [90.0]. *)
Lemma math_degrees_half_pi : Rounded.math_degrees (Rounded.math_pi / 2) = 90.
Proof.
  unfold Rounded.math_degrees. rewrite rad_to_deg_eq, math_pi_eq.
  rewrite (round53_eq _ 6 6333186975989760).
  - simpl. lra.
  - rewrite Rabs_pos_eq by lra. simpl. lra.
  - simpl. lra.
Qed.

(** ** Sines and cosines at the poles *)

Lemma cos_lower_2 (a : R) : -2 <= a <= 2 -> 1 - a ^ 2 / 2 <= cos a.
Proof.
  intros H. pose proof (pre_cos_bound a 0 ltac:(lra) ltac:(lra)) as [L _].
  unfold cos_approx in L. cbn [Nat.mul Nat.add sum_f_R0] in L.
  unfold cos_term in L. cbn [Nat.mul Nat.add] in L.
  rewrite !INR_fact_S in L. cbn [fact] in L. rewrite !S_INR in L.
  cbn [INR pow] in L. lra.
Qed.

(** The gap between pi / 2 and the float [math.pi / 2]. *)
Lemma half_pi_gap :
  0 < PI / 2 - Rounded.math_pi / 2 < 1 / 10 ^ 16.
Proof. pose proof math_pi_lt_PI. lra. Qed.

(** [math.cos(math.radians(90))] is not 0: it is the cosine of a float
    below pi / 2. *)
Lemma math_cos_pole : 0 < Rounded.math_cos (Rounded.math_pi / 2) < 2 / 10 ^ 16.
Proof.
  unfold Rounded.math_cos. pose proof half_pi_gap as G.
  pose proof PI_bounds_17 as P.
  set (delta := PI / 2 - Rounded.math_pi / 2) in *.
  replace (Rounded.math_pi / 2) with (PI / 2 - delta) by (unfold delta; ring).
  rewrite cos_shift.
  assert (S1 : 0 < sin delta) by (apply sin_gt_0; lra).
  assert (S2 : sin delta < delta) by (apply sin_lt_x; lra).
  split; [now apply round53_pos|].
  pose proof (round53_nonneg (sin delta) ltac:(lra)) as [_ H].
  pose proof u53_bounds. nra.
Qed.

Lemma round53_below_1 (x : R) : 1 - 1 / 10 ^ 17 <= x <= 1 -> round53 x = 1.
Proof.
  intros [H1 [H2|H2]].
  - rewrite (round53_eq x (-1) 9007199254740992).
    + simpl. lra.
    + rewrite Rabs_pos_eq by lra. simpl. lra.
    + simpl. lra.
  - rewrite H2. change 1 with (IZR 1). apply round53_IZR. lia.
Qed.

(** [math.sin(math.radians(90))] is [1.0]. *)
Lemma math_sin_pole : Rounded.math_sin (Rounded.math_pi / 2) = 1.
Proof.
  unfold Rounded.math_sin. pose proof half_pi_gap as G.
  set (delta := PI / 2 - Rounded.math_pi / 2) in *.
  replace (Rounded.math_pi / 2) with (PI / 2 - delta) by (unfold delta; ring).
  rewrite sin_shift. apply round53_below_1.
  pose proof (COS_bound delta) as [_ C1].
  pose proof (cos_lower_2 delta) as C2.
  split; [|exact C1]. nra.
Qed.

Lemma math_cos_neg (x : R) : Rounded.math_cos (- x) = Rounded.math_cos x.
Proof. unfold Rounded.math_cos. now rewrite cos_neg. Qed.

Lemma math_sin_neg (x : R) : Rounded.math_sin (- x) = - Rounded.math_sin x.
Proof. unfold Rounded.math_sin. now rewrite sin_neg, round53_opp. Qed.

Lemma math_cos_0 : Rounded.math_cos 0 = 1.
Proof.
  unfold Rounded.math_cos. rewrite cos_0. change 1 with (IZR 1).
  apply round53_IZR. lia.
Qed.

Lemma math_sin_0 : Rounded.math_sin 0 = 0.
Proof. unfold Rounded.math_sin. rewrite sin_0. apply round53_0. Qed.

(** Products by 0 and by 1, and differences with 0, are exact. *)
Ltac fl_simpl :=
  repeat (progress
    rewrite ?Rmult_0_l, ?Rmult_0_r, ?Rmult_1_r, ?Rmult_1_l, ?round53_0,
            ?Rminus_0_r, ?Rminus_0_l, ?Ropp_0, ?Ropp_involutive,
            ?Ropp_mult_distr_l_reverse, ?Ropp_mult_distr_r_reverse,
            ?round53_opp).

(** ** The north tangent at a pole *)

(** The vector of a pole leans toward the meridian of [long1]: [x] and [y]
    are not both 0. *)
Lemma rounded_to_vector_pole (lat long : R) :
  lat = 90 \/ lat = -90 -> valid_longitude long ->
  exists x y z, Rounded.to_vector lat long = Ok [x; y; z] /\
                z <> 0 /\ (x <> 0 \/ y <> 0).
Proof.
  intros Hp Hl.
  assert (Hv : valid_latitude lat) by (unfold valid_latitude; lra).
  rewrite rounded_to_vector_valid by assumption.
  eexists _, _, _. split; [reflexivity|].
  pose proof math_cos_pole as [C0 _].
  assert (Hc : Rounded.math_cos (Rounded.math_radians lat) <> 0).
  { destruct Hp as [-> | ->].
    - rewrite math_radians_90_eq. lra.
    - rewrite math_radians_neg90_eq, math_cos_neg. lra. }
  assert (Hs : Rounded.math_sin (Rounded.math_radians lat) <> 0).
  { destruct Hp as [-> | ->].
    - rewrite math_radians_90_eq, math_sin_pole. lra.
    - rewrite math_radians_neg90_eq, math_sin_neg, math_sin_pole. lra. }
  assert (HA : round53 (R_km * Rounded.math_cos (Rounded.math_radians lat)) <> 0).
  { apply round53_neq_0. unfold R_km. nra. }
  split.
  { apply round53_neq_0. unfold R_km. nra. }
  set (t := Rounded.math_radians long).
  destruct (Req_dec (cos t) 0) as [E|E].
  - right. apply round53_neq_0. apply Rmult_integral_contrapositive.
    split; [exact HA|]. unfold Rounded.math_sin. apply round53_neq_0.
    intros S. pose proof (sin2_cos2 t) as Q. rewrite E, S in Q.
    unfold Rsqr in Q. lra.
  - left. apply round53_neq_0. apply Rmult_integral_contrapositive.
    split; [exact HA|]. unfold Rounded.math_cos. now apply round53_neq_0.
Qed.

(** The north tangent of such a vector is not the zero vector. *)
Lemma rounded_north_tangent_nonzero (x y z : R) :
  z <> 0 -> x <> 0 \/ y <> 0 ->
  exists n north,
    Rounded.cross_product [x; y; z] [0; 0; 1] = Ok n /\
    Rounded.cross_product n [x; y; z] = Ok north /\
    length north = 3%nat /\ sum (squares north) <> 0.
Proof.
  intros Hz Hxy. rewrite rounded_cross_product_eq.
  eexists _, _. split; [reflexivity|]. rewrite rounded_cross_product_eq.
  split; [reflexivity|]. split; [reflexivity|].
  fl_simpl. rewrite sum_squares3.
  match goal with |- ?a * ?a + ?b * ?b + ?c * ?c <> 0 =>
    set (p := a); set (q := b); set (r := c) end.
  destruct Hxy as [Hx|Hy].
  - assert (P : p <> 0).
    { unfold p. repeat (apply round53_neq_0 || apply Ropp_neq_0_compat
                        || (apply Rmult_integral_contrapositive; split)
                        || assumption). }
    nra.
  - assert (Q : q <> 0).
    { unfold q. repeat (apply round53_neq_0 || apply Ropp_neq_0_compat
                        || (apply Rmult_integral_contrapositive; split)
                        || assumption). }
    nra.
Qed.

Lemma rounded_cross_product_length (v w c : tuple) :
  Rounded.cross_product v w = Ok c -> length c = 3%nat.
Proof.
  unfold Rounded.cross_product.
  destruct (negb (length v =? 3)%nat || negb (length w =? 3)%nat)%bool;
    [discriminate|]. intros [= <-]. reflexivity.
Qed.

(** From a point whose north tangent is not the zero vector, the direction
    that [direction_between_coordinates] returns has a magnitude that is not
    0: it is the tangent toward the target when that has a magnitude of 1 or
    more, and the north tangent otherwise. *)
Lemma rounded_direction_nonzero (lat1 long1 lat2 long2 x y z : R) (n north : tuple) :
  Rounded.to_vector lat1 long1 = Ok [x; y; z] ->
  valid_latitude lat2 -> valid_longitude long2 ->
  Rounded.cross_product [x; y; z] [0; 0; 1] = Ok n ->
  Rounded.cross_product n [x; y; z] = Ok north ->
  sum (squares north) <> 0 ->
  exists w m, Rounded.direction_between_coordinates lat1 long1 lat2 long2 = Ok w /\
              length w = 3%nat /\ Rounded.magnitude w = Ok m /\ 0 < m.
Proof.
  intros Hv H1 H2 Hn Hnorth Hs. unfold Rounded.direction_between_coordinates.
  rewrite Hv, (rounded_to_vector_valid lat2 long2 H1 H2), !bind_Ok.
  rewrite rounded_cross_product_eq, bind_Ok, rounded_cross_product_eq, bind_Ok.
  rewrite rounded_magnitude_eq, bind_Ok.
  match goal with |- context [Rlt_dec ?m 1] => destruct (Rlt_dec m 1) as [L|L] end.
  - rewrite Hn, bind_Ok, Hnorth.
    destruct (rounded_magnitude_pos north Hs) as (m & Hm & Pm).
    exists north, m. split; [reflexivity|].
    split; [apply (rounded_cross_product_length _ _ _ Hnorth)|]. now split.
  - eexists _, _. split; [reflexivity|]. split; [reflexivity|].
    split; [apply rounded_magnitude_eq|]. lra.
Qed.

(** C9, amended.  On floats the north tangent at a pole is not the zero
    vector: [math.cos(math.radians(90))] is the cosine of a float below
    pi / 2 and is not 0, so the vector of the pole leans toward the meridian
    of [long1].  The magnitudes of the north tangent and of the direction
    are not 0, the zero-magnitude convention of [angle_vectors] is not
    applied, and the bearing is the one the inverse cosine gives. *)
Theorem bearing_from_pole (lat1 long1 lat2 long2 : R) :
  lat1 = 90 \/ lat1 = -90 ->
  -180 <= long1 <= 180 -> -90 <= lat2 <= 90 -> -180 <= long2 <= 180 ->
  exists v n north w mw mn d q,
    Rounded.to_vector lat1 long1 = Ok v /\
    Rounded.cross_product v [0; 0; 1] = Ok n /\
    Rounded.cross_product n v = Ok north /\
    Rounded.direction_between_coordinates lat1 long1 lat2 long2 = Ok w /\
    Rounded.magnitude w = Ok mw /\ mw <> 0 /\
    Rounded.magnitude north = Ok mn /\ mn <> 0 /\
    Rounded.dot_product w north = Ok d /\
    Rounded.truediv d (round53 (mw * mn)) = Ok q /\
    -1 <= Rounded.round_ndigits q 5 <= 1 /\
    Rounded.angle_vectors w north =
      Ok (round53 (acos (Rounded.round_ndigits q 5))) /\
    Rounded.bearing_between_coordinates lat1 long1 lat2 long2 =
      Ok (let bearing :=
            Rounded.math_degrees (round53 (acos (Rounded.round_ndigits q 5))) in
          if Rlt_dec long2 long1 then round53 (360 - bearing) else bearing).
Proof.
  intros Hp Hl1 Hlat2 Hl2.
  destruct (rounded_to_vector_pole lat1 long1 Hp Hl1) as (x & y & z & Hv & Hz & Hxy).
  destruct (rounded_north_tangent_nonzero x y z Hz Hxy)
    as (n & north & Hn & Hnorth & Ln & Sn).
  destruct (rounded_direction_nonzero lat1 long1 lat2 long2 x y z n north
              Hv Hlat2 Hl2 Hn Hnorth Sn) as (w & mw & Hw & Lw & Mw & Pw).
  destruct (rounded_magnitude_pos north Sn) as (mn & Mn & Pn).
  assert (Hl : length w = length north) by congruence.
  assert (Hlen : (Z.of_nat (length w) <= 10 ^ 9)%Z) by (rewrite Lw; simpl; lia).
  pose proof Mw as Mw'. pose proof Mn as Mn'.
  rewrite rounded_magnitude_eq in Mw', Mn'.
  injection Mw' as Ew. injection Mn' as En.
  assert (Nw : round53 (sqrt (Rounded.sum (rounded_squares w))) <> 0) by lra.
  assert (Nn : round53 (sqrt (Rounded.sum (rounded_squares north))) <> 0) by lra.
  destruct (rounded_quotient_bound w north Hl Hlen Nw Nn) as [Hpn Hq].
  pose proof (rounded_round_ndigits_guard _ Hq) as Hr.
  pose proof (rounded_angle_vectors_nonzero w north Hl Nw Nn Hpn) as Ha.
  rewrite rounded_math_acos_in_range in Ha by exact Hr.
  rewrite Ew, En in *.
  exists [x; y; z], n, north, w, mw, mn, (Rounded.sum (rounded_products w north)),
    (round53 (Rounded.sum (rounded_products w north) / round53 (mw * mn))).
  split; [exact Hv|]. split; [exact Hn|]. split; [exact Hnorth|].
  split; [exact Hw|]. split; [exact Mw|]. split; [lra|].
  split; [exact Mn|]. split; [lra|].
  split; [now apply rounded_dot_product_eq|].
  split.
  { unfold Rounded.truediv. destruct (Req_dec_T _ 0); [contradiction|reflexivity]. }
  split; [exact Hr|]. split; [exact Ha|].
  unfold Rounded.bearing_between_coordinates.
  rewrite Hv, bind_Ok, Hn, bind_Ok, Hnorth, bind_Ok, Hw, bind_Ok, Ha, bind_Ok.
  cbv zeta. destruct (Rlt_dec long2 long1); reflexivity.
Qed.

Lemma bearing_from_pole_witness :
  exists v n north w mw mn d q,
    Rounded.to_vector 90 0 = Ok v /\
    Rounded.cross_product v [0; 0; 1] = Ok n /\
    Rounded.cross_product n v = Ok north /\
    Rounded.direction_between_coordinates 90 0 0 (-90) = Ok w /\
    Rounded.magnitude w = Ok mw /\ mw <> 0 /\
    Rounded.magnitude north = Ok mn /\ mn <> 0 /\
    Rounded.dot_product w north = Ok d /\
    Rounded.truediv d (round53 (mw * mn)) = Ok q /\
    -1 <= Rounded.round_ndigits q 5 <= 1 /\
    Rounded.angle_vectors w north =
      Ok (round53 (acos (Rounded.round_ndigits q 5))) /\
    Rounded.bearing_between_coordinates 90 0 0 (-90) =
      Ok (let bearing :=
            Rounded.math_degrees (round53 (acos (Rounded.round_ndigits q 5))) in
          if Rlt_dec (-90) 0 then round53 (360 - bearing) else bearing).
Proof.
  apply (bearing_from_pole 90 0 0 (-90)); lra.
Defined.

(** ** From the north pole at longitude 0 to the equator at longitude -90 *)

Lemma round53_6371 : round53 6371 = 6371.
Proof. apply round53_IZR. lia. Qed.

Lemma round53_6371_sq : round53 (6371 * 6371) = 40589641.
Proof.
  replace (6371 * 6371) with (IZR 40589641) by lra. apply round53_IZR. lia.
Qed.

Lemma round53_6371_cube : round53 (round53 40589641 * 6371) = 258596602811.
Proof.
  rewrite (round53_IZR 40589641) by lia.
  replace (40589641 * 6371) with (IZR 258596602811) by lra.
  apply round53_IZR. lia.
Qed.

(** A rounding changes a positive number by less than one part in a
    thousand. *)
Lemma round53_crude (t : R) :
  0 < t -> 0 < round53 t /\ 999 / 1000 * t <= round53 t <= 1001 / 1000 * t.
Proof.
  intros Ht. split; [now apply round53_pos|].
  pose proof (round53_nonneg t (Rlt_le _ _ Ht)) as H.
  pose proof u53_bounds as U. nra.
Qed.

Lemma pow_1mu_crude (n : nat) : (n <= 1000)%nat -> 9999 / 10000 <= (1 - u53) ^ n.
Proof.
  intros Hn. pose proof u53_bounds as U.
  apply Rle_trans with (1 - INR n * u53); [|apply bernoulli; lra].
  assert (H : INR n <= 1000).
  { replace 1000 with (INR 1000) by (rewrite INR_IZR_INZ; reflexivity).
    now apply le_INR. }
  pose proof (pos_INR n). nra.
Qed.

Lemma pow_1pu_crude (n : nat) : (n <= 1000)%nat -> (1 + u53) ^ n <= 1001 / 1000.
Proof.
  intros Hn. pose proof (pow_1mu_crude n Hn) as L.
  pose proof (pow_1pu_1mu n) as P. pose proof (pow_1pu_ge_1 n) as G.
  assert (H : (1 + u53) ^ n * (9999 / 10000) <= 1) by nra. lra.
Qed.

(** The two vectors: the pole leans toward longitude 0 by [x], the target
    lies on the equator. *)
Lemma rounded_to_vector_90_0_and_0_neg90 :
  exists x A,
    0 < x <= 2 / 10 ^ 12 /\ 0 < A <= 2 / 10 ^ 12 /\
    Rounded.to_vector 90 0 = Ok [x; 0; 6371] /\
    Rounded.to_vector 0 (-90) = Ok [A; - (6371); 0].
Proof.
  rewrite !rounded_to_vector_valid by (unfold valid_latitude, valid_longitude; lra).
  rewrite math_radians_90_eq, math_radians_0_eq, math_radians_neg90_eq.
  rewrite math_cos_neg, math_sin_neg, math_cos_0, math_sin_0, math_sin_pole.
  unfold R_km. fl_simpl. rewrite ?round53_6371. fl_simpl.
  pose proof math_cos_pole as [C0 C1].
  set (c := Rounded.math_cos (Rounded.math_pi / 2)) in *.
  assert (P : 0 < 6371 * c) by lra.
  destruct (round53_crude _ P) as [PA BA].
  destruct (round53_crude _ PA) as [Px Bx].
  eexists _, _. split; [|split; [|split; reflexivity]]; lra.
Qed.

(** The north tangent at the leaning pole. *)
Lemma rounded_north_tangent_leaning (x : R) :
  0 < x <= 2 / 10 ^ 12 ->
  exists n g1 g3,
    Rounded.cross_product [x; 0; 6371] [0; 0; 1] = Ok n /\
    Rounded.cross_product n [x; 0; 6371] = Ok [- g1; 0; g3] /\
    0 < g1 /\ 0 <= g3 <= g1.
Proof.
  intros Hx. rewrite rounded_cross_product_eq. fl_simpl.
  match goal with |- exists n g1 g3, Ok ?t = Ok n /\ _ => exists t end.
  rewrite rounded_cross_product_eq. fl_simpl.
  eexists _, _. split; [reflexivity|]. split; [reflexivity|].
  destruct (round53_crude x ltac:(lra)) as [P1 B1].
  destruct (round53_crude _ P1) as [P2 B2].
  set (x2 := round53 (round53 x)) in *.
  assert (Q1 : 0 < x2 * 6371) by lra.
  destruct (round53_crude _ Q1) as [P3 B3].
  destruct (round53_crude _ P3) as [P4 B4].
  assert (Q2 : 0 < x2 * x) by nra.
  destruct (round53_crude _ Q2) as [P5 B5].
  destruct (round53_crude _ P5) as [P6 B6].
  split; [exact P4|]. split; [lra|]. nra.
Qed.

(** The tangent toward the target: its second component is about
    [- 6371 ** 3], so its magnitude is far above 1. *)
Lemma rounded_tangent_leaning (x A : R) :
  0 < x <= 2 / 10 ^ 12 -> 0 < A <= 2 / 10 ^ 12 ->
  exists c e1 e2 e3,
    Rounded.cross_product [x; 0; 6371] [A; - (6371); 0] = Ok c /\
    Rounded.cross_product c [x; 0; 6371] = Ok [e1; - e2; - e3] /\
    0 <= e1 <= 1 /\ 10 ^ 11 <= e2 /\ 0 <= e3 <= 1.
Proof.
  intros Hx HA. rewrite rounded_cross_product_eq. fl_simpl.
  rewrite round53_6371_sq.
  match goal with |- exists c e1 e2 e3, Ok ?t = Ok c /\ _ => exists t end.
  rewrite rounded_cross_product_eq. fl_simpl. rewrite round53_6371_cube.
  match goal with |- context [round53 (- ?a - ?b)] =>
    replace (- a - b) with (- (a + b)) by ring end.
  rewrite round53_opp.
  eexists _, _, _. split; [reflexivity|]. split; [reflexivity|].
  assert (Q1 : 0 < 6371 * A) by lra.
  destruct (round53_crude _ Q1) as [P1 B1].
  destruct (round53_crude _ P1) as [P2 B2].
  set (b2 := round53 (round53 (6371 * A))) in *.
  assert (Q2 : 0 < x * 6371) by lra.
  destruct (round53_crude _ Q2) as [P3 B3].
  destruct (round53_crude _ P3) as [P4 B4].
  set (b3 := round53 (round53 (x * 6371))) in *.
  assert (Q3 : 0 < b2 * 6371) by lra.
  destruct (round53_crude _ Q3) as [P5 B5].
  destruct (round53_crude _ P5) as [P6 B6].
  assert (Q4 : 0 < b3 * x) by nra.
  destruct (round53_crude _ Q4) as [P7 B7].
  assert (Q5 : 0 < round53 (b3 * x) + 258596602811) by lra.
  destruct (round53_crude _ Q5) as [P8 B8].
  assert (Q6 : 0 < b2 * x) by nra.
  destruct (round53_crude _ Q6) as [P9 B9].
  destruct (round53_crude _ P9) as [P10 B10].
  assert (Ub2 : b2 <= 2 / 10 ^ 8) by lra.
  assert (Ub2x : b2 * x <= 1 / 2) by nra.
  repeat split; lra.
Qed.

Lemma sqrt_ge_component (a b c : R) : 0 <= b -> b <= sqrt (a * a + b * b + c * c).
Proof.
  intros Hb. rewrite <- (sqrt_square b) at 1 by exact Hb.
  apply sqrt_le_1_alt. nra.
Qed.

(** A tangent along the second axis and a north tangent in the plane of the
    first and third axes: the quotient rounds to 0 and the angle is
    [math.pi / 2]. *)
Lemma rounded_angle_perpendicular (e1 e2 e3 g1 g3 : R) :
  0 <= e1 <= 1 -> 10 ^ 11 <= e2 -> 0 <= e3 <= 1 -> 0 < g1 -> 0 <= g3 <= g1 ->
  (exists m, Rounded.magnitude [e1; - e2; - e3] = Ok m /\ 1 <= m) /\
  Rounded.angle_vectors [e1; - e2; - e3] [- g1; 0; g3] = Ok (Rounded.math_pi / 2).
Proof.
  intros H1 H2 H3 Hg1 Hg3.
  set (r := [e1; - e2; - e3]). set (nv := [- g1; 0; g3]).
  pose proof (rounded_magnitude_lower r) as Lr.
  pose proof (rounded_magnitude_lower nv) as Ln.
  change (length r + 2)%nat with 5%nat in Lr.
  change (length nv + 2)%nat with 5%nat in Ln.
  pose proof (pow_1mu_crude 5 ltac:(lia)) as K5.
  assert (Sr : e2 <= sqrt (sum (squares r))).
  { unfold r. rewrite sum_squares3.
    replace (- e2 * - e2) with (e2 * e2) by ring.
    replace (- e3 * - e3) with (e3 * e3) by ring.
    apply sqrt_ge_component. lra. }
  assert (Sn : g1 <= sqrt (sum (squares nv))).
  { unfold nv. rewrite sum_squares3.
    replace (- g1 * - g1 + 0 * 0 + g3 * g3) with (0 * 0 + g1 * g1 + g3 * g3) by ring.
    apply sqrt_ge_component. lra. }
  set (mr := round53 (sqrt (Rounded.sum (rounded_squares r)))) in *.
  set (mn := round53 (sqrt (Rounded.sum (rounded_squares nv)))) in *.
  assert (Br : 9999 / 10000 * e2 <= mr) by nra.
  assert (Bn : 9999 / 10000 * g1 <= mn) by nra.
  split.
  { exists mr. split; [apply rounded_magnitude_eq|]. lra. }
  assert (Pr : 0 < mr) by lra. assert (Pn : 0 < mn) by lra.
  assert (Pm : 0 < mr * mn) by nra.
  destruct (round53_crude _ Pm) as [Pp Bp].
  set (p := round53 (mr * mn)) in *.
  assert (Lp : 10 ^ 10 * g1 <= p).
  { assert (H : 9999 / 10000 * e2 * (9999 / 10000 * g1) <= mr * mn)
      by (apply Rmult_le_compat; lra).
    nra. }
  set (d := Rounded.sum (rounded_products r nv)).
  assert (Ud : Rabs d <= 3 * g1).
  { pose proof (rounded_sum_upper (rounded_products r nv)) as U1.
    rewrite rounded_products_map in U1.
    pose proof (sum_abs_round53 (products r nv)) as U2.
    change (length (map round53 (products r nv))) with 3%nat in U1.
    pose proof (pow_1pu_crude 3 ltac:(lia)) as K3.
    pose proof u53_bounds as U.
    assert (U3 : sum (map Rabs (products r nv)) <= 2 * g1).
    { unfold r, nv, products. simpl map. rewrite sum3. simpl fst. simpl snd.
      rewrite Rmult_0_r, Rabs_R0.
      rewrite !Rabs_mult, !Rabs_Ropp, (Rabs_pos_eq e1), (Rabs_pos_eq g1),
        (Rabs_pos_eq e3), (Rabs_pos_eq g3) by lra.
      nra. }
    assert (U4 : 0 <= sum (map Rabs (map round53 (products r nv)))).
    { apply sum_nonneg. apply Forall_forall. intros y Hy.
      apply in_map_iff in Hy. destruct Hy as (z & <- & _). apply Rabs_pos. }
    set (S1 := sum (map Rabs (map round53 (products r nv)))) in *.
    set (S2 := sum (map Rabs (products r nv))) in *.
    assert (A1 : (1 + u53) ^ 3 * S1 <= 1001 / 1000 * S1)
      by (apply Rmult_le_compat_r; lra).
    assert (A2 : (1 + u53) * S2 <= (1 + u53) * (2 * g1))
      by (apply Rmult_le_compat_l; lra).
    assert (A3 : (1 + u53) * (2 * g1) <= 1001 / 1000 * (2 * g1))
      by (apply Rmult_le_compat_r; lra).
    unfold d. rewrite rounded_products_map. lra. }
  assert (Hl : length r = length nv) by reflexivity.
  rewrite (rounded_angle_vectors_nonzero r nv Hl) by (fold mr mn p; lra).
  fold mr mn p d.
  assert (Hq : Rabs (round53 (d / p)) <= 1 / 10 ^ 9).
  { pose proof (round53_bounds (d / p)) as [_ Hb].
    assert (Hdp : Rabs (d / p) <= 3 / 10 ^ 10).
    { unfold Rdiv. rewrite Rabs_mult, Rabs_inv, (Rabs_pos_eq p) by lra.
      apply Rmult_le_reg_r with p; [exact Pp|].
      rewrite Rmult_assoc, Rinv_l by lra. nra. }
    pose proof u53_bounds as U. pose proof (Rabs_pos (d / p)). nra. }
  apply Rabs_le_between in Hq.
  assert (Hr : Rounded.round_ndigits (round53 (d / p)) 5 = 0).
  { unfold Rounded.round_ndigits.
    rewrite (round_half_even_near _ 0) by lra.
    replace (0 / 10 ^ 5) with 0 by lra. apply round53_0. }
  rewrite Hr, rounded_math_acos_in_range by lra.
  now rewrite acos_0, round53_half_PI.
Qed.

(** C9 fails as stated on floats.  From the north pole at longitude 0 to the
    point of the equator at longitude -90 the target lies west, so
    [long2 < long1] and C9 gives 360.  The vector of the pole is
    [(x, 0, 6371)] with [x] about [3.9e-13], the north tangent is about
    [(-2.5e-9, 0, 1.5e-25)] and not the zero vector, the direction is about
    [(1.6e-5, -2.6e11, -1e-21)], the quotient rounds to 0, the unsigned
    bearing is 90 and the function returns [360 - 90 = 270]. *)
Lemma bearing_90_0_0_neg90 :
  (-90 < 0) /\
  270 <> 360 /\
  (exists v n north m,
     Rounded.to_vector 90 0 = Ok v /\
     Rounded.cross_product v [0; 0; 1] = Ok n /\
     Rounded.cross_product n v = Ok north /\
     Rounded.magnitude north = Ok m /\ 0 < m) /\
  Rounded.bearing_between_coordinates 90 0 0 (-90) = Ok 270.
Proof.
  split; [lra|]. split; [lra|].
  destruct rounded_to_vector_90_0_and_0_neg90 as (x & A & Hx & HA & Hv & Hw).
  destruct (rounded_north_tangent_leaning x Hx) as (n & g1 & g3 & Hn & Hnorth & G1 & G3).
  destruct (rounded_tangent_leaning x A Hx HA) as (c & e1 & e2 & e3 & Hc & Hr & E1 & E2 & E3).
  destruct (rounded_angle_perpendicular e1 e2 e3 g1 g3 E1 E2 E3 G1 G3)
    as [(m & Hm & M1) Ha].
  split.
  { assert (S : sum (squares [- g1; 0; g3]) <> 0) by (rewrite sum_squares3; nra).
    destruct (rounded_magnitude_pos _ S) as (mn & Hmn & Pmn).
    exists [x; 0; 6371], n, [- g1; 0; g3], mn. repeat split; assumption. }
  unfold Rounded.bearing_between_coordinates, Rounded.direction_between_coordinates.
  rewrite Hv, Hw, !bind_Ok, Hn, !bind_Ok, Hnorth, !bind_Ok, Hc, !bind_Ok, Hr, !bind_Ok.
  rewrite Hm, bind_Ok.
  destruct (Rlt_dec m 1) as [L|_]; [lra|].
  rewrite bind_Ok, Ha, bind_Ok. cbv zeta.
  rewrite math_degrees_half_pi.
  destruct (Rlt_dec (-90) 0) as [_|N]; [|lra].
  replace (360 - 90) with (IZR 270) by lra. rewrite round53_IZR by lia. reflexivity.
Qed.

(** ** Defaults on degenerate inputs, and what precedes them *)

(** C7, amended.  On binary64, for vectors of one length: if [magnitude(v)]
    returns 0, or returns another value and [magnitude(w)] returns 0, then
    [angle_vectors] returns 0 and raises nothing.  [magnitude(v)] is
    evaluated first and what it raises, [angle_vectors] raises: with
    [v = (2.0 ** 600,)] the square overflows and the [OverflowError] comes
    even though [w = (0.0,)] has magnitude 0, while [angle_vectors(w, v)]
    returns 0.  It is not the only default on a degenerate input: when the
    tangent [cross(cross(v, w), v)] has a magnitude below 1, as for two
    identical points, [direction_between_coordinates] returns the north
    tangent [cross(cross(v, (0,0,1)), v)] and raises nothing either. *)
Theorem degenerate_input_defaults :
  (forall (libm_acos : PrimFloat.float -> PrimFloat.float)
          (v w : Binary64.tuple) (mv : PrimFloat.float),
     length v = length w ->
     Binary64.magnitude v = Ok mv ->
     PrimFloat.eqb mv PrimFloat.zero = true \/
     (exists mw, Binary64.magnitude w = Ok mw /\
                 PrimFloat.eqb mw PrimFloat.zero = true) ->
     Binary64.angle_vectors libm_acos v w = Ok PrimFloat.zero) /\
  (forall (libm_acos : PrimFloat.float -> PrimFloat.float)
          (v w : Binary64.tuple) (e : exn),
     length v = length w ->
     Binary64.magnitude v = Raise e ->
     Binary64.angle_vectors libm_acos v w = Raise e) /\
  (Binary64.magnitude [PrimFloat.zero] = Ok PrimFloat.zero /\
   Binary64.magnitude [Binary64.huge] =
     Raise (OverflowError "(34, 'Numerical result out of range')") /\
   forall libm_acos : PrimFloat.float -> PrimFloat.float,
     Binary64.angle_vectors libm_acos [Binary64.huge] [PrimFloat.zero] =
     Raise (OverflowError "(34, 'Numerical result out of range')") /\
     Binary64.angle_vectors libm_acos [PrimFloat.zero] [Binary64.huge] =
     Ok PrimFloat.zero) /\
  (forall lat1 long1 lat2 long2 : R,
     -90 <= lat1 <= 90 -> -180 <= long1 <= 180 ->
     -90 <= lat2 <= 90 -> -180 <= long2 <= 180 ->
     exists v w c t n d,
       to_vector lat1 long1 = Ok v /\ to_vector lat2 long2 = Ok w /\
       cross_product v w = Ok c /\ cross_product c v = Ok t /\
       cross_product v [0; 0; 1] = Ok n /\ cross_product n v = Ok d /\
       forall m, magnitude t = Ok m -> m < 1 ->
                 direction_between_coordinates lat1 long1 lat2 long2 = Ok d) /\
  (forall lat long : R,
     -90 <= lat <= 90 -> -180 <= long <= 180 ->
     exists v n d,
       to_vector lat long = Ok v /\
       cross_product v [0; 0; 1] = Ok n /\ cross_product n v = Ok d /\
       direction_between_coordinates lat long lat long = Ok d).
Proof.
  unfold PrimFloat.zero. split; [|split; [|split; [|split]]].
  - intros libm_acos v w mv Hl Hm Hz. unfold Binary64.angle_vectors.
    rewrite Hl, Nat.eqb_refl, Hm. simpl.
    destruct Hz as [Hz|(mw & Hw & Hz)]; [rewrite Hz; reflexivity|].
    match goal with |- context [PrimFloat.eqb mv ?z] =>
      destruct (PrimFloat.eqb mv z); [reflexivity|] end.
    rewrite Hw. simpl. rewrite Hz. reflexivity.
  - intros libm_acos v w e Hl Hm. unfold Binary64.angle_vectors.
    rewrite Hl, Nat.eqb_refl, Hm. reflexivity.
  - split; [vm_compute; reflexivity|]. split; [vm_compute; reflexivity|].
    intros libm_acos. split; vm_compute; reflexivity.
  - intros lat1 long1 lat2 long2 H1 H2 H3 H4.
    set (v := sphere_point lat1 long1). set (w := sphere_point lat2 long2).
    exists v, w, (cross v w), (tangent v w), (cross v [0; 0; 1]),
      (tangent v [0; 0; 1]).
    split; [now apply to_vector_valid|]. split; [now apply to_vector_valid|].
    split; [now apply cross_product_cross|].
    split; [now apply cross_product_cross|].
    split; [now apply cross_product_cross|].
    split; [now apply cross_product_cross|].
    intros m Hm Hlt. rewrite magnitude_eq in Hm.
    assert (E : sqrt (sum (squares (tangent v w))) = m) by congruence.
    rewrite direction_between_coordinates_valid by assumption.
    unfold direction_vector. fold v w. cbv zeta. rewrite E.
    destruct (Rlt_dec m 1); [reflexivity|contradiction].
  - intros lat long H1 H2. set (v := sphere_point lat long).
    exists v, (cross v [0; 0; 1]), (tangent v [0; 0; 1]).
    split; [now apply to_vector_valid|].
    split; [now apply cross_product_cross|].
    split; [now apply cross_product_cross|].
    rewrite direction_between_coordinates_valid by assumption.
    now rewrite direction_vector_same_point.
Qed.

Lemma degenerate_input_defaults_witness :
  Binary64.angle_vectors (fun x => x)
    [PrimFloat.zero; PrimFloat.zero; PrimFloat.zero]
    [PrimFloat.one; PrimFloat.two; PrimFloat.one] = Ok PrimFloat.zero.
Proof.
  apply (proj1 degenerate_input_defaults (fun x => x) _ _ PrimFloat.zero).
  - reflexivity.
  - vm_compute. reflexivity.
  - left. vm_compute. reflexivity.
Defined.

(** * Further properties of [geo.py] and [iss.py] *)

(** ** Vector algebra *)

(** X1.  Over the reals, and on floats as long as nothing overflows or
    underflows, [magnitude] never raises: the sum of squares is not negative.
    Its result is not negative, and is 0 exactly when every component is 0
    (so for the empty vector too).  Binary64 has both failures:
    [magnitude((2.0 ** 600,))] raises [OverflowError], and
    [magnitude((2.0 ** -600,))] is [0.0]. *)
Theorem magnitude_total :
  (forall v : tuple,
     exists m, magnitude v = Ok m /\ 0 <= m /\
               (m = 0 <-> Forall (fun a => a = 0) v)) /\
  (forall v : tuple,
     exists m, Rounded.magnitude v = Ok m /\ 0 <= m /\
               (m = 0 <-> Forall (fun a => a = 0) v)) /\
  Binary64.magnitude [Binary64.huge] =
    Raise (OverflowError "(34, 'Numerical result out of range')") /\
  Binary64.magnitude [Binary64.tiny] = Ok PrimFloat.zero.
Proof.
  split; [|split; [|split]].
  - intros v. exists (sqrt (sum (squares v))). split; [apply magnitude_eq|].
    split; [apply sqrt_pos|]. split.
    + intros H. apply sum_squares_zero.
      apply sqrt_eq_0; [apply sum_squares_nonneg | exact H].
    + intros H. rewrite (sum_squares_all_zero v H). apply sqrt_0.
  - intros v. rewrite rounded_magnitude_eq. eexists. split; [reflexivity|].
    split; [apply rounded_magnitude_nonneg|]. split.
    + intros H. apply sum_squares_zero.
      destruct (Req_dec (sum (squares v)) 0) as [E|N]; [exact E|].
      destruct (rounded_magnitude_pos v N) as (m & Hm & Pm).
      rewrite rounded_magnitude_eq in Hm. injection Hm as Hm. lra.
    + intros H. rewrite (rounded_sum_squares_all_zero v H), sqrt_0. apply round53_0.
  - vm_compute. reflexivity.
  - vm_compute. reflexivity.
Qed.

(** X2.  [magnitude] is absolutely homogeneous: scaling every component by
    [k] multiplies the magnitude by [|k|]. *)
Theorem magnitude_scale (k : R) (v : tuple) :
  exists m, magnitude v = Ok m /\ magnitude (scale k v) = Ok (Rabs k * m).
Proof.
  exists (sqrt (sum (squares v))). split; [apply magnitude_eq|].
  rewrite magnitude_eq, sum_squares_scale. f_equal.
  rewrite sqrt_mult_alt by nra.
  replace (k * k) with (Rsqr k) by reflexivity. now rewrite sqrt_Rsqr_abs.
Qed.

(** X3.  [dot_product] raises exactly when the lengths differ, and it is
    symmetric, the error included. *)
Theorem dot_product_symmetric (v w : tuple) :
  dot_product v w = dot_product w v /\
  (dot_product v w = Raise (ValueError "Vectors must have the same length") <->
   length v <> length w) /\
  (returns (dot_product v w) <-> length v = length w).
Proof.
  unfold dot_product.
  destruct (Nat.eqb_spec (length v) (length w)) as [E|E]; simpl.
  - rewrite <- E, Nat.eqb_refl. simpl. fold (products v w) (products w v).
    rewrite sum_products_comm. split; [reflexivity|].
    split; split; try congruence; try discriminate.
    intros _. apply returns_Ok.
  - assert (E' : (length w =? length v)%nat = false)
      by (apply Nat.eqb_neq; congruence).
    rewrite E'. simpl. split; [reflexivity|].
    split; split; try congruence; try tauto.
    intros [a Ha]. discriminate.
Qed.

(** X4.  [cross_product] raises exactly when one of the vectors does not have
    3 components.  On vectors of 3 components, over the reals and on floats
    as long as nothing overflows, it is anti-commutative, and the product of
    a vector with itself is the zero vector.  On binary64 an overflow breaks
    it: with [v = (2.0 ** 600, 2.0 ** 600, 2.0 ** 600)] every component of
    [cross_product(v, v)] is [inf - inf], a NaN. *)
Theorem cross_product_anticommutative :
  (forall v w : tuple,
     cross_product v w = Raise (ValueError "Vectors must have a length of 3") <->
     length v <> 3%nat \/ length w <> 3%nat) /\
  (forall v w : tuple,
     length v = 3%nat -> length w = 3%nat ->
     exists c, cross_product v w = Ok c /\ length c = 3%nat /\
               cross_product w v = Ok (negate c) /\
               cross_product v v = Ok [0; 0; 0]) /\
  (forall v w : tuple,
     length v = 3%nat -> length w = 3%nat ->
     exists c, Rounded.cross_product v w = Ok c /\ length c = 3%nat /\
               Rounded.cross_product w v = Ok (negate c) /\
               Rounded.cross_product v v = Ok [0; 0; 0]) /\
  Binary64.cross_product [Binary64.huge; Binary64.huge; Binary64.huge]
                         [Binary64.huge; Binary64.huge; Binary64.huge] =
    Ok [PrimFloat.nan; PrimFloat.nan; PrimFloat.nan].
Proof.
  split; [|split; [|split]].
  - intros v w. split.
    + intros H.
      destruct (Nat.eq_dec (length v) 3) as [Ev|Ev]; [|now left].
      destruct (Nat.eq_dec (length w) 3) as [Ew|Ew]; [|now right].
      rewrite cross_product_cross in H by assumption. discriminate.
    + apply cross_product_raises.
  - intros v w Hv Hw. exists (cross v w).
    rewrite !cross_product_cross by assumption.
    destruct (length3_inv v Hv) as (x & y & z & ->).
    destruct (length3_inv w Hw) as (a & b & c & ->).
    repeat split; f_equal; unfold negate, cross; cbn [nth map];
      repeat (apply f_equal2; [ring|]); reflexivity.
  - intros v w Hv Hw.
    destruct (length3_inv v Hv) as (x & y & z & ->).
    destruct (length3_inv w Hw) as (a & b & c & ->).
    rewrite !rounded_cross_product_eq. eexists. split; [reflexivity|].
    split; [reflexivity|]. split.
    + unfold negate. cbn [map].
      rewrite (rounded_cross_component b z c y), (rounded_cross_component c x a z),
        (rounded_cross_component a y b x). reflexivity.
    + now rewrite !rounded_cross_self.
  - vm_compute. reflexivity.
Qed.

Lemma cross_product_anticommutative_witness :
  exists c, cross_product [1; 0; 0] [0; 1; 0] = Ok c /\ length c = 3%nat /\
            cross_product [0; 1; 0] [1; 0; 0] = Ok (negate c) /\
            cross_product [1; 0; 0] [1; 0; 0] = Ok [0; 0; 0].
Proof.
  apply (proj1 (proj2 cross_product_anticommutative) [1; 0; 0] [0; 1; 0]); reflexivity.
Defined.

(** X5.  The cross product is perpendicular to both of its factors: its dot
    product with each of them is 0. *)
Theorem cross_product_orthogonal (v w : tuple) :
  length v = 3%nat -> length w = 3%nat ->
  exists c, cross_product v w = Ok c /\
            dot_product c v = Ok 0 /\ dot_product c w = Ok 0.
Proof.
  intros Hv Hw. exists (cross v w).
  split; [now apply cross_product_cross|].
  destruct (length3_inv v Hv) as (x & y & z & ->).
  destruct (length3_inv w Hw) as (a & b & c & ->).
  rewrite !dot_product_eq by reflexivity.
  unfold products, cross. cbn [nth combine map fst snd]. rewrite !sum3.
  split; f_equal; ring.
Qed.

Lemma cross_product_orthogonal_witness :
  exists c, cross_product [1; 2; 3] [-2; -5; 7] = Ok c /\
            dot_product c [1; 2; 3] = Ok 0 /\ dot_product c [-2; -5; 7] = Ok 0.
Proof.
  apply (cross_product_orthogonal [1; 2; 3] [-2; -5; 7]); reflexivity.
Defined.

(** X6.  Lagrange's identity ties the three operations together: the squared
    magnitude of the cross product is the product of the squared magnitudes
    minus the squared dot product. *)
Theorem cross_product_magnitude (v w : tuple) :
  length v = 3%nat -> length w = 3%nat ->
  exists c mc mv mw d,
    cross_product v w = Ok c /\ magnitude c = Ok mc /\
    magnitude v = Ok mv /\ magnitude w = Ok mw /\ dot_product v w = Ok d /\
    mc * mc = (mv * mv) * (mw * mw) - d * d.
Proof.
  intros Hv Hw.
  exists (cross v w), (sqrt (sum (squares (cross v w)))),
    (sqrt (sum (squares v))), (sqrt (sum (squares w))), (sum (products v w)).
  split; [now apply cross_product_cross|].
  split; [apply magnitude_eq|]. split; [apply magnitude_eq|].
  split; [apply magnitude_eq|]. split; [apply dot_product_eq; congruence|].
  rewrite !sqrt_sqrt by apply sum_squares_nonneg.
  destruct (length3_inv v Hv) as (x & y & z & ->).
  destruct (length3_inv w Hw) as (a & b & c & ->).
  unfold products, squares, cross. cbn [nth combine map fst snd].
  rewrite !sum3. ring.
Qed.

Lemma cross_product_magnitude_witness :
  exists c mc mv mw d,
    cross_product [1; 0; 0] [1; 1; 1] = Ok c /\ magnitude c = Ok mc /\
    magnitude [1; 0; 0] = Ok mv /\ magnitude [1; 1; 1] = Ok mw /\
    dot_product [1; 0; 0] [1; 1; 1] = Ok d /\
    mc * mc = (mv * mv) * (mw * mw) - d * d.
Proof.
  apply (cross_product_magnitude [1; 0; 0] [1; 1; 1]); reflexivity.
Defined.

(** ** Angles between vectors *)

Lemma magnitude_scale_zero (k : R) (v : tuple) :
  k <> 0 -> (magnitude (scale k v) = Ok 0 <-> magnitude v = Ok 0).
Proof.
  intros Hk. rewrite !magnitude_zero_iff, sum_squares_scale.
  split; intros H; [|rewrite H; ring].
  apply Rmult_integral in H. destruct H as [H|H]; [|exact H].
  apply Rmult_integral in H. tauto.
Qed.

Lemma angle_vectors_sym (v w : tuple) : angle_vectors v w = angle_vectors w v.
Proof.
  destruct (Nat.eq_dec (length v) (length w)) as [E|E].
  - destruct (result_eq_dec_zero (magnitude v)) as [Hv|Hv];
      [rewrite !angle_vectors_zero_magnitude; auto|].
    destruct (result_eq_dec_zero (magnitude w)) as [Hw|Hw];
      [rewrite !angle_vectors_zero_magnitude; auto|].
    rewrite !angle_vectors_nonzero_magnitude by auto.
    now rewrite sum_products_comm, Rmult_comm.
  - rewrite !angle_vectors_length_mismatch; auto.
Qed.

Lemma angle_vectors_same (v : tuple) : angle_vectors v v = Ok 0.
Proof.
  destruct (result_eq_dec_zero (magnitude v)) as [Hv|Hv];
    [apply angle_vectors_zero_magnitude; auto|].
  rewrite angle_vectors_nonzero_magnitude by auto.
  pose proof (magnitude_nonzero_squares v Hv) as Hs.
  pose proof (sum_squares_nonneg v) as Hp.
  rewrite sum_products_self, sqrt_sqrt by exact Hp.
  replace (sum (squares v) / sum (squares v)) with (IZR 1) by (field; exact Hs).
  rewrite round_ndigits_IZR, math_acos_in_range by lra. now rewrite acos_1.
Qed.

Lemma acos_neg1 : acos (-1) = PI.
Proof. replace (-1) with (Ropp 1) by lra. rewrite acos_opp, acos_1. ring. Qed.

Lemma angle_vectors_negate (v : tuple) :
  magnitude v <> Ok 0 -> angle_vectors v (negate v) = Ok PI.
Proof.
  intros Hv. rewrite negate_scale.
  assert (Hn : magnitude (scale (-1) v) <> Ok 0)
    by (rewrite magnitude_scale_zero; [exact Hv|lra]).
  rewrite angle_vectors_nonzero_magnitude
    by (rewrite ?length_scale; auto).
  pose proof (magnitude_nonzero_squares v Hv) as Hs.
  pose proof (sum_squares_nonneg v) as Hp.
  rewrite sum_products_comm, sum_products_scale_l, sum_products_self.
  rewrite sum_squares_scale.
  replace (-1 * -1 * sum (squares v)) with (sum (squares v)) by ring.
  rewrite sqrt_sqrt by exact Hp.
  replace (-1 * sum (squares v) / sum (squares v)) with (IZR (-1))
    by (field; exact Hs).
  rewrite round_ndigits_IZR, math_acos_in_range by lra. now rewrite acos_neg1.
Qed.

Lemma angle_vectors_scale_l (k : R) (v w : tuple) :
  0 < k -> angle_vectors (scale k v) w = angle_vectors v w.
Proof.
  intros Hk.
  destruct (Nat.eq_dec (length v) (length w)) as [E|E];
    [|rewrite !angle_vectors_length_mismatch; rewrite ?length_scale; auto].
  assert (Z : magnitude (scale k v) = Ok 0 <-> magnitude v = Ok 0)
    by (apply magnitude_scale_zero; lra).
  destruct (result_eq_dec_zero (magnitude v)) as [Hv|Hv].
  { rewrite !angle_vectors_zero_magnitude; rewrite ?length_scale; tauto. }
  destruct (result_eq_dec_zero (magnitude w)) as [Hw|Hw].
  { rewrite !angle_vectors_zero_magnitude; rewrite ?length_scale; tauto. }
  rewrite !angle_vectors_nonzero_magnitude by (rewrite ?length_scale; tauto).
  pose proof (cosine_in_range v w (magnitude_nonzero_squares v Hv)
                (magnitude_nonzero_squares w Hw)) as [Hm _].
  rewrite sum_products_scale_l, sum_squares_scale.
  rewrite sqrt_mult_alt by nra.
  replace (k * k) with (Rsqr k) by reflexivity.
  rewrite sqrt_Rsqr by lra.
  assert (Ha : sqrt (sum (squares v)) <> 0)
    by (intros H; apply Hm; rewrite H; ring).
  assert (Hb : sqrt (sum (squares w)) <> 0)
    by (intros H; apply Hm; rewrite H; ring).
  do 2 f_equal. field. repeat split; (assumption || lra).
Qed.

(** X7.  [angle_vectors] raises exactly when the lengths differ; on vectors
    of one length it returns an angle of [[0, PI]], whatever the vectors. *)
Theorem angle_vectors_range (v w : tuple) :
  (angle_vectors v w = Raise (ValueError "Vectors must have the same length") <->
   length v <> length w) /\
  (length v = length w -> exists a, angle_vectors v w = Ok a /\ 0 <= a <= PI).
Proof.
  split; [|apply angle_vectors_bound].
  split; [|apply angle_vectors_length_mismatch].
  intros H E. destruct (angle_vectors_bound v w E) as (a & Ha & _). congruence.
Qed.

Lemma angle_vectors_range_witness :
  exists a, angle_vectors [-2; -5; 7] [1; 2; 3] = Ok a /\ 0 <= a <= PI.
Proof.
  apply (proj2 (angle_vectors_range [-2; -5; 7] [1; 2; 3])). reflexivity.
Defined.

(** X8.  [angle_vectors] is symmetric in its two arguments, the error and
    the zero-magnitude default included. *)
Theorem angle_vectors_symmetric (v w : tuple) :
  angle_vectors v w = angle_vectors w v.
Proof. apply angle_vectors_sym. Qed.

(** X9.  The angle of a vector with itself is 0, for every vector; the angle
    of a vector of nonzero magnitude with its opposite is [PI]. *)
Theorem angle_vectors_self_and_opposite :
  (forall v : tuple, angle_vectors v v = Ok 0) /\
  (forall v : tuple, magnitude v <> Ok 0 -> angle_vectors v (negate v) = Ok PI).
Proof.
  split; [apply angle_vectors_same | apply angle_vectors_negate].
Qed.

Lemma angle_vectors_self_and_opposite_witness :
  angle_vectors [1; 0; 0] (negate [1; 0; 0]) = Ok PI.
Proof.
  apply (proj2 angle_vectors_self_and_opposite [1; 0; 0]).
  rewrite magnitude3. intros [= E]. apply sqrt_eq_0 in E; lra.
Defined.

(** X10.  The angle does not depend on the length of the vectors: scaling
    either of them by a positive factor leaves [angle_vectors] unchanged. *)
Theorem angle_vectors_scale_invariant (k : R) (v w : tuple) :
  0 < k ->
  angle_vectors (scale k v) w = angle_vectors v w /\
  angle_vectors v (scale k w) = angle_vectors v w.
Proof.
  intros Hk. split; [now apply angle_vectors_scale_l|].
  rewrite (angle_vectors_sym v (scale k w)), (angle_vectors_sym v w).
  now apply angle_vectors_scale_l.
Qed.

Lemma angle_vectors_scale_invariant_witness :
  angle_vectors (scale 6371 [1; 0; 0]) [1; 1; 1] = angle_vectors [1; 0; 0] [1; 1; 1] /\
  angle_vectors [1; 0; 0] (scale 6371 [1; 1; 1]) = angle_vectors [1; 0; 0] [1; 1; 1].
Proof.
  apply (angle_vectors_scale_invariant 6371 [1; 0; 0] [1; 1; 1]). lra.
Defined.

(** ** Angles and distances between coordinates *)

Lemma sum_squares_sphere_point (lat long : R) :
  sum (squares (sphere_point lat long)) = R_km * R_km.
Proof.
  unfold sphere_point, squares. cbn [map]. rewrite sum3.
  set (a := math_radians lat). set (b := math_radians long).
  replace ((R_km * cos a * cos b) ^ 2 + (R_km * cos a * sin b) ^ 2 +
           (R_km * sin a) ^ 2)
    with (R_km * R_km * (cos a ^ 2 * (sin b ^ 2 + cos b ^ 2) + sin a ^ 2)) by ring.
  rewrite sin2_cos2_pow, Rmult_1_r, (Rplus_comm (cos a ^ 2)), sin2_cos2_pow. ring.
Qed.

Lemma sum_products_sphere_point (lat1 long1 lat2 long2 : R) :
  sum (products (sphere_point lat1 long1) (sphere_point lat2 long2)) =
  R_km * R_km * central_cosine lat1 long1 lat2 long2.
Proof.
  unfold sphere_point, products, central_cosine. cbn [combine map fst snd].
  rewrite sum3, cos_minus. ring.
Qed.

Lemma magnitude_sphere_point_nonzero (lat long : R) :
  magnitude (sphere_point lat long) <> Ok 0.
Proof.
  rewrite magnitude_sphere_point. intros [= E]. pose proof R_km_pos. lra.
Qed.

Lemma angle_vectors_sphere_points (lat1 long1 lat2 long2 : R) :
  angle_vectors (sphere_point lat1 long1) (sphere_point lat2 long2) =
  math_acos (round_ndigits (central_cosine lat1 long1 lat2 long2) 5).
Proof.
  rewrite angle_vectors_nonzero_magnitude
    by (reflexivity || apply magnitude_sphere_point_nonzero).
  rewrite !sum_squares_sphere_point, sum_products_sphere_point.
  pose proof R_km_pos as Hr. rewrite sqrt_square by lra.
  do 2 f_equal. field. lra.
Qed.

Lemma central_cosine_range (lat1 long1 lat2 long2 : R) :
  -1 <= central_cosine lat1 long1 lat2 long2 <= 1.
Proof.
  pose proof (cosine_in_range (sphere_point lat1 long1) (sphere_point lat2 long2))
    as H.
  rewrite !sum_squares_sphere_point, sum_products_sphere_point in H.
  pose proof R_km_pos as Hr. rewrite sqrt_square in H by lra.
  destruct H as [_ H]; [nra|nra|].
  replace (R_km * R_km * central_cosine lat1 long1 lat2 long2 / (R_km * R_km))
    with (central_cosine lat1 long1 lat2 long2) in H by (field; lra).
  exact H.
Qed.

Lemma central_cosine_sym (lat1 long1 lat2 long2 : R) :
  central_cosine lat1 long1 lat2 long2 = central_cosine lat2 long2 lat1 long1.
Proof.
  unfold central_cosine.
  replace (math_radians long2 - math_radians long1)
    with (- (math_radians long1 - math_radians long2)) by ring.
  rewrite cos_neg. ring.
Qed.

Section TwoValidCoordinates.

Variables lat1 long1 lat2 long2 : R.
Hypothesis Hlat1 : valid_latitude lat1.
Hypothesis Hlong1 : valid_longitude long1.
Hypothesis Hlat2 : valid_latitude lat2.
Hypothesis Hlong2 : valid_longitude long2.

Lemma angle_between_coordinates_valid :
  angle_between_coordinates lat1 long1 lat2 long2 =
  Ok (acos (round_ndigits (central_cosine lat1 long1 lat2 long2) 5)).
Proof.
  unfold angle_between_coordinates.
  rewrite (to_vector_valid lat1 long1 Hlat1 Hlong1).
  rewrite (to_vector_valid lat2 long2 Hlat2 Hlong2).
  rewrite !bind_Ok, angle_vectors_sphere_points.
  apply math_acos_in_range.
  apply (round_ndigits_between _ 5 (-1) 1), central_cosine_range.
Qed.

Lemma distance_between_coordinates_valid :
  distance_between_coordinates lat1 long1 lat2 long2 =
  Ok (acos (round_ndigits (central_cosine lat1 long1 lat2 long2) 5) * R_km).
Proof.
  unfold distance_between_coordinates.
  now rewrite angle_between_coordinates_valid, bind_Ok.
Qed.

End TwoValidCoordinates.

(** X11.  On valid coordinates [angle_between_coordinates] is the inverse
    cosine of the spherical law of cosines
    [sin lat1 * sin lat2 + cos lat1 * cos lat2 * cos (long1 - long2)]
    rounded to 5 decimals, and [distance_between_coordinates] is that angle
    times 6371: the radius cancels in the quotient of [angle_vectors]. *)
Theorem angle_between_coordinates_law_of_cosines (lat1 long1 lat2 long2 : R) :
  -90 <= lat1 <= 90 -> -180 <= long1 <= 180 ->
  -90 <= lat2 <= 90 -> -180 <= long2 <= 180 ->
  let c := sin (math_radians lat1) * sin (math_radians lat2) +
           cos (math_radians lat1) * cos (math_radians lat2) *
           cos (math_radians long1 - math_radians long2) in
  -1 <= c <= 1 /\
  angle_between_coordinates lat1 long1 lat2 long2 =
  Ok (acos (round_ndigits c 5)) /\
  distance_between_coordinates lat1 long1 lat2 long2 =
  Ok (acos (round_ndigits c 5) * 6371).
Proof.
  intros H1 H2 H3 H4 c. split; [apply central_cosine_range|].
  split.
  - now apply angle_between_coordinates_valid.
  - now apply distance_between_coordinates_valid.
Qed.

Lemma angle_between_coordinates_law_of_cosines_witness :
  angle_between_coordinates 45 0 45 90 =
  Ok (acos (round_ndigits
              (sin (math_radians 45) * sin (math_radians 45) +
               cos (math_radians 45) * cos (math_radians 45) *
               cos (math_radians 0 - math_radians 90)) 5)).
Proof.
  apply (angle_between_coordinates_law_of_cosines 45 0 45 90); lra.
Defined.

(** X12.  On valid coordinates the distance is symmetric in the two points
    and lies between 0 and half the circumference [PI * 6371]. *)
Theorem distance_between_coordinates_range (lat1 long1 lat2 long2 : R) :
  -90 <= lat1 <= 90 -> -180 <= long1 <= 180 ->
  -90 <= lat2 <= 90 -> -180 <= long2 <= 180 ->
  exists d,
    distance_between_coordinates lat1 long1 lat2 long2 = Ok d /\
    distance_between_coordinates lat2 long2 lat1 long1 = Ok d /\
    0 <= d <= PI * 6371.
Proof.
  intros H1 H2 H3 H4.
  rewrite !distance_between_coordinates_valid by assumption.
  rewrite (central_cosine_sym lat2 long2 lat1 long1).
  eexists. split; [reflexivity|]. split; [reflexivity|].
  pose proof (acos_bound (round_ndigits (central_cosine lat1 long1 lat2 long2) 5)).
  unfold R_km. nra.
Qed.

Lemma distance_between_coordinates_range_witness :
  exists d,
    distance_between_coordinates 0 0 0 90 = Ok d /\
    distance_between_coordinates 0 90 0 0 = Ok d /\
    0 <= d <= PI * 6371.
Proof.
  apply (distance_between_coordinates_range 0 0 0 90); lra.
Defined.

Lemma central_cosine_same (lat long : R) : central_cosine lat long lat long = 1.
Proof.
  unfold central_cosine. rewrite Rminus_diag, cos_0.
  pose proof (sin2_cos2_pow (math_radians lat)). lra.
Qed.

Lemma math_radians_plus_180 (x : R) : math_radians (x + 180) = math_radians x + PI.
Proof. unfold math_radians. field. Qed.

Lemma math_radians_opp (x : R) : math_radians (- x) = - math_radians x.
Proof. unfold math_radians. ring. Qed.

Lemma central_cosine_antipode (lat long : R) :
  central_cosine lat long (- lat) (long + 180) = -1.
Proof.
  unfold central_cosine.
  rewrite math_radians_plus_180, math_radians_opp, sin_neg, cos_neg.
  replace (math_radians long - (math_radians long + PI)) with (- PI) by ring.
  rewrite cos_neg, cos_PI.
  pose proof (sin2_cos2_pow (math_radians lat)). lra.
Qed.

(** X13.  The distance from a valid point to itself is 0, and the distance to
    its antipode [(-lat, long + 180)] is half the circumference,
    [PI * 6371]. *)
Theorem distance_same_point_and_antipode :
  (forall lat long : R,
     -90 <= lat <= 90 -> -180 <= long <= 180 ->
     distance_between_coordinates lat long lat long = Ok 0) /\
  (forall lat long : R,
     -90 <= lat <= 90 -> -180 <= long <= 0 ->
     distance_between_coordinates lat long (- lat) (long + 180) =
     Ok (PI * 6371)).
Proof.
  split.
  - intros lat long H1 H2.
    rewrite distance_between_coordinates_valid
      by (unfold valid_latitude, valid_longitude; lra).
    rewrite central_cosine_same. replace 1 with (IZR 1) by reflexivity.
    rewrite round_ndigits_IZR, acos_1. f_equal. ring.
  - intros lat long H1 H2.
    rewrite distance_between_coordinates_valid
      by (unfold valid_latitude, valid_longitude; lra).
    rewrite central_cosine_antipode. replace (-1) with (IZR (-1)) by reflexivity.
    rewrite round_ndigits_IZR, acos_neg1. reflexivity.
Qed.

Lemma distance_same_point_and_antipode_witness :
  distance_between_coordinates 15 (-28) 15 (-28) = Ok 0 /\
  distance_between_coordinates 15 (-28) (- 15) (-28 + 180) = Ok (PI * 6371).
Proof.
  split.
  - apply (proj1 distance_same_point_and_antipode 15 (-28)); lra.
  - apply (proj2 distance_same_point_and_antipode 15 (-28)); lra.
Defined.

(** *** The resolution that the rounding leaves *)

(** The rounded cosine is a multiple of [10 ** -5]: either it is 1 or it is
    at most [0.99999]. *)
Lemma round_ndigits_5_gap (x : R) :
  x <= 1 -> round_ndigits x 5 = 1 \/ round_ndigits x 5 <= 0.99999.
Proof.
  intros Hx. unfold round_ndigits.
  assert (U : (round_half_even (x * 10 ^ 5) <= 100000)%Z)
    by (apply round_half_even_upper; lra).
  destruct (Z.eq_dec (round_half_even (x * 10 ^ 5)) 100000) as [E|E].
  - left. rewrite E. lra.
  - right. assert (L : (round_half_even (x * 10 ^ 5) <= 99999)%Z) by lia.
    apply IZR_le in L. lra.
Qed.

Lemma acos_below_099999 (x : R) : -1 <= x <= 0.99999 -> 0.00447 < acos x.
Proof.
  intros Hx. pose proof PI_bounds as [Pl Pu].
  pose proof (acos_bound x) as Hb.
  apply cos_decreasing_0; try lra.
  rewrite cos_acos by lra.
  pose proof (cos_lower_2 0.00447 ltac:(lra)). lra.
Qed.

Lemma round_ndigits_5_one (x : R) : 0.999995 < x <= 1 -> round_ndigits x 5 = 1.
Proof.
  intros Hx. unfold round_ndigits.
  rewrite (round_half_even_near (x * 10 ^ 5) 100000) by lra. lra.
Qed.

(** X14.  Because the cosine is rounded to 5 decimals, the distance is either
    0 or more than 28.47 km: no value in between is ever returned. *)
Theorem distance_between_coordinates_gap (lat1 long1 lat2 long2 : R) :
  -90 <= lat1 <= 90 -> -180 <= long1 <= 180 ->
  -90 <= lat2 <= 90 -> -180 <= long2 <= 180 ->
  exists d, distance_between_coordinates lat1 long1 lat2 long2 = Ok d /\
            (d = 0 \/ 28.47 < d).
Proof.
  intros H1 H2 H3 H4.
  rewrite distance_between_coordinates_valid by assumption.
  eexists. split; [reflexivity|].
  pose proof (central_cosine_range lat1 long1 lat2 long2) as Hc.
  set (c := central_cosine lat1 long1 lat2 long2) in *.
  destruct (round_ndigits_5_gap c) as [E|E]; [lra| |].
  - left. rewrite E, acos_1. ring.
  - right.
    pose proof (round_ndigits_between c 5 (-1) 1 Hc) as [L _].
    pose proof (acos_below_099999 (round_ndigits c 5)) as A.
    unfold R_km. lra.
Qed.

Lemma distance_between_coordinates_gap_witness :
  exists d, distance_between_coordinates 0 0 0 90 = Ok d /\
            (d = 0 \/ 28.47 < d).
Proof.
  apply (distance_between_coordinates_gap 0 0 0 90); lra.
Defined.

Lemma central_cosine_meridian (lat1 lat2 long : R) :
  central_cosine lat1 long lat2 long = cos (math_radians (lat1 - lat2)).
Proof.
  unfold central_cosine. rewrite Rminus_diag, cos_0.
  replace (math_radians (lat1 - lat2))
    with (math_radians lat1 - math_radians lat2) by (unfold math_radians; ring).
  rewrite cos_minus. ring.
Qed.

(** X15.  Two distinct points can be at distance 0: whenever the cosine of
    the central angle exceeds [0.999995] it rounds to 1.  In particular two
    points of one meridian at most 0.18 degrees of latitude (about 20 km)
    apart are at distance 0. *)
Theorem distance_between_coordinates_zero_nearby :
  (forall lat1 long1 lat2 long2 : R,
     -90 <= lat1 <= 90 -> -180 <= long1 <= 180 ->
     -90 <= lat2 <= 90 -> -180 <= long2 <= 180 ->
     0.999995 < sin (math_radians lat1) * sin (math_radians lat2) +
                cos (math_radians lat1) * cos (math_radians lat2) *
                cos (math_radians long1 - math_radians long2) ->
     distance_between_coordinates lat1 long1 lat2 long2 = Ok 0) /\
  (forall lat1 lat2 long : R,
     -90 <= lat1 <= 90 -> -90 <= lat2 <= 90 -> -180 <= long <= 180 ->
     Rabs (lat1 - lat2) <= 0.18 ->
     distance_between_coordinates lat1 long lat2 long = Ok 0).
Proof.
  assert (G : forall lat1 long1 lat2 long2 : R,
     valid_latitude lat1 -> valid_longitude long1 ->
     valid_latitude lat2 -> valid_longitude long2 ->
     0.999995 < central_cosine lat1 long1 lat2 long2 ->
     distance_between_coordinates lat1 long1 lat2 long2 = Ok 0).
  { intros lat1 long1 lat2 long2 H1 H2 H3 H4 Hc.
    rewrite distance_between_coordinates_valid by assumption.
    pose proof (central_cosine_range lat1 long1 lat2 long2) as [_ Hu].
    rewrite round_ndigits_5_one by lra. rewrite acos_1. f_equal. ring. }
  split; [exact G|].
  intros lat1 lat2 long H1 H2 H3 Hd. apply G; try assumption.
  rewrite central_cosine_meridian.
  pose proof PI_bounds as [Pl Pu].
  assert (Hd' : -0.18 <= lat1 - lat2 <= 0.18).
  { unfold Rabs in Hd. destruct (Rcase_abs (lat1 - lat2)); lra. }
  unfold math_radians.
  set (x := (lat1 - lat2) * (PI / 180)).
  assert (Hx : -0.0031416 <= x <= 0.0031416).
  { unfold x. split; nra. }
  pose proof (cos_lower_2 x ltac:(lra)) as L.
  assert (Hsq : x ^ 2 <= 0.0031416 ^ 2) by nra.
  lra.
Qed.

Lemma distance_between_coordinates_zero_nearby_witness :
  distance_between_coordinates 38.5 (-0.25) 38.65 (-0.25) = Ok 0.
Proof.
  apply (proj2 distance_between_coordinates_zero_nearby 38.5 38.65 (-0.25));
    try lra.
  apply Rabs_le. lra.
Defined.

(** ** Errors of the coordinate functions *)

Lemma valid_coordinates_dec (lat long : R) :
  {valid_latitude lat /\ valid_longitude long} +
  {~ (valid_latitude lat /\ valid_longitude long)}.
Proof.
  unfold valid_latitude, valid_longitude.
  destruct (Rle_dec (-90) lat); [|right; lra].
  destruct (Rle_dec lat 90); [|right; lra].
  destruct (Rle_dec (-180) long); [|right; lra].
  destruct (Rle_dec long 180); [|right; lra].
  left. lra.
Qed.

Lemma coordinate_functions_invalid (lat1 long1 lat2 long2 : R) :
  ~ ((valid_latitude lat1 /\ valid_longitude long1) /\
     (valid_latitude lat2 /\ valid_longitude long2)) ->
  out_of_range (angle_between_coordinates lat1 long1 lat2 long2) /\
  out_of_range (distance_between_coordinates lat1 long1 lat2 long2) /\
  out_of_range (direction_between_coordinates lat1 long1 lat2 long2) /\
  out_of_range (bearing_between_coordinates lat1 long1 lat2 long2).
Proof.
  intros H.
  unfold out_of_range, distance_between_coordinates, angle_between_coordinates,
    bearing_between_coordinates, direction_between_coordinates.
  destruct (valid_coordinates_dec lat1 long1) as [[V1 V2]|V].
  - destruct (valid_coordinates_dec lat2 long2) as [V'|V']; [tauto|].
    destruct (to_vector_invalid lat2 long2 V') as (e & He & Hr).
    rewrite (to_vector_valid lat1 long1 V1 V2), He. run_cross.
    repeat split; exists e; (split; [reflexivity|exact Hr]).
  - destruct (to_vector_invalid lat1 long1 V) as (e & He & Hr).
    rewrite He.
    repeat split; exists e; (split; [reflexivity|exact Hr]).
Qed.

(** X16.  Each of the four coordinate functions raises exactly when one of
    the coordinates is out of range, and then with the [ValueError] of
    [to_vector]; on valid coordinates each of them returns. *)
Theorem coordinate_functions_raise_iff (lat1 long1 lat2 long2 : R) :
  let valid := (-90 <= lat1 <= 90 /\ -180 <= long1 <= 180) /\
               (-90 <= lat2 <= 90 /\ -180 <= long2 <= 180) in
  (valid ->
   returns (angle_between_coordinates lat1 long1 lat2 long2) /\
   returns (distance_between_coordinates lat1 long1 lat2 long2) /\
   returns (direction_between_coordinates lat1 long1 lat2 long2) /\
   returns (bearing_between_coordinates lat1 long1 lat2 long2)) /\
  (~ valid ->
   out_of_range (angle_between_coordinates lat1 long1 lat2 long2) /\
   out_of_range (distance_between_coordinates lat1 long1 lat2 long2) /\
   out_of_range (direction_between_coordinates lat1 long1 lat2 long2) /\
   out_of_range (bearing_between_coordinates lat1 long1 lat2 long2)).
Proof.
  intros valid. split.
  - intros [[H1 H2] [H3 H4]].
    rewrite angle_between_coordinates_valid, distance_between_coordinates_valid,
      direction_between_coordinates_valid, bearing_between_coordinates_valid
      by assumption.
    destruct (bearing_angle_bound lat1 long1 lat2 long2) as (a & -> & _).
    rewrite bind_Ok.
    repeat split; try apply returns_Ok.
    destruct (Rlt_dec long2 long1); apply returns_Ok.
  - apply coordinate_functions_invalid.
Qed.

Lemma coordinate_functions_raise_iff_witness :
  returns (bearing_between_coordinates 38.5 (-0.25) (-51.6) 180) /\
  out_of_range (distance_between_coordinates 38.5 (-0.25) 91 0).
Proof.
  split.
  - apply (proj1 (coordinate_functions_raise_iff 38.5 (-0.25) (-51.6) 180)). lra.
  - apply (proj2 (coordinate_functions_raise_iff 38.5 (-0.25) 91 0)). lra.
Defined.

(** ** Directions *)

Lemma tangent_perpendicular (v w : tuple) :
  length v = 3%nat -> sum (products (tangent v w) v) = 0.
Proof.
  intros Hv. destruct (length3_inv v Hv) as (x & y & z & ->).
  unfold tangent, cross, products. cbn [nth combine map fst snd].
  rewrite sum3. ring.
Qed.

(** X17.  On valid coordinates [direction_between_coordinates] returns a
    vector of 3 components that is tangent to the sphere at the first point:
    its dot product with the vector of that point is 0, in the fallback
    branch too. *)
Theorem direction_between_coordinates_tangent (lat1 long1 lat2 long2 : R) :
  -90 <= lat1 <= 90 -> -180 <= long1 <= 180 ->
  -90 <= lat2 <= 90 -> -180 <= long2 <= 180 ->
  exists d v,
    direction_between_coordinates lat1 long1 lat2 long2 = Ok d /\
    length d = 3%nat /\
    to_vector lat1 long1 = Ok v /\ dot_product d v = Ok 0.
Proof.
  intros H1 H2 H3 H4.
  exists (direction_vector lat1 long1 lat2 long2), (sphere_point lat1 long1).
  split; [now apply direction_between_coordinates_valid|].
  split; [apply length_direction_vector|].
  split; [now apply to_vector_valid|].
  rewrite dot_product_eq by (now rewrite length_direction_vector).
  f_equal. unfold direction_vector.
  destruct (Rlt_dec _ 1); apply tangent_perpendicular; reflexivity.
Qed.

Lemma direction_between_coordinates_tangent_witness :
  exists d v,
    direction_between_coordinates 45 0 45 90 = Ok d /\
    length d = 3%nat /\
    to_vector 45 0 = Ok v /\ dot_product d v = Ok 0.
Proof.
  apply (direction_between_coordinates_tangent 45 0 45 90); lra.
Defined.

(** ** Bearings along a meridian *)

Lemma sum_squares_north_unit (lat long : R) :
  sum (squares (north_unit lat long)) = 1.
Proof.
  unfold north_unit, squares. cbn [map]. rewrite sum3.
  pose proof (sin2_cos2_pow (math_radians lat)) as H1.
  pose proof (sin2_cos2_pow (math_radians long)) as H2.
  set (a := math_radians lat) in *. set (b := math_radians long) in *.
  replace ((- sin a * cos b) ^ 2 + (- sin a * sin b) ^ 2 + cos a ^ 2)
    with (sin a ^ 2 * (sin b ^ 2 + cos b ^ 2) + cos a ^ 2) by ring.
  rewrite H2. lra.
Qed.

Lemma magnitude_north_unit (lat long : R) : magnitude (north_unit lat long) <> Ok 0.
Proof.
  intros H. apply magnitude_zero_iff in H. rewrite sum_squares_north_unit in H. lra.
Qed.

Lemma sin2_cos2_mul (x : R) : sin x * sin x + cos x * cos x = 1.
Proof. pose proof (sin2_cos2_pow x). lra. Qed.

Lemma tangent_meridian (lat1 lat2 long : R) :
  tangent (sphere_point lat1 long) (sphere_point lat2 long) =
  scale (R_km * R_km * R_km * sin (math_radians lat2 - math_radians lat1))
        (north_unit lat1 long).
Proof.
  unfold tangent, cross, sphere_point, north_unit, scale. cbn [nth map].
  rewrite sin_minus.
  pose proof (sin2_cos2_mul (math_radians lat1)) as H1.
  pose proof (sin2_cos2_mul (math_radians long)) as H2.
  repeat (apply f_equal2; [nsatz|]). reflexivity.
Qed.

Lemma tangent_north (lat long : R) :
  tangent (sphere_point lat long) [0; 0; 1] =
  scale (R_km * R_km * cos (math_radians lat)) (north_unit lat long).
Proof.
  unfold tangent, cross, sphere_point, north_unit, scale. cbn [nth map].
  pose proof (sin2_cos2_mul (math_radians lat)) as H1.
  pose proof (sin2_cos2_mul (math_radians long)) as H2.
  repeat (apply f_equal2; [nsatz|]). reflexivity.
Qed.

Lemma scale_opp (a : R) (v : tuple) : scale a v = scale (- a) (negate v).
Proof.
  unfold scale, negate. rewrite map_map. apply map_ext. intros x. ring.
Qed.

Lemma length_negate (v : tuple) : length (negate v) = length v.
Proof. apply length_map. Qed.

(** Two multiples [a * e] and [b * e] of one vector, [b > 0]: the angle is 0
    when [a > 0] and [PI] when [a < 0]. *)
Lemma angle_vectors_parallel (a b : R) (e : tuple) :
  0 < b -> magnitude e <> Ok 0 ->
  (0 < a -> angle_vectors (scale a e) (scale b e) = Ok 0) /\
  (a < 0 -> angle_vectors (scale a e) (scale b e) = Ok PI).
Proof.
  intros Hb He. split; intros Ha.
  - rewrite angle_vectors_scale_l by exact Ha.
    rewrite angle_vectors_sym, angle_vectors_scale_l by exact Hb.
    apply angle_vectors_same.
  - rewrite (scale_opp a e), angle_vectors_scale_l by lra.
    rewrite angle_vectors_sym, angle_vectors_scale_l by exact Hb.
    now apply angle_vectors_negate.
Qed.

Lemma math_degrees_PI : math_degrees PI = 180.
Proof. unfold math_degrees. field. pose proof PI_RGT_0. lra. Qed.

Lemma cos_latitude_pos (lat : R) : -90 < lat < 90 -> 0 < cos (math_radians lat).
Proof.
  intros H. pose proof PI_RGT_0 as Hpi. apply cos_gt_0; unfold math_radians; nra.
Qed.

Lemma sin_latitude_difference (lat1 lat2 : R) :
  0 <= lat2 - lat1 <= 180 ->
  0 <= sin (math_radians lat2 - math_radians lat1).
Proof.
  intros H. pose proof PI_RGT_0 as Hpi.
  apply sin_ge_0; unfold math_radians; nra.
Qed.

(** The bearing along a meridian, by the sign and the size of
    [a = R ** 3 * sin (lat2 - lat1)], the factor of the tangent. *)
Lemma bearing_meridian_cases (lat1 lat2 long : R) :
  -90 < lat1 < 90 -> -90 <= lat2 <= 90 -> -180 <= long <= 180 ->
  let a := R_km * R_km * R_km * sin (math_radians lat2 - math_radians lat1) in
  (Rabs a < 1 \/ 0 < a ->
   bearing_between_coordinates lat1 long lat2 long = Ok 0) /\
  (a <= -1 -> bearing_between_coordinates lat1 long lat2 long = Ok 180).
Proof.
  intros H1 H2 H3 a.
  rewrite bearing_between_coordinates_valid
    by (unfold valid_latitude, valid_longitude; lra).
  unfold direction_vector. cbv zeta.
  rewrite tangent_meridian, tangent_north. fold a.
  rewrite sum_squares_scale, sum_squares_north_unit, Rmult_1_r.
  replace (a * a) with (Rsqr a) by reflexivity. rewrite sqrt_Rsqr_abs.
  pose proof R_km_pos as Hr. pose proof (cos_latitude_pos lat1 H1) as Hc.
  assert (Hb : 0 < R_km * R_km * cos (math_radians lat1))
    by (repeat apply Rmult_lt_0_compat; assumption).
  destruct (angle_vectors_parallel a _ (north_unit lat1 long) Hb
              (magnitude_north_unit lat1 long)) as [Ppos Pneg].
  destruct (Rlt_dec long long) as [F|_]; [lra|].
  split.
  - intros Ha. destruct (Rlt_dec (Rabs a) 1) as [Hs|Hs].
    + rewrite angle_vectors_same, bind_Ok, math_degrees_0. reflexivity.
    + destruct Ha as [Ha|Ha]; [contradiction|].
      rewrite Ppos by exact Ha. rewrite bind_Ok, math_degrees_0. reflexivity.
  - intros Ha. destruct (Rlt_dec (Rabs a) 1) as [Hs|Hs].
    + exfalso. rewrite Rabs_left in Hs by lra. lra.
    + rewrite Pneg by lra. rewrite bind_Ok, math_degrees_PI. reflexivity.
Qed.

(** X18.  Along a meridian, from a point that is not a pole: the bearing to a
    point at the same or a greater latitude is 0 (north); the bearing to a
    point further south is 180 as soon as the tangent has magnitude at least
    1, that is [6371 ** 3 * sin (lat1 - lat2) >= 1]; below that threshold the
    north fallback of [direction_between_coordinates] makes it 0. *)
Theorem bearing_along_meridian (lat1 lat2 long : R) :
  -90 < lat1 < 90 -> -90 <= lat2 <= 90 -> -180 <= long <= 180 ->
  (lat1 <= lat2 -> bearing_between_coordinates lat1 long lat2 long = Ok 0) /\
  (1 <= 6371 ^ 3 * sin (math_radians (lat1 - lat2)) ->
   bearing_between_coordinates lat1 long lat2 long = Ok 180) /\
  (lat2 < lat1 -> 6371 ^ 3 * sin (math_radians (lat1 - lat2)) < 1 ->
   bearing_between_coordinates lat1 long lat2 long = Ok 0).
Proof.
  intros H1 H2 H3.
  destruct (bearing_meridian_cases lat1 lat2 long H1 H2 H3) as [P0 P180].
  cbv zeta in P0, P180.
  assert (E : sin (math_radians lat2 - math_radians lat1) =
              - sin (math_radians (lat1 - lat2))).
  { rewrite <- sin_neg. f_equal. unfold math_radians. ring. }
  pose proof R_km_pos as Hr.
  assert (Hr3 : R_km * R_km * R_km = 6371 ^ 3) by (unfold R_km; ring).
  split; [|split].
  - intros Hle. apply P0.
    pose proof (sin_latitude_difference lat1 lat2 ltac:(lra)) as Hs.
    set (a := R_km * R_km * R_km * sin (math_radians lat2 - math_radians lat1)).
    assert (Ha : 0 <= a) by (unfold a; rewrite Hr3; nra).
    destruct (Rlt_dec (Rabs a) 1); [now left|right].
    rewrite Rabs_right in n by lra. lra.
  - intros Hge. apply P180. rewrite E, Hr3. lra.
  - intros Hlt Hsmall. apply P0. left.
    pose proof (sin_latitude_difference lat2 lat1 ltac:(lra)) as Hs.
    assert (E2 : sin (math_radians lat1 - math_radians lat2) =
                 sin (math_radians (lat1 - lat2)))
      by (f_equal; unfold math_radians; ring).
    rewrite E2 in Hs. rewrite E, Hr3.
    apply Rabs_def1; nra.
Qed.

Lemma bearing_along_meridian_witness :
  bearing_between_coordinates 0 10 45 10 = Ok 0 /\
  bearing_between_coordinates 0 10 (-90) 10 = Ok 180.
Proof.
  split.
  - apply (proj1 (bearing_along_meridian 0 45 10
                    ltac:(lra) ltac:(lra) ltac:(lra))). lra.
  - apply (proj1 (proj2 (bearing_along_meridian 0 (-90) 10
                           ltac:(lra) ltac:(lra) ltac:(lra)))).
    replace (0 - -90) with 90 by ring. rewrite math_radians_90, sin_PI2. lra.
Defined.

(** ** Compass sectors *)

Lemma round_half_even_closed (x : R) (n : Z) :
  Z.even n = true -> IZR n - 1 / 2 <= x <= IZR n + 1 / 2 ->
  round_half_even x = n.
Proof.
  intros He H. apply round_half_even_unique; [exact H|]. intros _. exact He.
Qed.

Lemma cardinal_of_index (angle : R) (i : Z) :
  (0 <= i <= 8)%Z -> round_half_even (angle / 45) = i ->
  cardinal_from_angle angle = Ok (nth (Z.to_nat i) cardinals ""%string).
Proof.
  intros Hi E. unfold cardinal_from_angle. rewrite E.
  now apply getitem_cardinals.
Qed.

(** X19.  The sectors of [cardinal_from_angle] on [[0, 360]].  A tie of
    [round] goes to the even index, so the sectors of N, E, S and W are
    closed, 45 degrees wide with both ends, and those of NE, SE, SW and NW
    are open: 22.5 is N and 67.5 is E. *)
Theorem cardinal_from_angle_sectors (angle : R) :
  (0 <= angle <= 22.5 -> cardinal_from_angle angle = Ok "N"%string) /\
  (22.5 < angle < 67.5 -> cardinal_from_angle angle = Ok "NE"%string) /\
  (67.5 <= angle <= 112.5 -> cardinal_from_angle angle = Ok "E"%string) /\
  (112.5 < angle < 157.5 -> cardinal_from_angle angle = Ok "SE"%string) /\
  (157.5 <= angle <= 202.5 -> cardinal_from_angle angle = Ok "S"%string) /\
  (202.5 < angle < 247.5 -> cardinal_from_angle angle = Ok "SW"%string) /\
  (247.5 <= angle <= 292.5 -> cardinal_from_angle angle = Ok "W"%string) /\
  (292.5 < angle < 337.5 -> cardinal_from_angle angle = Ok "NW"%string) /\
  (337.5 <= angle <= 360 -> cardinal_from_angle angle = Ok "N"%string).
Proof.
  repeat split; intros H.
  - apply (cardinal_of_index angle 0); [lia|].
    apply round_half_even_closed; [reflexivity|lra].
  - apply (cardinal_of_index angle 1); [lia|]. apply round_half_even_near; lra.
  - apply (cardinal_of_index angle 2); [lia|].
    apply round_half_even_closed; [reflexivity|lra].
  - apply (cardinal_of_index angle 3); [lia|]. apply round_half_even_near; lra.
  - apply (cardinal_of_index angle 4); [lia|].
    apply round_half_even_closed; [reflexivity|lra].
  - apply (cardinal_of_index angle 5); [lia|]. apply round_half_even_near; lra.
  - apply (cardinal_of_index angle 6); [lia|].
    apply round_half_even_closed; [reflexivity|lra].
  - apply (cardinal_of_index angle 7); [lia|]. apply round_half_even_near; lra.
  - apply (cardinal_of_index angle 8); [lia|].
    apply round_half_even_closed; [reflexivity|lra].
Qed.

Lemma cardinal_from_angle_sectors_witness :
  cardinal_from_angle 22.5 = Ok "N"%string /\
  cardinal_from_angle 67.5 = Ok "E"%string /\
  cardinal_from_angle 45 = Ok "NE"%string.
Proof.
  split; [|split].
  - apply (proj1 (cardinal_from_angle_sectors 22.5)). lra.
  - apply (proj1 (proj2 (proj2 (cardinal_from_angle_sectors 67.5)))). lra.
  - apply (proj1 (proj2 (cardinal_from_angle_sectors 45))). lra.
Defined.

Lemma nth_cardinals_label (i : Z) :
  (0 <= i <= 8)%Z -> In (nth (Z.to_nat i) cardinals ""%string) compass_labels.
Proof.
  intros H.
  assert (C : (i = 0 \/ i = 1 \/ i = 2 \/ i = 3 \/ i = 4 \/ i = 5 \/ i = 6 \/
               i = 7 \/ i = 8)%Z) by lia.
  unfold compass_labels.
  repeat (destruct C as [->|C]; [simpl; tauto|]). subst i. simpl. tauto.
Qed.

(** X20.  The two calls of the report compose: for valid coordinates the
    bearing that [bearing_between_coordinates] returns is always accepted by
    [cardinal_from_angle], which returns one of the eight compass labels. *)
Theorem cardinal_of_bearing (lat1 long1 lat2 long2 : R) :
  -90 <= lat1 <= 90 -> -180 <= long1 <= 180 ->
  -90 <= lat2 <= 90 -> -180 <= long2 <= 180 ->
  exists azimuth label,
    bearing_between_coordinates lat1 long1 lat2 long2 = Ok azimuth /\
    cardinal_from_angle azimuth = Ok label /\
    In label ["N"; "NE"; "E"; "SE"; "S"; "SW"; "W"; "NW"]%string.
Proof.
  intros H1 H2 H3 H4.
  rewrite bearing_between_coordinates_valid by assumption.
  destruct (bearing_angle_bound lat1 long1 lat2 long2) as (a & -> & Ha).
  rewrite bind_Ok. pose proof (math_degrees_bound a Ha) as Hd.
  set (b := if Rlt_dec long2 long1 then 360 - math_degrees a else math_degrees a).
  assert (Hb : 0 <= b <= 360) by (unfold b; destruct (Rlt_dec long2 long1); lra).
  exists b, (nth (Z.to_nat (round_half_even (b / 45))) cardinals ""%string).
  pose proof (cardinal_index_in_range b Hb) as Hi.
  split; [unfold b; destruct (Rlt_dec long2 long1); reflexivity|].
  split; [now apply cardinal_of_index|].
  now apply nth_cardinals_label.
Qed.

Lemma cardinal_of_bearing_witness :
  exists azimuth label,
    bearing_between_coordinates 38.5 (-0.25) (-51.6) 120 = Ok azimuth /\
    cardinal_from_angle azimuth = Ok label /\
    In label ["N"; "NE"; "E"; "SE"; "S"; "SW"; "W"; "NW"]%string.
Proof.
  apply (cardinal_of_bearing 38.5 (-0.25) (-51.6) 120); lra.
Defined.

(** ** [elevation] *)

Lemma station_distance_sq_lower (alpha : R) : 408 ^ 2 <= station_distance_sq alpha.
Proof.
  unfold station_distance_sq. pose proof (COS_bound alpha) as [_ Hc]. nra.
Qed.

Lemma station_distance_pos (alpha : R) : 0 < sqrt (station_distance_sq alpha).
Proof.
  apply sqrt_lt_R0. pose proof (station_distance_sq_lower alpha). lra.
Qed.

Lemma station_distance_sqr (alpha : R) :
  sqrt (station_distance_sq alpha) * sqrt (station_distance_sq alpha) =
  station_distance_sq alpha.
Proof.
  apply sqrt_sqrt. pose proof (station_distance_sq_lower alpha). lra.
Qed.

Lemma station_sine_range (alpha : R) : -1 <= station_sine alpha <= 1.
Proof.
  unfold station_sine.
  pose proof (station_distance_pos alpha) as Hd.
  pose proof (station_distance_sqr alpha) as Hs.
  set (d := sqrt (station_distance_sq alpha)) in *.
  assert (Hq : (sin alpha * 6371) * (sin alpha * 6371) <= d * d).
  { rewrite Hs. unfold station_distance_sq.
    pose proof (sin2_cos2_mul alpha) as Ht.
    pose proof (Rle_0_sqr (6371 * cos alpha - (6371 + 408))) as Hsq.
    unfold Rsqr in Hsq. nra. }
  assert (Hb : - d <= sin alpha * 6371 <= d) by (split; nra).
  split.
  - apply Rmult_le_reg_r with d; [exact Hd|].
    unfold Rdiv. rewrite Rmult_assoc, Rinv_l by lra. lra.
  - apply Rmult_le_reg_r with d; [exact Hd|].
    unfold Rdiv. rewrite Rmult_assoc, Rinv_l by lra. lra.
Qed.

Lemma elevation_eq (alpha : R) :
  elevation alpha =
  Ok (math_degrees (PI / 2 - alpha - asin (station_sine alpha))).
Proof.
  unfold elevation. cbv zeta. fold (station_distance_sq alpha).
  unfold math_sqrt.
  pose proof (station_distance_sq_lower alpha) as Hl.
  destruct (Rlt_dec (station_distance_sq alpha) 0) as [F|_]; [lra|].
  rewrite bind_Ok. unfold truediv.
  pose proof (station_distance_pos alpha) as Hd.
  destruct (Req_dec_T (sqrt (station_distance_sq alpha)) 0) as [F|_]; [lra|].
  rewrite bind_Ok. fold (station_sine alpha).
  pose proof (station_sine_range alpha) as Hq. unfold math_asin.
  destruct (Rlt_dec (station_sine alpha) (-1)); [lra|].
  destruct (Rlt_dec 1 (station_sine alpha)); [lra|]. reflexivity.
Qed.

Lemma math_degrees_sign (x : R) :
  (0 < math_degrees x <-> 0 < x) /\
  (forall lo hi : R, lo * (PI / 180) <= x <= hi * (PI / 180) ->
                     lo <= math_degrees x <= hi).
Proof.
  unfold math_degrees. pose proof PI_RGT_0 as Hpi.
  assert (Hk : 0 < 180 / PI) by (apply Rdiv_lt_0_compat; lra).
  split.
  - split; intros H; nra.
  - intros lo hi [Hl Hu].
    replace lo with (lo * (PI / 180) * (180 / PI)) by (field; lra).
    replace hi with (hi * (PI / 180) * (180 / PI)) by (field; lra).
    split; apply Rmult_le_compat_r; lra.
Qed.

Section Elevation.

Variable alpha : R.
Hypothesis Halpha : 0 <= alpha <= PI.

Lemma station_sine_nonneg : 0 <= station_sine alpha.
Proof.
  unfold station_sine. pose proof (station_distance_pos alpha) as Hd.
  assert (Hs : 0 <= sin alpha) by (apply sin_ge_0; lra).
  apply Rmult_le_pos; [nra|]. left. now apply Rinv_0_lt_compat.
Qed.

Lemma station_angle_bound : 0 <= station_angle alpha <= PI / 2.
Proof.
  unfold station_angle. pose proof (asin_bound (station_sine alpha)) as [_ Hu].
  split; [|exact Hu].
  pose proof station_sine_nonneg as Hq. pose proof (station_sine_range alpha) as Hr.
  destruct (Rle_lt_dec 0 (asin (station_sine alpha))) as [H|H]; [exact H|].
  exfalso. pose proof PI_RGT_0 as Hpi.
  pose proof (asin_bound (station_sine alpha)) as [Hl _].
  assert (Hn : sin (asin (station_sine alpha)) < 0)
    by (apply sin_lt_0_var; lra).
  rewrite sin_asin in Hn by exact Hr. lra.
Qed.

Lemma sin_gamma : sin (station_angle alpha) = station_sine alpha.
Proof. unfold station_angle. apply sin_asin, station_sine_range. Qed.

(** The sign of [d * cos alpha - r * sin alpha] is that of
    [(r + h) * cos alpha - r]. *)
Lemma horizon_factor :
  let d := sqrt (station_distance_sq alpha) in
  let c := cos alpha in
  (d * c) * (d * c) - (sin alpha * 6371) * (sin alpha * 6371) =
  ((6371 + 408) * c - 6371) *
  (6371 * (1 - c * c) + c * ((6371 + 408) - 6371 * c)).
Proof.
  cbv zeta. pose proof (station_distance_sqr alpha) as Hs.
  pose proof (sin2_cos2_mul alpha) as Ht.
  replace (sqrt (station_distance_sq alpha) * cos alpha *
           (sqrt (station_distance_sq alpha) * cos alpha))
    with (sqrt (station_distance_sq alpha) * sqrt (station_distance_sq alpha) *
          (cos alpha * cos alpha)) by ring.
  rewrite Hs. unfold station_distance_sq.
  replace (sin alpha * 6371 * (sin alpha * 6371))
    with (6371 * 6371 * (1 - cos alpha * cos alpha)) by (rewrite <- Ht; ring).
  ring.
Qed.

Lemma station_above_horizon :
  0 < PI / 2 - alpha - station_angle alpha <-> 6371 / 6779 < cos alpha.
Proof.
  pose proof station_angle_bound as Hg. pose proof sin_gamma as Sg.
  pose proof (station_distance_pos alpha) as Hd.
  pose proof horizon_factor as Hf. cbv zeta in Hf.
  pose proof (COS_bound alpha) as [Hcl Hcu].
  pose proof PI_RGT_0 as Hpi.
  assert (Hs : 0 <= sin alpha) by (apply sin_ge_0; lra).
  set (d := sqrt (station_distance_sq alpha)) in *.
  set (c := cos alpha) in *.
  assert (Hq : station_sine alpha * d = sin alpha * 6371).
  { unfold station_sine. fold d. field. lra. }
  destruct (Rlt_dec alpha (PI / 2)) as [Hlt|Hge].
  - assert (Hc : 0 < c) by (apply cos_gt_0; lra).
    assert (Hsnd : 0 < 6371 * (1 - c * c) + c * ((6371 + 408) - 6371 * c)) by nra.
    assert (Hcs : sin (PI / 2 - alpha) = c) by (rewrite sin_shift; reflexivity).
    split.
    + intros Hpos.
      assert (Hlt' : sin (station_angle alpha) < sin (PI / 2 - alpha))
        by (apply sin_increasing_1; lra).
      rewrite Sg, Hcs in Hlt'.
      assert (Hrs : sin alpha * 6371 < d * c) by nra.
      assert (Hprod : 0 < ((6371 + 408) * c - 6371) *
                          (6371 * (1 - c * c) + c * (6371 + 408 - 6371 * c)))
        by (rewrite <- Hf; nra).
      assert (0 < (6371 + 408) * c - 6371) by nra. lra.
    + intros Hhor.
      assert (Hprod : 0 < ((6371 + 408) * c - 6371) *
                          (6371 * (1 - c * c) + c * (6371 + 408 - 6371 * c)))
        by (apply Rmult_lt_0_compat; lra).
      rewrite <- Hf in Hprod.
      assert (Hrs : sin alpha * 6371 < d * c)
        by (apply square_lt_lt; nra).
      assert (Hlt' : sin (station_angle alpha) < sin (PI / 2 - alpha)).
      { rewrite Sg, Hcs. apply Rmult_lt_reg_r with d; [exact Hd|]. lra. }
      apply sin_increasing_0 in Hlt'; lra.
  - assert (Hc : c <= 0) by (apply cos_le_0; lra).
    split; intros H; lra.
Qed.

Lemma station_angle_sum : alpha + station_angle alpha <= PI.
Proof.
  pose proof station_angle_bound as Hg. pose proof sin_gamma as Sg.
  pose proof (station_distance_pos alpha) as Hd.
  pose proof (station_distance_sqr alpha) as Hsq.
  pose proof PI_RGT_0 as Hpi.
  destruct (Rle_dec alpha (PI / 2)) as [Hle|Hgt]; [lra|].
  assert (Hc : cos alpha <= 0) by (apply cos_le_0; lra).
  assert (Hs : 0 <= sin alpha) by (apply sin_ge_0; lra).
  set (d := sqrt (station_distance_sq alpha)) in *.
  assert (Hrd : 6371 <= d).
  { apply square_le_le; [lra|]. rewrite Hsq. unfold station_distance_sq. nra. }
  assert (Hq : station_sine alpha <= sin alpha).
  { unfold station_sine. fold d.
    apply Rmult_le_reg_r with d; [exact Hd|].
    unfold Rdiv. rewrite Rmult_assoc, Rinv_l by lra. nra. }
  assert (H : sin (station_angle alpha) <= sin (PI - alpha))
    by (rewrite Sg, sin_PI_x; exact Hq).
  apply sin_incr_0 in H; lra.
Qed.

End Elevation.

(** X21.  [elevation] never raises: the distance to the station is at least
    its height of 408 km, so the division and [math.asin] stay in their
    domains.  For an angle of [[0, PI]] the result lies in [[-90, 90]]. *)
Theorem elevation_total :
  (forall alpha : R,
     elevation alpha =
     Ok (math_degrees
           (PI / 2 - alpha -
            asin (sin alpha * 6371 /
                  sqrt (6371 ^ 2 + (6371 + 408) ^ 2 -
                        2 * 6371 * (6371 + 408) * cos alpha)))) /\
     408 <= sqrt (6371 ^ 2 + (6371 + 408) ^ 2 -
                  2 * 6371 * (6371 + 408) * cos alpha)) /\
  (forall alpha : R,
     0 <= alpha <= PI ->
     exists e, elevation alpha = Ok e /\ -90 <= e <= 90).
Proof.
  split.
  - intros alpha. split; [apply elevation_eq|].
    fold (station_distance_sq alpha).
    replace 408 with (sqrt (408 ^ 2))
      by (replace (408 ^ 2) with (408 * 408) by ring; apply sqrt_square; lra).
    apply sqrt_le_1_alt, station_distance_sq_lower.
  - intros alpha Ha. rewrite elevation_eq. eexists. split; [reflexivity|].
    pose proof (station_angle_bound alpha Ha) as Hg.
    pose proof (station_angle_sum alpha Ha) as Hs.
    unfold station_angle in Hg, Hs. apply math_degrees_sign. lra.
Qed.

Lemma elevation_total_witness :
  exists e, elevation (PI / 18) = Ok e /\ -90 <= e <= 90.
Proof.
  apply (proj2 elevation_total (PI / 18)). pose proof PI_RGT_0. lra.
Defined.

(** X22.  For an angle of [[0, PI]] between the observer and the point under
    the station, the elevation is positive exactly when
    [cos alpha > 6371 / 6779], the geometric horizon [r / (r + h)]; at angle
    0 the station is at the zenith, 90 degrees. *)
Theorem elevation_above_horizon :
  (forall alpha : R,
     0 <= alpha <= PI ->
     exists e, elevation alpha = Ok e /\ (0 < e <-> 6371 / 6779 < cos alpha)) /\
  elevation 0 = Ok 90.
Proof.
  split.
  - intros alpha Ha. rewrite elevation_eq. eexists. split; [reflexivity|].
    rewrite (proj1 (math_degrees_sign _)).
    now apply (station_above_horizon alpha).
  - rewrite elevation_eq. f_equal.
    assert (Z : station_sine 0 = 0) by (unfold station_sine; rewrite sin_0; lra).
    rewrite Z, asin_0. unfold math_degrees. field. pose proof PI_RGT_0. lra.
Qed.

Lemma elevation_above_horizon_witness :
  exists e, elevation (PI / 2) = Ok e /\ (0 < e <-> 6371 / 6779 < cos (PI / 2)).
Proof.
  apply (proj1 elevation_above_horizon (PI / 2)). pose proof PI_RGT_0. lra.
Defined.

(** X23.  The visibility test of the report composes the two modules: for
    valid coordinates the angle of [angle_between_coordinates] is accepted by
    [elevation], and the station is above the horizon ([elevation > 0])
    exactly when the rounded cosine of the central angle exceeds
    [6371 / 6779]. *)
Theorem elevation_of_angle_between_coordinates (lat1 long1 lat2 long2 : R) :
  -90 <= lat1 <= 90 -> -180 <= long1 <= 180 ->
  -90 <= lat2 <= 90 -> -180 <= long2 <= 180 ->
  exists angle e,
    angle_between_coordinates lat1 long1 lat2 long2 = Ok angle /\
    elevation angle = Ok e /\ -90 <= e <= 90 /\
    (0 < e <->
     6371 / 6779 <
     round_ndigits
       (sin (math_radians lat1) * sin (math_radians lat2) +
        cos (math_radians lat1) * cos (math_radians lat2) *
        cos (math_radians long1 - math_radians long2)) 5).
Proof.
  intros H1 H2 H3 H4.
  rewrite angle_between_coordinates_valid by assumption.
  fold (central_cosine lat1 long1 lat2 long2).
  set (q := round_ndigits (central_cosine lat1 long1 lat2 long2) 5).
  assert (Hq : -1 <= q <= 1)
    by (apply (round_ndigits_between _ 5 (-1) 1), central_cosine_range).
  pose proof (acos_bound q) as Ha.
  exists (acos q). rewrite elevation_eq. eexists.
  split; [reflexivity|]. split; [reflexivity|]. split.
  - pose proof (station_angle_bound (acos q) Ha) as Hg.
    pose proof (station_angle_sum (acos q) Ha) as Hs.
    unfold station_angle in Hg, Hs. apply math_degrees_sign. lra.
  - rewrite (proj1 (math_degrees_sign _)).
    fold (station_angle (acos q)).
    rewrite (station_above_horizon (acos q) Ha), cos_acos by exact Hq.
    reflexivity.
Qed.

Lemma elevation_of_angle_between_coordinates_witness :
  exists angle e,
    angle_between_coordinates 38.5 (-0.25) 45 10 = Ok angle /\
    elevation angle = Ok e /\ -90 <= e <= 90 /\
    (0 < e <->
     6371 / 6779 <
     round_ndigits
       (sin (math_radians 38.5) * sin (math_radians 45) +
        cos (math_radians 38.5) * cos (math_radians 45) *
        cos (math_radians (-0.25) - math_radians 10)) 5).
Proof.
  apply (elevation_of_angle_between_coordinates 38.5 (-0.25) 45 10); lra.
Defined.

(** ** [to_vector] at the poles and at antipodes *)

Lemma sphere_point_antipode (lat long : R) :
  sphere_point (- lat) (long + 180) = negate (sphere_point lat long).
Proof.
  unfold sphere_point, negate. cbn [map].
  rewrite math_radians_opp, math_radians_plus_180.
  rewrite cos_neg, sin_neg, neg_cos, neg_sin.
  repeat (apply f_equal2; [ring|]). reflexivity.
Qed.

(** X24.  At a pole [to_vector] ignores the longitude: every [(90, long)] is
    [(0, 0, 6371)] and every [(-90, long)] is [(0, 0, -6371)].  The vector of
    the antipode [(-lat, long + 180)] is the opposite vector. *)
Theorem to_vector_poles_and_antipodes :
  (forall long : R,
     -180 <= long <= 180 ->
     to_vector 90 long = Ok [0; 0; 6371] /\
     to_vector (-90) long = Ok [0; 0; -6371]) /\
  (forall lat long : R,
     -90 <= lat <= 90 -> -180 <= long <= 0 ->
     exists v, to_vector lat long = Ok v /\
               to_vector (- lat) (long + 180) = Ok (negate v)).
Proof.
  split.
  - intros long H.
    rewrite !to_vector_valid by (unfold valid_latitude, valid_longitude; lra).
    rewrite sphere_point_north_pole, sphere_point_south_pole. unfold R_km.
    split; repeat f_equal.
  - intros lat long H1 H2. exists (sphere_point lat long).
    rewrite !to_vector_valid by (unfold valid_latitude, valid_longitude; lra).
    split; [reflexivity|]. f_equal. apply sphere_point_antipode.
Qed.

Lemma to_vector_poles_and_antipodes_witness :
  (to_vector 90 90 = Ok [0; 0; 6371] /\ to_vector (-90) 90 = Ok [0; 0; -6371]) /\
  exists v, to_vector 15 (-28) = Ok v /\
            to_vector (- 15) (-28 + 180) = Ok (negate v).
Proof.
  split.
  - apply (proj1 to_vector_poles_and_antipodes 90). lra.
  - apply (proj2 to_vector_poles_and_antipodes 15 (-28)); lra.
Defined.

(** ** Bearings along the equator *)

Lemma sphere_point_equator (long : R) :
  sphere_point 0 long =
  [R_km * cos (math_radians long); R_km * sin (math_radians long); 0].
Proof.
  unfold sphere_point. rewrite math_radians_0, cos_0, sin_0. vec_ring.
Qed.

Lemma tangent_equator (long1 long2 : R) :
  tangent (sphere_point 0 long1) (sphere_point 0 long2) =
  scale (R_km * R_km * R_km * sin (math_radians long2 - math_radians long1))
        (east_unit long1).
Proof.
  rewrite !sphere_point_equator.
  unfold tangent, cross, east_unit, scale. cbn [nth map].
  rewrite sin_minus.
  pose proof (sin2_cos2_mul (math_radians long1)) as H1.
  repeat (apply f_equal2; [nsatz|]). reflexivity.
Qed.

Lemma tangent_north_equator (long : R) :
  tangent (sphere_point 0 long) [0; 0; 1] = [0; 0; R_km * R_km].
Proof.
  rewrite sphere_point_equator. unfold tangent, cross. cbn [nth].
  pose proof (sin2_cos2_mul (math_radians long)) as H1.
  repeat (apply f_equal2; [nsatz|]). reflexivity.
Qed.

Lemma sum_squares_east_unit (long : R) : sum (squares (east_unit long)) = 1.
Proof.
  unfold east_unit, squares. cbn [map]. rewrite sum3.
  pose proof (sin2_cos2_pow (math_radians long)). lra.
Qed.

(** Perpendicular vectors of nonzero magnitude make the angle [PI / 2]. *)
Lemma angle_vectors_perpendicular (v w : tuple) :
  length v = length w -> magnitude v <> Ok 0 -> magnitude w <> Ok 0 ->
  sum (products v w) = 0 -> angle_vectors v w = Ok (PI / 2).
Proof.
  intros Hl Hv Hw Hd.
  rewrite angle_vectors_nonzero_magnitude by assumption.
  rewrite Hd. unfold Rdiv at 1. rewrite Rmult_0_l.
  replace 0 with (IZR 0) by reflexivity.
  rewrite round_ndigits_IZR, math_acos_in_range by lra. now rewrite acos_0.
Qed.

Lemma math_degrees_PI2 : math_degrees (PI / 2) = 90.
Proof. unfold math_degrees. field. pose proof PI_RGT_0. lra. Qed.

Lemma bearing_equator_angle (long1 long2 : R) :
  1 <= Rabs (R_km * R_km * R_km * sin (math_radians long2 - math_radians long1)) ->
  angle_vectors (direction_vector 0 long1 0 long2)
                (tangent (sphere_point 0 long1) [0; 0; 1]) = Ok (PI / 2).
Proof.
  intros Ha. unfold direction_vector. cbv zeta.
  rewrite tangent_equator, tangent_north_equator.
  set (a := R_km * R_km * R_km * sin (math_radians long2 - math_radians long1)) in *.
  rewrite sum_squares_scale, sum_squares_east_unit, Rmult_1_r.
  replace (a * a) with (Rsqr a) by reflexivity. rewrite sqrt_Rsqr_abs.
  destruct (Rlt_dec (Rabs a) 1) as [F|_]; [lra|].
  pose proof R_km_pos as Hr.
  assert (Ha0 : a <> 0).
  { intros E. rewrite E, Rabs_R0 in Ha. lra. }
  apply angle_vectors_perpendicular.
  - reflexivity.
  - intros E. apply magnitude_zero_iff in E.
    rewrite sum_squares_scale, sum_squares_east_unit in E. nra.
  - intros E. apply magnitude_zero_iff in E.
    unfold squares in E. cbn [map] in E. rewrite sum3 in E.
    assert (P : 0 < R_km * R_km) by nra.
    assert (P2 : 0 < (R_km * R_km) * (R_km * R_km)) by nra.
    lra.
  - unfold east_unit, scale, products. cbn [map combine fst snd].
    rewrite sum3. ring.
Qed.

(** X25.  Along the equator, once the tangent has magnitude at least 1
    ([6371 ** 3 * |sin (long2 - long1)| >= 1]), the bearing depends on the
    order of the longitudes only: 90 when [long1 < long2] and 270 when
    [long2 < long1].  The shorter way round is not looked at: from
    longitude -135 to longitude 135 the bearing is 90, though the shorter
    way is west. *)
Theorem bearing_along_equator (long1 long2 : R) :
  -180 <= long1 <= 180 -> -180 <= long2 <= 180 ->
  1 <= 6371 ^ 3 * Rabs (sin (math_radians long2 - math_radians long1)) ->
  (long1 < long2 -> bearing_between_coordinates 0 long1 0 long2 = Ok 90) /\
  (long2 < long1 -> bearing_between_coordinates 0 long1 0 long2 = Ok 270).
Proof.
  intros H1 H2 Ha.
  rewrite bearing_between_coordinates_valid
    by (unfold valid_latitude, valid_longitude; lra).
  rewrite bearing_equator_angle.
  - rewrite bind_Ok, math_degrees_PI2.
    split; intros Hl; destruct (Rlt_dec long2 long1); try lra; f_equal; lra.
  - rewrite Rabs_mult, (Rabs_right (R_km * R_km * R_km)).
    + unfold R_km. lra.
    + unfold R_km. lra.
Qed.

Lemma bearing_along_equator_witness :
  bearing_between_coordinates 0 (-135) 0 135 = Ok 90 /\
  bearing_between_coordinates 0 90 0 0 = Ok 270.
Proof.
  assert (S1 : sin (math_radians 135 - math_radians (-135)) = -1).
  { replace (math_radians 135 - math_radians (-135)) with (- (PI / 2) + 2 * PI)
      by (unfold math_radians; field).
    rewrite sin_plus, sin_2PI, cos_2PI, sin_neg, sin_PI2. ring. }
  assert (S2 : sin (math_radians 0 - math_radians 90) = -1).
  { replace (math_radians 0 - math_radians 90) with (- (PI / 2))
      by (unfold math_radians; field).
    rewrite sin_neg, sin_PI2. ring. }
  split.
  - apply (bearing_along_equator (-135) 135); try lra.
    rewrite S1, Rabs_left by lra. lra.
  - apply (bearing_along_equator 90 0); try lra.
    rewrite S2, Rabs_left by lra. lra.
Defined.
